(** * train.py: the MNIST / factorization-machines demonstration script

    A shallow embedding of [train.py].  The script is one linear sequence of
    calls into numpy, pandas, boto3 and the SageMaker SDK; the pure data
    transformations (label binarization, float32 cast, chunking, request
    serialization, label extraction, cross-tabulation, locator formatting) are
    Rocq functions, and the sequence of external calls is a program in a small
    trace-and-exception monad run against an oracle for the outside world. *)

From Stdlib Require Import ZArith List String Ascii Lia.
From Stdlib Require Import QArith Qabs Qpower.
From Stdlib Require Import Floats.SpecFloat.
From Stdlib Require Import DecimalString.
From stdpp Require Import base option list strings countable gmap.

Local Open Scope Z_scope.
Local Set Warnings "-register-all".

(** ** Floating point values

    numpy's [float64] and [float32] scalars are IEEE 754 binary64 and binary32
    numbers; they are modelled by [spec_float] (sign, mantissa, exponent) with
    the rounding functions of the Standard Library's [SpecFloat]. *)
Module F32.

Definition prec : Z := 24.
Definition emax : Z := 128.

(** [x.astype('float32')] on one element: round to nearest even at 24 bits
    of precision, overflowing to infinity. *)
Definition of_float (x : spec_float) : spec_float :=
  match x with
  | S754_finite s m e => binary_round prec emax s m e
  | _ => x
  end.

(** The values a float32 array can hold. *)
Definition representable (x : spec_float) : bool := valid_binary prec emax x.

Definition one : spec_float := S754_finite false 8388608 (-23).
Definition zero : spec_float := S754_zero false.

End F32.

Module F64.

Definition prec : Z := 53.
Definition emax : Z := 1024.

(** The Python literals [1.0] and [0.0]. *)
Definition one : spec_float := S754_finite false 4503599627370496 (-52).
Definition zero : spec_float := S754_zero false.

(** A Python [int] stored in a float64 array: the nearest float64, ties to
    even. *)
Definition of_int (z : Z) : spec_float := binary_normalize prec emax z 0 false.

End F64.

(** A number proper: a zero or a finite number, not an infinity and not NaN. *)
Definition is_finite (x : spec_float) : bool :=
  match x with
  | S754_zero _ | S754_finite _ _ _ => true
  | _ => false
  end.

(** The value of a number proper, as a rational: [(-1)^s * m * 2^e].  The
    infinities and NaN have no value; they read as 0 and are told apart by
    [is_finite]. *)
Definition to_Q (x : spec_float) : Q :=
  match x with
  | S754_finite s m e => (inject_Z (cond_Zopp s (Zpos m)) * 2 ^ e)%Q
  | _ => 0%Q
  end.

(** ** numpy arrays

    A one-dimensional array is a list of its elements, a two-dimensional array
    the list of its rows.  Iterating over a 2-D array yields its rows and
    iterating over a 1-D array yields its scalars. *)
Abbreviation row := (list spec_float).
Abbreviation matrix := (list row).

(** [t.tolist()]: a row of the array as a list of Python floats, a scalar as a
    Python number; the conversion is exact. *)
Definition tolist {A : Type} (t : A) : A := t.

(** [np.array([t.tolist() for t in a])] of lines 36 and 37, where [a] is an
    array: the items are the rows, or the scalars, of one array, so they have
    one shape and one dtype, and numpy puts the array back together from
    them.  [np.array] of a list of arbitrary Python values, as on line 105, is
    [np_array_py] below. *)
Definition np_array {A : Type} (l : list A) : list A := l.

(** [a == k] for a 1-D integer array and a scalar: element-wise comparison. *)
Definition np_eq (a : list Z) (k : Z) : list bool :=
  map (fun v => Z.eqb v k) a.

(** [np.where(cond, x, y)] with scalar [x] and [y]. *)
Definition np_where {A : Type} (cond : list bool) (x y : A) : list A :=
  map (fun c : bool => if c then x else y) cond.

(** [a.astype('float32')] on a 1-D array and on a 2-D array. *)
Definition astype_float32 (a : row) : row := map F32.of_float a.
Definition astype_float32_2d (a : matrix) : matrix := map astype_float32 a.

(** A dataset split as unpickled: [split[0]] is the feature matrix and
    [split[1]] the label vector. *)
Record split := Split {
  split_features : matrix;
  split_labels : list Z
}.

(** Line 36: [vectors]. *)
Definition vectors (train_set : split) : matrix :=
  astype_float32_2d (np_array (map tolist (split_features train_set))).

(** Line 37: [labels]. *)
Definition labels (train_set : split) : row :=
  astype_float32
    (np_where (np_eq (np_array (map tolist (split_labels train_set))) 0)
              F64.one F64.zero).

(** Line 110, first argument of [pd.crosstab]: the binarized ground truth. *)
Definition actuals (test_set : split) : list Z :=
  np_where (np_eq (split_labels test_set) 0) 1 0.

(** The hyperparameters of line 70. *)
Inductive hpval := HInt (z : Z) | HStr (s : string).

Definition set_hyperparameters : gmap string hpval :=
  <["num_factors" := HInt 10]>
  (<["mini_batch_size" := HInt 200]>
  (<["predictor_type" := HStr "binary_classifier"]>
  (<["feature_dim" := HInt 784]> ∅))).

(** ** Slicing and [np.array_split] *)

(** [l[st:en]] for non-negative bounds; out-of-range bounds are clipped. *)
Definition py_slice {A : Type} (st en : nat) (l : list A) : list A :=
  take (en - st)%nat (drop st l).

(** [l[i]] for a non-negative index: [None] stands for [IndexError]. *)
Definition py_index {A : Type} (l : list A) (i : nat) : option A := l !! i.

Fixpoint cumsum_from (acc : nat) (l : list nat) : list nat :=
  match l with
  | [] => []
  | x :: l' => (acc + x)%nat :: cumsum_from (acc + x)%nat l'
  end.

Definition cumsum (l : list nat) : list nat := cumsum_from 0%nat l.

(** numpy's [section_sizes]: a leading 0, then [extras] sections of
    [Neach_section + 1] rows and the remaining ones of [Neach_section]. *)
Definition section_sizes (Ntotal Nsections : nat) : list nat :=
  let Neach_section := (Ntotal / Nsections)%nat in
  let extras := (Ntotal mod Nsections)%nat in
  [0%nat] ++ replicate extras (Neach_section + 1)%nat
          ++ replicate (Nsections - extras)%nat Neach_section.

(** [np.array_split(ary, Nsections)] along the first axis.  numpy raises
    [ValueError] for a section count that is not positive ([None] here); the
    sub-arrays are the slices between consecutive division points. *)
Definition array_split {A : Type} (ary : list A) (Nsections : nat)
  : option (list (list A)) :=
  match Nsections with
  | O => None
  | _ =>
    let div_points := cumsum (section_sizes (length ary) Nsections) in
    Some (map (fun i => py_slice (nth i div_points 0%nat)
                                 (nth (i + 1)%nat div_points 0%nat) ary)
              (seq 0 Nsections))
  end.

(** ** Python values

    The objects that cross the JSON boundary: what [fm_serializer] builds and
    what the deserializer returns.  A dict is the list of its items in
    insertion order, each key once. *)
Inductive pyval :=
  | PyNone
  | PyBool (b : bool)
  | PyInt (z : Z)
  | PyFloat (x : spec_float)
  | PyStr (s : string)
  | PyList (l : list pyval)
  | PyDict (d : list (string * pyval)).

Inductive exn :=
  | IndexError
  | KeyError (k : string)
  | TypeError
  | ValueError
  | ServiceError (what : string).

(** The outcome of a Python expression: a value, or a raised exception. *)
Inductive result (A : Type) :=
  | Ok (a : A)
  | Raise (e : exn).
Arguments Ok {A} a.
Arguments Raise {A} e.

#[export] Instance result_ret : MRet result := fun A a => Ok a.
#[export] Instance result_bind : MBind result := fun A B f m =>
  match m with
  | Ok a => f a
  | Raise e => Raise e
  end.

Definition dict_get (d : list (string * pyval)) (k : string) : option pyval :=
  snd <$> find (fun kv => String.eqb (fst kv) k) d.

(** [v[k]] with a string key. *)
Definition py_getitem (v : pyval) (k : string) : result pyval :=
  match v with
  | PyDict d =>
    match dict_get d k with
    | Some x => Ok x
    | None => Raise (KeyError k)
    end
  | _ => Raise TypeError
  end.

(** [for r in v]: the items of a list, the keys of a dict, the characters of
    a string; anything else is not iterable. *)
Definition py_iter (v : pyval) : result (list pyval) :=
  match v with
  | PyList l => Ok l
  | PyDict d => Ok (map (fun kv => PyStr (fst kv)) d)
  | PyStr s => Ok (map (fun c => PyStr (String c EmptyString))
                       (list_ascii_of_string s))
  | _ => Raise TypeError
  end.

Fixpoint result_mapM {A B : Type} (f : A -> result B) (l : list A)
  : result (list B) :=
  match l with
  | [] => Ok []
  | x :: l' =>
    match f x with
    | Ok y =>
      match result_mapM f l' with
      | Ok ys => Ok (y :: ys)
      | Raise e => Raise e
      end
    | Raise e => Raise e
    end
  end.

(** Line 103: [[r['predicted_label'] for r in result['predictions']]]. *)
Definition predicted_labels (res : pyval) : result (list pyval) :=
  preds ← py_getitem res "predictions";
  items ← py_iter preds;
  result_mapM (fun r => py_getitem r "predicted_label") items.

(** ** [np.array] of a list of Python values (line 105)

    numpy first finds the shape of the nested list: a scalar (or a dict, which
    is no sequence for numpy) has the empty shape, a list the length of the
    list followed by the common shape of its items.  Items of different shapes
    make the list inhomogeneous, and [np.array] raises [ValueError] (NumPy
    1.24 and later).  The elements of a flat list of Python numbers get one
    dtype: bool if all are bools, float64 if one is a float, int64 otherwise,
    an integer being an int64 when it lies in its range.  What numpy builds
    from any other homogeneous list (strings, [None], dicts, larger integers,
    nested lists) is a parameter, [rest].  An array is written as the list of
    its elements. *)
Fixpoint np_shape (v : pyval) : option (list nat) :=
  match v with
  | PyList l =>
    match map np_shape l with
    | [] => Some [0%nat]
    | s :: shapes =>
      if forallb (fun s' => bool_decide (s' = s)) shapes
      then cons (length l) <$> s
      else None
    end
  | _ => Some []
  end.

Definition np_is_number (v : pyval) : bool :=
  match v with
  | PyBool _ | PyFloat _ => true
  | PyInt z => (- 2 ^ 63 <=? z) && (z <? 2 ^ 63)
  | _ => false
  end.

Definition np_is_bool (v : pyval) : bool :=
  match v with
  | PyBool _ => true
  | _ => false
  end.

Definition np_is_float (v : pyval) : bool :=
  match v with
  | PyFloat _ => true
  | _ => false
  end.

(** A number as an element of an int64 array, and of a float64 array. *)
Definition np_to_int64 (v : pyval) : pyval :=
  match v with
  | PyBool b => PyInt (if b then 1 else 0)
  | _ => v
  end.

Definition np_to_float64 (v : pyval) : pyval :=
  match v with
  | PyBool b => PyFloat (if b then F64.one else F64.zero)
  | PyInt z => PyFloat (F64.of_int z)
  | _ => v
  end.

(** The conversion of the elements of a list of numbers to its dtype. *)
Definition np_common_cast (l : list pyval) : pyval -> pyval :=
  if forallb np_is_bool l then id
  else if existsb np_is_float l then np_to_float64
  else np_to_int64.

Definition np_array_py (rest : list pyval -> result (list pyval))
    (l : list pyval) : result (list pyval) :=
  match np_shape (PyList l) with
  | None => Raise ValueError
  | Some _ =>
    if forallb np_is_number l then Ok (map (np_common_cast l) l)
    else rest l
  end.

(** ** The request serializer (lines 84-88) *)

(** [js['instances'].append(item)]: the list stored under the key is extended
    in place. *)
Definition instances_append (js : list (string * pyval)) (item : pyval)
  : list (string * pyval) :=
  map (fun kv =>
         if String.eqb (fst kv) "instances"
         then (fst kv, match snd kv with
                       | PyList l => PyList (l ++ [item])
                       | v => v
                       end)
         else kv) js.

Definition features_item (r : row) : pyval :=
  PyDict [("features"%string, PyList (map PyFloat (tolist r)))].

(** The object [js] when the loop of [fm_serializer] ends. *)
Definition fm_serializer_js (data : matrix) : pyval :=
  PyDict (foldl (fun js r => instances_append js (features_item r))
                [("instances"%string, PyList [])] data).

(** [json.dumps] is the Python standard library's; the serializer is
    parametric in it. *)
Definition fm_serializer (json_dumps : pyval -> string) (data : matrix)
  : string :=
  json_dumps (fm_serializer_js data).

(** ** Values as keys

    Floats and Python values are compared and, as the labels of a table,
    enumerated; for [pyval] both come from an injection into stdpp's generic
    trees. *)
#[export] Instance spec_float_eq_dec : EqDecision spec_float.
Proof. solve_decision. Defined.

Definition spec_float_code (x : spec_float)
  : bool + bool + unit + bool * positive * Z :=
  match x with
  | S754_zero s => inl (inl (inl s))
  | S754_infinity s => inl (inl (inr s))
  | S754_nan => inl (inr tt)
  | S754_finite s m e => inr (s, m, e)
  end.

Definition spec_float_decode (c : bool + bool + unit + bool * positive * Z)
  : spec_float :=
  match c with
  | inl (inl (inl s)) => S754_zero s
  | inl (inl (inr s)) => S754_infinity s
  | inl (inr _) => S754_nan
  | inr (s, m, e) => S754_finite s m e
  end.

#[export] Instance spec_float_countable : Countable spec_float.
Proof.
  apply (inj_countable' spec_float_code spec_float_decode).
  by intros [].
Defined.

Abbreviation pyleaf := (unit + bool + Z + spec_float + string)%type.

Fixpoint pyval_tree (v : pyval) : gen_tree pyleaf :=
  match v with
  | PyNone => GenLeaf (inl (inl (inl (inl tt))))
  | PyBool b => GenLeaf (inl (inl (inl (inr b))))
  | PyInt z => GenLeaf (inl (inl (inr z)))
  | PyFloat x => GenLeaf (inl (inr x))
  | PyStr s => GenLeaf (inr s)
  | PyList l => GenNode 0 (map pyval_tree l)
  | PyDict d =>
    GenNode 1 (map (fun kv => GenNode 2 [GenLeaf (inr (fst kv));
                                         pyval_tree (snd kv)]) d)
  end.

Fixpoint tree_pyval (t : gen_tree pyleaf) : pyval :=
  match t with
  | GenLeaf (inl (inl (inl (inl _)))) => PyNone
  | GenLeaf (inl (inl (inl (inr b)))) => PyBool b
  | GenLeaf (inl (inl (inr z))) => PyInt z
  | GenLeaf (inl (inr x)) => PyFloat x
  | GenLeaf (inr s) => PyStr s
  | GenNode 0 ts => PyList (map tree_pyval ts)
  | GenNode _ ts =>
    PyDict (map (fun t => match t with
                          | GenNode _ [GenLeaf (inr k); tv] =>
                            (k, tree_pyval tv)
                          | _ => (EmptyString, PyNone)
                          end) ts)
  end.

Fixpoint pyval_tree_inv (v : pyval) : tree_pyval (pyval_tree v) = v.
Proof.
  destruct v as [| | | | |l|d]; simpl; try reflexivity.
  - f_equal. induction l as [|x l IH]; simpl; [reflexivity|].
    rewrite pyval_tree_inv, IH. reflexivity.
  - f_equal. induction d as [|[k x] d IH]; simpl; [reflexivity|].
    rewrite pyval_tree_inv, IH. reflexivity.
Qed.

#[export] Instance pyval_eq_dec : EqDecision pyval.
Proof.
  intros x y. destruct (decide (pyval_tree x = pyval_tree y)) as [E|NE].
  - left. rewrite <- (pyval_tree_inv x), <- (pyval_tree_inv y). by rewrite E.
  - right. intros ->. by apply NE.
Defined.

#[export] Instance pyval_countable : Countable pyval.
Proof. apply (inj_countable' pyval_tree tree_pyval pyval_tree_inv). Defined.

(** ** [pd.crosstab]

    The frequency table of two equally long arrays of labels.  pandas groups
    the samples by the values of the two arrays and, [dropna] being left at
    its default, leaves out every sample in which one of the two is missing
    (NaN in a float array); values are compared as numbers, so [0.0] and
    [-0.0] are one label.  [label_key] says how an element of an array of a
    given dtype is read: [None] for a missing value, and otherwise the
    representative of the values equal to it.  The cell at row label [a] and
    column label [p] holds the number of samples whose index is read as [a]
    and whose column is read as [p].  Arrays of different lengths are rejected
    ([None], pandas raises [ValueError]).  The table is a finite map from
    label pairs to counts; a pair that never occurs has no entry and reads as
    0. *)
Class Label (A : Type) := label_key : A -> option A.

(** An int64 array has no missing values. *)
#[export] Instance int_label : Label Z := Some.

(** The odd part of a mantissa and the number of zero bits that end it. *)
Fixpoint odd_part (m : positive) : positive * Z :=
  match m with
  | xO p => let '(q, k) := odd_part p in (q, k + 1)
  | _ => (m, 0)
  end.

(** A float64 array: NaN is missing, the two zeros are one label, and a
    finite number is known by its value, written with an odd mantissa. *)
Definition float_key (x : spec_float) : option spec_float :=
  match x with
  | S754_nan => None
  | S754_zero _ => Some (S754_zero false)
  | S754_infinity _ => Some x
  | S754_finite s m e =>
    let '(q, k) := odd_part m in Some (S754_finite s q (e + k))
  end.

#[export] Instance float_label : Label spec_float := float_key.

Section Crosstab.
Context {A B : Type} `{Countable A} `{Countable B} `{Label A} `{Label B}.

Definition cell (t : gmap (A * B) nat) (a : A) (p : B) : nat :=
  default 0%nat (t !! (a, p)).

Definition count_pair (t : gmap (A * B) nat) (k : A * B)
  : gmap (A * B) nat :=
  <[k := S (default 0%nat (t !! k))]> t.

(** The pair of labels under which a sample is counted, if it is counted. *)
Definition sample_key (a : A) (b : B) : option (A * B) :=
  ka ← label_key a; kb ← label_key b; Some (ka, kb).

(** The samples that enter the table, as label pairs. *)
Definition retained (index : list A) (columns : list B) : list (A * B) :=
  omap id (zip_with sample_key index columns).

Definition crosstab (index : list A) (columns : list B)
  : option (gmap (A * B) nat) :=
  if decide (length index = length columns)
  then Some (foldl count_pair ∅ (retained index columns))
  else None.

(** The sum of all cells of a table. *)
Definition total (t : gmap (A * B) nat) : nat :=
  map_fold (fun _ n acc => (n + acc)%nat) 0%nat t.

End Crosstab.

(** ** String formatting and path joining *)

(** [template.format(args...)] for a template whose replacement fields are all
    the automatic field [{}], with string arguments; [None] stands for the
    [IndexError] of a missing argument. *)
Fixpoint py_format (template : string) (args : list string) : option string :=
  match template with
  | EmptyString => Some EmptyString
  | String "{" (String "}" rest) =>
    match args with
    | a :: args' => String.append a <$> py_format rest args'
    | [] => None
    end
  | String c rest => String c <$> py_format rest args
  end.

(** [str(n)] for an integer. *)
Definition py_str_int (n : Z) : string := NilZero.string_of_int (Z.to_int n).

Definition startswith_sep (s : string) : bool :=
  match s with
  | String "/" _ => true
  | _ => false
  end.

Fixpoint endswith_sep (s : string) : bool :=
  match s with
  | EmptyString => false
  | String c EmptyString => Ascii.eqb c "/"
  | String _ rest => endswith_sep rest
  end.

(** One iteration of the loop of [posixpath.join]. *)
Definition join_step (path b : string) : string :=
  if startswith_sep b then b
  else if orb (String.eqb path EmptyString) (endswith_sep path)
       then String.append path b
       else String.append path (String "/" b).

(** [os.path.join(a, p...)] on a POSIX host. *)
Definition os_path_join (a : string) (p : list string) : string :=
  foldl join_step a p.

(** [img.reshape((r, c))]: [None] stands for the [ValueError] of a size
    mismatch. *)
Fixpoint rows_of (r c : nat) (l : row) : matrix :=
  match r with
  | O => []
  | S r' => take c l :: rows_of r' c (drop c l)
  end.

Definition reshape (r c : nat) (img : row) : option matrix :=
  if decide (length img = (r * c)%nat) then Some (rows_of r c img) else None.

(** ** The outside world

    Every call that leaves the script (network, file system, plotting, the
    storage service, the SageMaker SDK, pandas) is an [event]; the run records
    the events in the order the calls are made.  Imports and the assignment to
    matplotlib's [rcParams] (lines 17-18) are not calls and leave no event. *)
Record estimator := Estimator {
  image : string;
  est_role : string;
  train_instance_count : Z;
  train_instance_type : string;
  output_path : string;
  hyperparameters : gmap string hpval
}.

Inductive event :=
  | EvUrlRetrieve (url filename : string)
  | EvPickleLoad (filename : string)
  | EvSubplots
  | EvAxis (arg : string)
  | EvImshow (img : matrix) (cmap : string)
  | EvTitle (caption : string)
  | EvWriteTensor (array : matrix) (lbls : row)
  | EvUpload (bkt key : string) (body : list Byte.byte)
  | EvRegionName
  | EvGetImageUri (region algorithm : string)
  | EvSession
  | EvFit (fm : estimator) (inputs : gmap string string)
  | EvDeploy (fm : estimator) (initial_instance_count : Z)
             (instance_type : string)
  | EvInvoke (endpoint_name ctype body : string)
  | EvPrint (v : pyval)
  | EvCrosstab (index : list Z) (columns : list pyval)
  | EvDeleteEndpoint (endpoint_name : string).

(** What a call returns. *)
Inductive reply :=
  | RUnit
  | RDataset (train_set valid_set test_set : split)
  | RBytes (b : list Byte.byte)
  | RStr (s : string)
  | RVal (v : pyval).

(** The environment of a run: the standard library's [json.dumps], what
    [np.array] makes of a list that is not a flat list of numbers, and the
    world's answer to each call, which may depend on everything that happened
    before and may be an exception. *)
Record env := Env {
  json_dumps : pyval -> string;
  np_array_rest : list pyval -> result (list pyval);
  world : list event -> event -> result reply
}.

(** A step of the script reads the environment, extends the trace and either
    returns a value or raises; an exception ends the run, since the script has
    no handler anywhere. *)
Definition M (A : Type) : Type := env -> list event -> list event * result A.

#[export] Instance M_ret : MRet M := fun A a _ tr => (tr, Ok a).
#[export] Instance M_bind : MBind M := fun A B f m en tr =>
  match m en tr with
  | (tr', Ok a) => f a en tr'
  | (tr', Raise e) => (tr', Raise e)
  end.

(** An external call: recorded, then answered by the world. *)
Definition call (e : event) : M reply :=
  fun en tr => (tr ++ [e], world en tr e).

(** A step that is recorded but that the world cannot fail: printing. *)
Definition log (e : event) : M unit :=
  fun _ tr => (tr ++ [e], Ok tt).

Definition lift {A : Type} (r : result A) : M A := fun _ tr => (tr, r).

Definition lift_opt {A : Type} (e : exn) (o : option A) : M A :=
  lift (match o with Some a => Ok a | None => Raise e end).

Definition ask_dumps : M (pyval -> string) :=
  fun en tr => (tr, Ok (json_dumps en)).

Definition ask_np_array : M (list pyval -> result (list pyval)) :=
  fun en tr => (tr, Ok (np_array_py (np_array_rest en))).

(** Replies of the wrong shape fail where the script first uses them. *)
Definition as_dataset (r : reply) : result (split * split * split) :=
  match r with
  | RDataset a b c => Ok (a, b, c)
  | _ => Raise TypeError
  end.

Definition as_bytes (r : reply) : result (list Byte.byte) :=
  match r with
  | RBytes b => Ok b
  | _ => Raise TypeError
  end.

Definition as_str (r : reply) : result string :=
  match r with
  | RStr s => Ok s
  | _ => Raise TypeError
  end.

Definition as_val (r : reply) : result pyval :=
  match r with
  | RVal v => Ok v
  | _ => Raise TypeError
  end.

(** ** The script *)

(** Lines 1, 2, 47: the module-level names the locators are built from. *)
Record config := Config {
  bucket : string;
  prefix : string;
  key : string
}.

Definition script_config : config :=
  {| bucket := "localide"; prefix := "sagemaker/DEMO-1";
     key := "recordio-pb-data" |}.

Definition role : string :=
  "arn:aws:iam::604327226618:role/service-role/AirflowSageMakerExecutionRole".

(** Lines 13-15. *)
Definition load_dataset : M (split * split * split) :=
  _ ← call (EvUrlRetrieve "http://deeplearning.net/data/mnist/mnist.pkl.gz"
                          "mnist.pkl.gz");
  r ← call (EvPickleLoad "mnist.pkl.gz");
  lift (as_dataset r).

(** Lines 21-27, called with the default [subplot=None]. *)
Definition show_digit (img : row) (caption : string) : M unit :=
  _ ← call EvSubplots;
  imgr ← lift_opt ValueError (reshape 28 28 img);
  _ ← call (EvAxis "off");
  _ ← call (EvImshow imgr "gray");
  _ ← call (EvTitle caption);
  mret tt.

(** Line 29. *)
Definition show_sample (train_set : split) : M unit :=
  img ← lift_opt IndexError (py_index (split_features train_set) 30);
  lbl ← lift_opt IndexError (py_index (split_labels train_set) 30);
  caption ← lift_opt IndexError (py_format "This is a {}" [py_str_int lbl]);
  show_digit img caption.

(** Lines 36-50: encode the training split, upload it, and build the locator
    of the uploaded object. *)
Definition upload_training_data (c : config) (train_set : split) : M string :=
  r ← call (EvWriteTensor (vectors train_set) (labels train_set));
  buf ← lift (as_bytes r);
  _ ← call (EvUpload (bucket c) (os_path_join (prefix c) ["train"; key c]) buf);
  s3_train_data ← lift_opt IndexError
    (py_format "s3://{}/{}/train/{}" [bucket c; prefix c; key c]);
  msg ← lift_opt IndexError
    (py_format "uploaded training data location: {}" [s3_train_data]);
  _ ← log (EvPrint (PyStr msg));
  mret s3_train_data.

(** Lines 53-75: configure the estimator and run the training job on the
    uploaded data. *)
Definition train (c : config) (s3_train_data : string) : M estimator :=
  output_location ← lift_opt IndexError
    (py_format "s3://{}/{}/output" [bucket c; prefix c]);
  msg ← lift_opt IndexError
    (py_format "training artifacts will be uploaded to: {}" [output_location]);
  _ ← log (EvPrint (PyStr msg));
  r ← call EvRegionName;
  region ← lift (as_str r);
  r ← call (EvGetImageUri region "factorization-machines");
  container ← lift (as_str r);
  _ ← call EvSession;
  let fm := {| image := container; est_role := role;
               train_instance_count := 1;
               train_instance_type := "ml.c4.xlarge";
               output_path := output_location;
               hyperparameters := set_hyperparameters |} in
  _ ← call (EvFit fm {["train"%string := s3_train_data]});
  mret fm.

(** The predictor object: the endpoint handle with the codec fields the
    script assigns on lines 90-92. *)
Record predictor := Predictor {
  endpoint : string;
  content_type : string;
  serializer : matrix -> string
}.

(** Lines 77-78 and 90-92.  The JSON deserializer of line 92 is applied by the
    SDK to the endpoint's response; it is part of the world's answer to
    [EvInvoke]. *)
Definition deploy (fm : estimator) : M predictor :=
  r ← call (EvDeploy fm 1 "ml.m4.xlarge");
  name ← lift (as_str r);
  dumps ← ask_dumps;
  mret {| endpoint := name; content_type := "application/json";
          serializer := fm_serializer dumps |}.

(** [fm_predictor.predict(data)]: serialize, invoke, deserialize. *)
Definition predict (p : predictor) (data : matrix) : M pyval :=
  r ← call (EvInvoke (endpoint p) (content_type p) (serializer p data));
  lift (as_val r).

(** Lines 100-103: the body of the loop, for the chunks still to send. *)
Fixpoint predict_chunks (p : predictor) (chunks : list matrix)
         (predictions : list pyval) : M (list pyval) :=
  match chunks with
  | [] => mret predictions
  | array :: rest =>
    res ← predict p array;
    lbls ← lift (predicted_labels res);
    predict_chunks p rest (predictions ++ lbls)
  end.

(** Lines 100-105. *)
Definition collect_predictions (p : predictor) (test_features : matrix)
  : M (list pyval) :=
  chunks ← lift_opt ValueError (array_split test_features 100);
  predictions ← predict_chunks p chunks [];
  np_array ← ask_np_array;
  lift (np_array predictions).

(** Lines 94-110.  The table that [pd.crosstab] returns is not used by the
    script; what pandas does with the two arrays, raising included, is the
    world's answer to [EvCrosstab]. *)
Definition evaluate (p : predictor) (train_set test_set : split) : M unit :=
  res ← predict p (py_slice 30 31 (split_features train_set));
  _ ← log (EvPrint res);
  predictions ← collect_predictions p (split_features test_set);
  _ ← call (EvCrosstab (actuals test_set) predictions);
  mret tt.

(** Everything up to and including the deployment (lines 1-92). *)
Definition provision (c : config) : M (split * split * predictor) :=
  '(train_set, valid_set, test_set) ← load_dataset;
  _ ← show_sample train_set;
  s3_train_data ← upload_training_data c train_set;
  fm ← train c s3_train_data;
  fm_predictor ← deploy fm;
  mret (train_set, test_set, fm_predictor).

(** What runs between the deployment and the call of [delete_endpoint]: the
    evaluation, and the construction of the session of line 113. *)
Definition use_endpoint (p : predictor) (train_set test_set : split) : M unit :=
  _ ← evaluate p train_set test_set;
  _ ← call EvSession;
  mret tt.

(** Line 113: the teardown call. *)
Definition delete_endpoint (p : predictor) : M unit :=
  _ ← call (EvDeleteEndpoint (endpoint p));
  mret tt.

(** The whole script. *)
Definition script (c : config) : M unit :=
  '(train_set, test_set, fm_predictor) ← provision c;
  _ ← use_endpoint fm_predictor train_set test_set;
  delete_endpoint fm_predictor.

Definition run (c : config) (en : env) : list event * result unit :=
  script c en [].

Definition is_delete (e : event) : bool :=
  match e with
  | EvDeleteEndpoint _ => true
  | _ => false
  end.

(** How many times the run called [delete_endpoint]. *)
Definition deletions (tr : list event) : nat := length (filter is_delete tr).

(** ** Auxiliary notions for the proofs *)

(** Cutting a list into consecutive pieces of the given sizes: what the
    slices of [array_split] amount to. *)
Fixpoint split_by {A : Type} (sizes : list nat) (l : list A) : list (list A) :=
  match sizes with
  | [] => []
  | s :: ss => take s l :: split_by ss (drop s l)
  end.

(** The response of an endpoint that labels each row of the request with [f],
    in request order. *)
Definition per_row_response (f : row -> pyval) (data : matrix) : pyval :=
  PyDict [("predictions"%string,
           PyList (map (fun r => PyDict [("predicted_label"%string, f r)])
                       data))].

(** The endpoint behind [p] labels the rows of [chunk] with [f]: whenever the
    chunk is sent, the response is one from which line 103 reads the labels
    [f row], one per row and in the order of the rows. *)
Definition answers_per_row (f : row -> pyval) (en : env) (p : predictor)
           (chunk : matrix) : Prop :=
  forall h, exists v,
    world en h (EvInvoke (endpoint p) (content_type p) (serializer p chunk))
    = Ok (RVal v)
    /\ predicted_labels v = Ok (map f chunk).

(** [emits P m]: whatever the environment does, [m] only appends events to
    the trace, and every event it appends satisfies [P]. *)
Definition emits {A : Type} (P : event -> Prop) (m : M A) : Prop :=
  forall en tr, exists added, fst (m en tr) = tr ++ added /\ Forall P added.

(** [returns Q m]: every value [m] returns satisfies [Q]. *)
Definition returns {A : Type} (Q : A -> Prop) (m : M A) : Prop :=
  forall en tr tr' a, m en tr = (tr', Ok a) -> Q a.

(** An event other than a call of [delete_endpoint]. *)
Definition quiet (e : event) : Prop := is_delete e = false.

(** An event that concerns neither the teardown nor the training data. *)
Definition plain (e : event) : Prop :=
  match e with
  | EvDeleteEndpoint _ | EvFit _ _ | EvUpload _ _ _ => False
  | _ => True
  end.

(** The locator the script builds on line 49. *)
Definition train_locator (c : config) : string :=
  String.append "s3://"
    (String.append (bucket c)
       (String.append "/"
          (String.append (prefix c) (String.append "/train/" (key c))))).

(** An event that agrees with the configuration on where the training data
    lives: uploads go to the joined object key of the bucket, and training
    reads the channel [train] from the locator. *)
Definition locator_ok (c : config) (e : event) : Prop :=
  match e with
  | EvUpload b k _ =>
    b = bucket c /\ k = os_path_join (prefix c) ["train"%string; key c]
  | EvFit _ inputs => inputs = {["train"%string := train_locator c]}
  | _ => True
  end.

(** The estimator of lines 64-73, for the image the SDK resolved. *)
Definition script_estimator (c : config) (container : string) : estimator :=
  {| image := container; est_role := role;
     train_instance_count := 1;
     train_instance_type := "ml.c4.xlarge";
     output_path :=
       String.append "s3://"
         (String.append (bucket c)
            (String.append "/" (String.append (prefix c) "/output")));
     hyperparameters := set_hyperparameters |}.

(** An event of the phases before the deployment. *)
Definition before_deploy (e : event) : Prop :=
  match e with
  | EvDeploy _ _ _ | EvInvoke _ _ _ | EvCrosstab _ _ | EvDeleteEndpoint _ =>
    False
  | _ => True
  end.

(** The world has handed out [name] as the name of a deployed endpoint. *)
Definition deployed (en : env) (name : string) : Prop :=
  exists h fm, world en h (EvDeploy fm 1 "ml.m4.xlarge") = Ok (RStr name).

(** An event that addresses an endpoint addresses a deployed one, and a
    request is sent as JSON. *)
Definition handle_ok (en : env) (e : event) : Prop :=
  match e with
  | EvInvoke name ctype _ =>
    deployed en name /\ ctype = "application/json"%string
  | EvDeleteEndpoint name => deployed en name
  | _ => True
  end.

(** An event of the evaluation of the predictor [p]: its requests go to the
    endpoint of [p] with the content type of [p]. *)
Definition addressed_to (p : predictor) (e : event) : Prop :=
  match e with
  | EvInvoke name ctype body =>
    name = endpoint p /\ ctype = content_type p
  | EvDeploy _ _ _ | EvDeleteEndpoint _ => False
  | _ => True
  end.

Definition is_invoke (e : event) : bool :=
  match e with
  | EvInvoke _ _ _ => true
  | _ => false
  end.

(** How many inference requests the run sent. *)
Definition invocations (tr : list event) : nat :=
  length (filter is_invoke tr).

(** The environment [en] with the validation split of every archive it loads
    replaced by [v]. *)
Definition with_validation_split (v : split) (en : env) : env :=
  {| json_dumps := json_dumps en;
     np_array_rest := np_array_rest en;
     world := fun h e =>
       match e, world en h e with
       | EvPickleLoad _, Ok (RDataset a _ c) => Ok (RDataset a v c)
       | _, r => r
       end |}.

(** [m] runs in [en] as it does with the validation split replaced. *)
Definition indifferent {A : Type} (v : split) (en : env) (m : M A) : Prop :=
  forall tr, m (with_validation_split v en) tr = m en tr.

(** An event other than the loading of the archive. *)
Definition not_load (e : event) : Prop :=
  match e with
  | EvPickleLoad _ => False
  | _ => True
  end.

(** The request that [predict] sends for the batch [data]. *)
Definition request (p : predictor) (data : matrix) : event :=
  EvInvoke (endpoint p) (content_type p) (serializer p data).

(** The call number [i] of the run [tr] was [e], and the world answered it
    with [r]. *)
Definition answered (en : env) (tr : list event) (i : nat) (e : event)
    (r : reply) : Prop :=
  tr !! i = Some e /\ world en (take i tr) e = Ok r.

(** The calls of lines 13-78, in the order of the script, for the values the
    world returned. *)
Definition provision_calls (c : config) (train_set : split) (imgr : matrix)
    (lbl : Z) (buf : list Byte.byte) (region container : string)
  : list event :=
  [EvUrlRetrieve "http://deeplearning.net/data/mnist/mnist.pkl.gz"
                 "mnist.pkl.gz";
   EvPickleLoad "mnist.pkl.gz";
   EvSubplots; EvAxis "off"; EvImshow imgr "gray";
   EvTitle (String.append "This is a " (py_str_int lbl));
   EvWriteTensor (vectors train_set) (labels train_set);
   EvUpload (bucket c) (os_path_join (prefix c) ["train"%string; key c]) buf;
   EvPrint (PyStr (String.append "uploaded training data location: "
                                 (train_locator c)));
   EvPrint (PyStr (String.append "training artifacts will be uploaded to: "
                                 (output_path (script_estimator c container))));
   EvRegionName;
   EvGetImageUri region "factorization-machines";
   EvSession;
   EvFit (script_estimator c container)
         {["train"%string := train_locator c]};
   EvDeploy (script_estimator c container) 1 "ml.m4.xlarge"].

(** *** The float32 rounding of a number

    [float32_rounding x w]: [w] is what IEEE 754 rounding to nearest gives for
    [x] in binary32.  [w] is a float32 value.  An infinity, a NaN and a zero
    are kept.  A finite [x] keeps its sign; it overflows to an infinity
    exactly when its magnitude reaches [2^128 - 2^103], half a unit in the
    last place above the largest float32; otherwise [w] is a number proper,
    no float32 is nearer to [x] than [w], the error is at most [2^-24] of
    [x] for a magnitude from [2^-126] on and at most [2^-150] below; and when
    [x] has the value of a float32, [w] is that float32. *)
Definition float32_rounding (x w : spec_float) : Prop :=
  F32.representable w = true
  /\ match x with
     | S754_finite s _ _ =>
       (w = S754_zero s \/ w = S754_infinity s
        \/ exists m' e', w = S754_finite s m' e')
       /\ (is_finite w = true <-> (Qabs (to_Q x) < 2 ^ 128 - 2 ^ 103)%Q)
       /\ (is_finite w = true ->
           (forall y, F32.representable y = true -> is_finite y = true ->
              (Qabs (to_Q w - to_Q x) <= Qabs (to_Q y - to_Q x))%Q)
           /\ ((2 ^ (-126) <= Qabs (to_Q x))%Q ->
               (Qabs (to_Q w - to_Q x) * 2 ^ 24 <= Qabs (to_Q x))%Q)
           /\ ((Qabs (to_Q x) < 2 ^ (-126))%Q ->
               (Qabs (to_Q w - to_Q x) <= 2 ^ (-150))%Q))
       /\ (forall y, F32.representable y = true -> (to_Q y == to_Q x)%Q ->
           w = y)
     | _ => w = x
     end.

(** *** Rounding, for the proofs about the float32 cast *)

(** Where a remainder [R] of a division by [2 ^ k] lies between two
    quotients: on the lower one, below, at or above the middle. *)
Definition locate (R k : Z) : location :=
  if R =? 0 then loc_Exact else loc_Inexact (2 * R ?= 2 ^ k).

(** [M / 2 ^ n] rounded to the nearest integer, ties to even. *)
Definition rne (M n : Z) : Z :=
  round_nearest_even (M / 2 ^ n) (locate (M mod 2 ^ n) n).

(** The value of a number proper as a multiple of [2 ^ k], for [k] not above
    its exponent. *)
Definition Zvalue (k : Z) (x : spec_float) : Z :=
  match x with
  | S754_finite s m e => cond_Zopp s (Zpos m * 2 ^ (e - k))
  | _ => 0
  end.

Definition exponent_ge (k : Z) (x : spec_float) : Prop :=
  match x with
  | S754_finite _ _ e => k <= e
  | _ => True
  end.

(** The exponent that [binary_round] rounds [m * 2 ^ e] to, the mantissa it
    gets there, and the number it builds from the two. *)
Definition round_exponent (prec emax : Z) (m : positive) (e : Z) : Z :=
  fexp prec emax (Zpos (digits2_pos m) + e).

Definition round_mantissa (prec emax : Z) (m : positive) (e : Z) : Z :=
  let E := round_exponent prec emax m e in
  if E <=? e then Zpos m * 2 ^ (e - E) else rne (Zpos m) (E - e).

Definition round_pack (prec emax : Z) (s : bool) (q E : Z) : spec_float :=
  if q =? 0 then S754_zero s
  else if q <? 2 ^ prec
       then if E <=? emax - prec then S754_finite s (Z.to_pos q) E
            else S754_infinity s
       else if E + 1 <=? emax - prec
            then S754_finite s (Z.to_pos (q / 2)) (E + 1)
            else S754_infinity s.

(** ** A small world to run the script in

    Thirty-one blank training images (the script reads sample 30), three test
    images, and an endpoint that answers 1.0 for an image whose first pixel is
    lit and 0.0 otherwise.  The stand-in for [json.dumps] writes one digit per
    instance, so that the endpoint can tell the rows of a request apart. *)
Module Fixture.

Definition blank : row := replicate 784 F32.zero.
Definition lit : row := F32.one :: replicate 783 F32.zero.

Definition train_set : split :=
  {| split_features := replicate 31 blank;
     split_labels := replicate 30 5 ++ [0] |}.

Definition test_set : split :=
  {| split_features := [lit; blank; lit]; split_labels := [0; 4; 7] |}.

Definition classify (r : row) : pyval :=
  match r with
  | x :: _ => if decide (x = F32.one) then PyFloat F64.one else PyFloat F64.zero
  | [] => PyFloat F64.zero
  end.

Definition instance_digit (item : pyval) : ascii :=
  match item with
  | PyDict [(_, PyList (PyFloat x :: _))] =>
    if decide (x = F32.one) then "1"%char else "0"%char
  | _ => "0"%char
  end.

Definition dumps (v : pyval) : string :=
  match v with
  | PyDict [(_, PyList items)] =>
    string_of_list_ascii (map instance_digit items)
  | _ => EmptyString
  end.

Definition answer (body : string) : pyval :=
  PyDict [("predictions"%string,
           PyList (map (fun ch : ascii =>
                          PyDict [("score"%string, PyFloat F64.zero);
                                  ("predicted_label"%string,
                                   if Ascii.eqb ch "1" then PyFloat F64.one
                                   else PyFloat F64.zero)])
                       (list_ascii_of_string body)))].

Definition services (invoke : string -> result reply)
           (h : list event) (e : event) : result reply :=
  match e with
  | EvPickleLoad _ => Ok (RDataset train_set train_set test_set)
  | EvWriteTensor _ _ => Ok (RBytes [])
  | EvRegionName => Ok (RStr "us-east-1")
  | EvGetImageUri _ _ => Ok (RStr "factorization-machines:1")
  | EvDeploy _ _ _ => Ok (RStr "factorization-machines-endpoint")
  | EvInvoke _ _ body => invoke body
  | _ => Ok RUnit
  end.

(** Every service answers. *)
Definition healthy : env :=
  {| json_dumps := dumps;
     np_array_rest := Ok;
     world := services (fun body => Ok (RVal (answer body))) |}.

(** The endpoint is deployed but refuses every request. *)
Definition refusing : env :=
  {| json_dumps := dumps;
     np_array_rest := Ok;
     world := services (fun _ => Raise (ServiceError "ModelError")) |}.

End Fixture.

(** ** Worlds in which something goes wrong *)
Module Scenario.

(** The archive holds only ten training samples. *)
Definition ten_samples : env :=
  {| json_dumps := Fixture.dumps;
     np_array_rest := Ok;
     world := fun h e =>
       match e with
       | EvPickleLoad _ =>
         Ok (RDataset {| split_features := replicate 10 Fixture.blank;
                         split_labels := replicate 10 3 |}
                      Fixture.test_set Fixture.test_set)
       | _ => world Fixture.healthy h e
       end |}.

(** The training job fails. *)
Definition training_fails : env :=
  {| json_dumps := Fixture.dumps;
     np_array_rest := Ok;
     world := fun h e =>
       match e with
       | EvFit _ _ => Raise (ServiceError "TrainingJobFailed")
       | _ => world Fixture.healthy h e
       end |}.

(** The endpoint cannot be deleted. *)
Definition stuck_endpoint : env :=
  {| json_dumps := Fixture.dumps;
     np_array_rest := Ok;
     world := fun h e =>
       match e with
       | EvDeleteEndpoint _ => Raise (ServiceError "ValidationException")
       | _ => world Fixture.healthy h e
       end |}.

(** One training sample whose first pixel is the double nearest to 0.1, which
    is not a float32. *)
Definition tenth : spec_float := S754_finite false 7205759403792794 (-56).

Definition one_sample : split :=
  {| split_features := [tenth :: replicate 783 F64.zero];
     split_labels := [0] |}.

(** The predictor the script configures in the worlds of this file. *)
Definition fm_predictor : predictor :=
  {| endpoint := "factorization-machines-endpoint";
     content_type := "application/json";
     serializer := fm_serializer Fixture.dumps |}.

End Scenario.

(** * Properties *)

(** ** Floating point *)

(** A value that already is a float32 is left alone by the cast: the cast
    changes nothing but what rounding to 24 bits requires. *)
Lemma of_float_representable (x : spec_float) :
  F32.representable x = true -> F32.of_float x = x.
Proof.
  destruct x as [s|s| |s m e]; simpl; try reflexivity.
  unfold F32.representable, valid_binary, bounded, canonical_mantissa.
  intros Hb. apply andb_prop in Hb as [Hc He].
  apply Z.eqb_eq in Hc.
  unfold binary_round, shl_align. rewrite Hc, Z.sub_diag.
  unfold binary_round_aux, shr_fexp. simpl Zdigits2.
  rewrite Hc, Z.sub_diag. simpl.
  rewrite Hc, Z.sub_diag. simpl.
  rewrite He. reflexivity.
Qed.

Lemma digits2_pos_size (m : positive) : digits2_pos m = Pos.size m.
Proof. induction m; simpl; congruence. Qed.

Lemma digits2_bounds (m : positive) :
  2 ^ (Zpos (digits2_pos m) - 1) <= Zpos m < 2 ^ Zpos (digits2_pos m).
Proof.
  induction m as [m IH|m IH|]; cbn [digits2_pos].
  - rewrite Pos2Z.inj_succ.
    replace (Z.succ (Zpos (digits2_pos m)) - 1) with (Z.succ (Zpos (digits2_pos m) - 1)) by lia.
    rewrite !Z.pow_succ_r by lia. lia.
  - rewrite Pos2Z.inj_succ.
    replace (Z.succ (Zpos (digits2_pos m)) - 1) with (Z.succ (Zpos (digits2_pos m) - 1)) by lia.
    rewrite !Z.pow_succ_r by lia. lia.
  - simpl. lia.
Qed.

(** iter_pos is iteration *)
Lemma iter_pos_nat {A : Type} (f : A -> A) (p : positive) (x : A) :
  SpecFloat.iter_pos f p x = Nat.iter (Pos.to_nat p) f x.
Proof.
  revert x. induction p as [p IH|p IH|]; intros x; cbn [SpecFloat.iter_pos].
  - rewrite !IH, Pos2Nat.inj_xI, <- Nat.iter_add.
    replace (S (2 * Pos.to_nat p)) with (S (Pos.to_nat p + Pos.to_nat p))%nat by lia.
    by rewrite Nat.iter_succ_r.
  - rewrite !IH, Pos2Nat.inj_xO, <- Nat.iter_add. f_equal. lia.
  - reflexivity.
Qed.

Lemma shr_1_nonneg (m : Z) (r s : bool) :
  0 <= m ->
  shr_1 {| shr_m := m; shr_r := r; shr_s := s |}
  = {| shr_m := m / 2; shr_r := Z.odd m; shr_s := r || s |}.
Proof.
  intros Hm. destruct m as [|[p|p|]|p]; try lia; cbn [shr_1].
  - reflexivity.
  - f_equal. rewrite (Pos2Z.inj_xI p). 
    replace (2 * Zpos p + 1) with (1 + Zpos p * 2) by lia.
    rewrite Z.div_add by lia. reflexivity.
  - f_equal. rewrite (Pos2Z.inj_xO p).
    replace (2 * Zpos p) with (Zpos p * 2) by lia.
    by rewrite Z.div_mul by lia.
  - reflexivity.
Qed.

Lemma shr_iter (M : Z) (k : nat) :
  0 <= M ->
  let mrs := Nat.iter k shr_1 {| shr_m := M; shr_r := false; shr_s := false |} in
  shr_m mrs = M / 2 ^ Z.of_nat k
  /\ loc_of_shr_record mrs = locate (M mod 2 ^ Z.of_nat k) (Z.of_nat k).
Proof.
  intros HM. induction k as [|k IH].
  - simpl. rewrite Z.div_1_r, Z.mod_1_r. done.
  - cbn zeta in *. rewrite Nat.iter_succ.
    destruct (Nat.iter k shr_1 _) as [m r s]. cbn [shr_m] in IH.
    destruct IH as [-> Hloc].
    assert (H2k : 0 < 2 ^ Z.of_nat k) by (apply Z.pow_pos_nonneg; lia).
    rewrite shr_1_nonneg by (apply Z.div_pos; lia).
    cbn [shr_m]. rewrite Nat2Z.inj_succ, Z.pow_succ_r by lia.
    split.
    + rewrite Z.div_div by lia. f_equal. lia.
    + set (q := M / 2 ^ Z.of_nat k) in *.
      set (R := M mod 2 ^ Z.of_nat k) in *.
      assert (HR : 0 <= R < 2 ^ Z.of_nat k) by (apply Z.mod_pos_bound; lia).
      assert (HMq : M = 2 ^ Z.of_nat k * q + R) by (apply Z.div_mod; lia).
      assert (HR' : M mod (2 * 2 ^ Z.of_nat k)
                    = (q mod 2) * 2 ^ Z.of_nat k + R).
      { symmetry. apply Z.mod_unique with (q / 2).
        - left. pose proof (Z.mod_pos_bound q 2 ltac:(lia)). nia.
        - pose proof (Z.div_mod q 2 ltac:(lia)). nia. }
      rewrite HR'. clearbody q R. clear HR' HMq.
      assert (Hrs : (r || s = false) <-> R = 0).
      { unfold locate in Hloc. destruct (Z.eqb_spec R 0) as [E|Hne].
        - destruct r, s; simpl in Hloc; try discriminate. done.
        - destruct r, s; simpl in Hloc; try discriminate; split; try done;
            intros; done. }
      rewrite Zmod_odd. unfold locate. rewrite Z.pow_succ_r by lia.
      destruct (Z.odd q); destruct (r || s) eqn:Ers;
        cbn [loc_of_shr_record].
      * assert (R <> 0) by (intros HR0; apply Hrs in HR0; congruence).
        destruct (Z.eqb_spec (1 * 2 ^ Z.of_nat k + R) 0); [lia|].
        f_equal. symmetry. apply Z.compare_gt_iff. lia.
      * assert (R = 0) as -> by (by apply Hrs).
        destruct (Z.eqb_spec (1 * 2 ^ Z.of_nat k + 0) 0); [lia|].
        f_equal. symmetry. apply Z.compare_eq_iff. lia.
      * assert (R <> 0) by (intros HR0; apply Hrs in HR0; congruence).
        destruct (Z.eqb_spec (0 * 2 ^ Z.of_nat k + R) 0); [lia|].
        f_equal. symmetry. apply Z.compare_lt_iff. lia.
      * assert (R = 0) as -> by (by apply Hrs).
        destruct (Z.eqb_spec (0 * 2 ^ Z.of_nat k + 0) 0); [done|lia].
Qed.

Lemma Zdigits2_bounds (M : Z) :
  0 < M -> 2 ^ (Zdigits2 M - 1) <= M < 2 ^ Zdigits2 M.
Proof. destruct M as [|p|p]; try lia. intros _. apply digits2_bounds. Qed.

Lemma Zdigits2_pos (M : Z) : 0 < M -> 0 < Zdigits2 M.
Proof. destruct M; simpl; lia. Qed.

Lemma Zdigits2_unique (M k : Z) :
  2 ^ (k - 1) <= M < 2 ^ k -> 0 < M -> Zdigits2 M = k.
Proof.
  intros HM Hpos.
  pose proof (Zdigits2_bounds M Hpos) as Hd.
  pose proof (Zdigits2_pos M Hpos) as Hdp.
  assert (0 < k).
  { destruct (Z.ltb_spec 0 k); [done|].
    rewrite (Z.pow_neg_r 2 k) in HM by lia || (destruct (Z.eq_dec k 0); subst; simpl in *; lia).
    lia. }
  destruct (Z.lt_trichotomy (Zdigits2 M) k) as [Hlt|[Heq|Hgt]]; [|done|].
  - assert (2 ^ Zdigits2 M <= 2 ^ (k - 1)) by (apply Z.pow_le_mono_r; lia). lia.
  - assert (2 ^ k <= 2 ^ (Zdigits2 M - 1)) by (apply Z.pow_le_mono_r; lia). lia.
Qed.

Lemma rne_spec (M n : Z) :
  0 <= M -> 0 < n ->
  let q := rne M n in
  2 * Z.abs (q * 2 ^ n - M) <= 2 ^ n
  /\ (2 * Z.abs (q * 2 ^ n - M) = 2 ^ n -> Z.even q = true)
  /\ M / 2 ^ n <= q <= M / 2 ^ n + 1
  /\ (M mod 2 ^ n = 0 -> q = M / 2 ^ n).
Proof.
  intros HM Hn. cbn zeta. unfold rne, locate.
  assert (H2n : 0 < 2 ^ n) by (apply Z.pow_pos_nonneg; lia).
  pose proof (Z.div_mod M (2 ^ n) ltac:(lia)) as Hdm.
  pose proof (Z.mod_pos_bound M (2 ^ n) H2n) as HR.
  set (q := M / 2 ^ n) in *. set (R := M mod 2 ^ n) in *.
  clearbody q R.
  destruct (Z.eqb_spec R 0) as [E|NE]; cbn [round_nearest_even].
  - repeat split; try lia.
  - destruct (Z.compare_spec (2 * R) (2 ^ n)) as [Heq|Hlt|Hgt].
    + destruct (Z.even q) eqn:Hev.
      * repeat split; try lia. intros _. exact Hev.
      * repeat split; try lia. intros _.
        rewrite Z.even_add, Hev. reflexivity.
    + repeat split; try lia.
    + repeat split; try lia.
Qed.

Section Round.
Variables prec emax : Z.
Hypothesis Hprec : 0 < prec.
Hypothesis Hemax : prec < emax.

Abbreviation fexp := (fexp prec emax).
Abbreviation emin := (emin prec emax).
Abbreviation pack := (round_pack prec emax).
Abbreviation round_exp := (round_exponent prec emax).
Abbreviation round_mant := (round_mantissa prec emax).

Lemma fexp_ge_emin k : emin <= fexp k.
Proof. unfold SpecFloat.fexp. lia. Qed.

Lemma shr_exact (M e n : Z) :
  0 <= M ->
  shr {| shr_m := M; shr_r := false; shr_s := false |} e n
  = if 0 <? n
    then (fst (shr {| shr_m := M; shr_r := false; shr_s := false |} e n), e + n)
    else ({| shr_m := M; shr_r := false; shr_s := false |}, e).
Proof. intros HM. destruct n; reflexivity. Qed.

Lemma shr_pos (M e n : Z) :
  0 <= M -> 0 < n ->
  let res := shr {| shr_m := M; shr_r := false; shr_s := false |} e n in
  snd res = e + n
  /\ shr_m (fst res) = M / 2 ^ n
  /\ loc_of_shr_record (fst res) = locate (M mod 2 ^ n) n.
Proof.
  intros HM Hn. destruct n as [|p|p]; try lia. cbn zeta. cbn [shr fst snd].
  split; [reflexivity|]. rewrite iter_pos_nat.
  pose proof (shr_iter M (Pos.to_nat p) HM) as H. cbn zeta in H.
  rewrite positive_nat_Z in H. exact H.
Qed.

Lemma round_mant_bounds (m : positive) (e : Z) :
  let E := round_exp m e in
  let q := round_mant m e in
  0 <= q <= 2 ^ prec
  /\ (emin < E -> 2 ^ (prec - 1) <= q).
Proof.
  cbn zeta. unfold round_mantissa, round_exponent.
  set (d := Zpos (digits2_pos m)).
  pose proof (digits2_bounds m) as Hd. fold d in Hd.
  assert (Hdpos : 0 < d) by (unfold d; lia).
  set (E := fexp (d + e)).
  assert (HE : d + e - prec <= E) by (unfold E, SpecFloat.fexp; lia).
  assert (HE' : emin < E -> E = d + e - prec) by (unfold E, SpecFloat.fexp; lia).
  destruct (Z.leb_spec E e) as [Hle|Hlt].
  - (* exact *)
    assert (Zpos m * 2 ^ (e - E) < 2 ^ d * 2 ^ (e - E)).
    { apply Z.mul_lt_mono_pos_r; [apply Z.pow_pos_nonneg; lia|lia]. }
    rewrite <- Z.pow_add_r in H by lia.
    assert (2 ^ (d + (e - E)) <= 2 ^ prec) by (apply Z.pow_le_mono_r; lia).
    split; [split; [|lia]|].
    + apply Z.mul_nonneg_nonneg; [lia|]. apply Z.pow_nonneg; lia.
    + intros Hn. specialize (HE' Hn).
      assert (2 ^ (d - 1) * 2 ^ (e - E) <= Zpos m * 2 ^ (e - E)).
      { apply Z.mul_le_mono_nonneg_r; [apply Z.pow_nonneg; lia|lia]. }
      rewrite <- Z.pow_add_r in H1 by lia.
      replace (d - 1 + (e - E)) with (prec - 1) in H1 by lia. lia.
  - (* rounded *)
    set (n := E - e). assert (Hn : 0 < n) by (unfold n; lia).
    destruct (rne_spec (Zpos m) n ltac:(lia) Hn) as (_ & _ & Hq & _).
    cbn zeta in Hq.
    assert (H2n : 0 < 2 ^ n) by (apply Z.pow_pos_nonneg; lia).
    assert (Hdiv_lo : 0 <= Zpos m / 2 ^ n) by (apply Z.div_pos; lia).
    assert (Hdiv_hi : Zpos m / 2 ^ n < 2 ^ prec).
    { apply Z.div_lt_upper_bound; [lia|].
      rewrite <- Z.pow_add_r by lia.
      assert (2 ^ d <= 2 ^ (n + prec)) by (apply Z.pow_le_mono_r; unfold n; lia).
      lia. }
    split; [lia|].
    intros Hemin. specialize (HE' Hemin).
    assert (2 ^ (prec - 1) <= Zpos m / 2 ^ n); [|lia].
    apply Z.div_le_lower_bound; [lia|].
    rewrite <- Z.pow_add_r by lia.
    replace (n + (prec - 1)) with (d - 1) by (unfold n; lia). lia.
Qed.

Lemma Zdigits2_le_prec (q : Z) : 0 < q -> q < 2 ^ prec -> Zdigits2 q <= prec.
Proof.
  intros Hq Hlt. pose proof (Zdigits2_bounds q Hq) as Hb.
  destruct (Z.leb_spec (Zdigits2 q) prec) as [|Hgt]; [done|].
  assert (2 ^ prec <= 2 ^ (Zdigits2 q - 1)) by (apply Z.pow_le_mono_r; lia).
  lia.
Qed.

Theorem binary_round_pack (s : bool) (m : positive) (e : Z) :
  binary_round prec emax s m e = pack s (round_mant m e) (round_exp m e).
Proof.
  pose proof (round_mant_bounds m e) as Hb. cbn zeta in Hb.
  unfold binary_round, round_mantissa, round_exponent in *.
  set (d := Zpos (digits2_pos m)) in *.
  pose proof (digits2_bounds m) as Hd. fold d in Hd.
  assert (Hdpos : 0 < d) by (unfold d; lia).
  set (E := fexp (d + e)) in *.
  assert (HE : d + e - prec <= E) by (unfold E, SpecFloat.fexp; lia).
  assert (HEmin : emin <= E) by apply fexp_ge_emin.
  assert (HE' : emin < E -> E = d + e - prec) by (unfold E, SpecFloat.fexp; lia).
  (* first alignment *)
  assert (Halign : exists M ez,
             shl_align m e E = (M, ez)
             /\ (if E <=? e then Zpos M = Zpos m * 2 ^ (e - E) /\ ez = E
                 else M = m /\ ez = e)).
  { unfold shl_align. destruct (Z.leb_spec E e) as [Hle|Hlt].
    - destruct (E - e) as [|p|p] eqn:Hdiff; try lia.
      + exists m, e. split; [done|]. replace (e - E) with 0 by lia.
        split; lia.
      + eexists _, _. split; [reflexivity|]. split; [|done].
        change (Pos.iter xO m p) with (shift_pos p m).
        rewrite shift_pos_correct, Z.pow_pos_fold.
        replace (e - E) with (Zpos p) by lia. lia.
    - destruct (E - e) as [|p|p] eqn:Hdiff; try lia.
      exists m, e. done. }
  destruct Halign as (M & ez & -> & HM).
  unfold binary_round_aux.
  (* the mantissa after the first shift *)
  assert (H1 : exists mrs,
             shr_fexp prec emax (Zpos M) ez loc_Exact = (mrs, E)
             /\ round_nearest_even (shr_m mrs) (loc_of_shr_record mrs)
                = (if E <=? e then Zpos m * 2 ^ (e - E)
                   else rne (Zpos m) (E - e))).
  { unfold shr_fexp. cbn [shr_record_of_loc Zdigits2].
    destruct (Z.leb_spec E e) as [Hle|Hlt].
    - destruct HM as [HM ->].
      assert (HdM : Zpos (digits2_pos M) = d + e - E).
      { change (Zpos (digits2_pos M)) with (Zdigits2 (Zpos M)).
        apply Zdigits2_unique; [|lia]. rewrite HM.
        replace (d + e - E - 1) with ((d - 1) + (e - E)) by lia.
        replace (d + e - E) with (d + (e - E)) by lia.
        rewrite !Z.pow_add_r by lia.
        assert (0 < 2 ^ (e - E)) by (apply Z.pow_pos_nonneg; lia).
        nia. }
      rewrite HdM. replace (d + e - E + E) with (d + e) by lia.
      fold E. rewrite Z.sub_diag. cbn [shr].
      eexists. split; [reflexivity|]. cbn. exact HM.
    - destruct HM as [-> ->]. fold d. fold E.
      destruct (shr_pos (Zpos m) e (E - e) ltac:(lia) ltac:(lia))
        as (Hs & Hm & Hl). cbn zeta in *.
      destruct (shr _ e (E - e)) as [mrs e'] eqn:Hshr. cbn [fst snd] in *.
      exists mrs. split; [f_equal; lia|].
      rewrite Hm, Hl. reflexivity. }
  destruct H1 as (mrs & -> & ->).
  set (q := if E <=? e then Zpos m * 2 ^ (e - E) else rne (Zpos m) (E - e)) in *.
  clearbody q. destruct Hb as [Hq Hqn].
  unfold round_pack. destruct (Z.eqb_spec q 0) as [->|Hq0].
  - (* zero *)
    unfold shr_fexp. cbn [Zdigits2 shr_record_of_loc].
    assert (fexp (0 + E) - E <= 0) by (unfold SpecFloat.fexp; lia).
    destruct (fexp (0 + E) - E) as [|p|p] eqn:Hn; try lia; reflexivity.
  - assert (Hqpos : 0 < q) by lia.
    pose proof (Zdigits2_bounds q Hqpos) as Hdq.
    pose proof (Zdigits2_pos q Hqpos) as Hdqpos.
    destruct (Z.ltb_spec q (2 ^ prec)) as [Hlt|Hge].
    + (* no carry *)
      assert (Hfexp : fexp (Zdigits2 q + E) = E).
      { pose proof (Zdigits2_le_prec q Hqpos Hlt).
        unfold SpecFloat.fexp. 
        destruct (Z.eq_dec E emin) as [->|Hne]; [lia|].
        assert (2 ^ (prec - 1) <= q) by (apply Hqn; lia).
        assert (prec <= Zdigits2 q).
        { destruct (Z.leb_spec prec (Zdigits2 q)); [done|].
          assert (2 ^ Zdigits2 q <= 2 ^ (prec - 1))
            by (apply Z.pow_le_mono_r; lia). lia. }
        lia. }
      unfold shr_fexp. rewrite Hfexp, Z.sub_diag. cbn [shr shr_record_of_loc shr_m].
      destruct q as [|p|p]; try lia. reflexivity.
    + (* carry: q = 2 ^ prec *)
      assert (q = 2 ^ prec) as -> by lia.
      assert (Hdig : Zdigits2 (2 ^ prec) = prec + 1).
      { apply Zdigits2_unique; [|lia].
        replace (prec + 1 - 1) with prec by lia.
        rewrite Z.pow_add_r by lia. lia. }
      assert (Hfexp : fexp (Zdigits2 (2 ^ prec) + E) = E + 1).
      { rewrite Hdig. unfold SpecFloat.fexp. lia. }
      destruct (shr_pos (2 ^ prec) E 1 ltac:(lia) ltac:(lia)) as (Hs & Hm & _).
      cbn zeta in *. unfold shr_fexp. rewrite Hfexp.
      replace (E + 1 - E) with 1 by lia. cbn [shr_record_of_loc].
      destruct (shr _ E 1) as [mrs' e''] eqn:Hshr. cbn [fst snd] in *.
      rewrite Hm, Hs. change (2 ^ 1) with 2.
      assert (0 < 2 ^ prec / 2).
      { apply Z.div_str_pos. 
        assert (2 ^ 1 <= 2 ^ prec) by (apply Z.pow_le_mono_r; lia). lia. }
      destruct (2 ^ prec / 2) as [|p|p]; try lia. reflexivity.
Qed.


Lemma round_exp_ge_emin m e : emin <= round_exp m e.
Proof. apply fexp_ge_emin. Qed.

Lemma pow2_prec_half : 2 ^ prec / 2 = 2 ^ (prec - 1).
Proof.
  replace prec with ((prec - 1) + 1) at 1 by lia.
  rewrite Z.pow_add_r by lia. change (2 ^ 1) with 2.
  by rewrite Z.div_mul by lia.
Qed.

Lemma pack_finite_value (s : bool) (q E k : Z) :
  0 <= q <= 2 ^ prec -> k <= E ->
  Zvalue k (pack s q E) = 
  if is_finite (pack s q E) then cond_Zopp s (q * 2 ^ (E - k)) else 0.
Proof.
  intros Hq Hk. unfold round_pack.
  destruct (Z.eqb_spec q 0) as [->|Hq0]; [by destruct s|].
  destruct (Z.ltb_spec q (2 ^ prec)).
  - destruct (E <=? emax - prec); [|done]. cbn [is_finite Zvalue].
    rewrite Z2Pos.id by lia. done.
  - destruct (E + 1 <=? emax - prec); [|done]. cbn [is_finite Zvalue].
    assert (q = 2 ^ prec) as -> by lia.
    rewrite pow2_prec_half.
    rewrite Z2Pos.id by (apply Z.pow_pos_nonneg; lia).
    replace (E + 1 - k) with (1 + (E - k)) by lia.
    rewrite !Z.pow_add_r by lia. change (2 ^ 1) with 2.
    f_equal. replace (2 ^ prec) with (2 ^ (prec - 1) * 2); [ring|].
    rewrite <- pow2_prec_half.
    symmetry. rewrite Z.mul_comm. apply Z.div_exact; [lia|].
    replace prec with (1 + (prec - 1)) by lia.
    rewrite Z.pow_add_r by lia. change (2 ^ 1) with 2.
    rewrite Z.mul_comm. rewrite Z.mod_mul by lia. lia.
Qed.

Lemma pack_valid (s : bool) (q E : Z) :
  0 <= q <= 2 ^ prec -> emin <= E -> (emin < E -> 2 ^ (prec - 1) <= q) ->
  valid_binary prec emax (pack s q E) = true.
Proof.
  intros Hq HE Hn. unfold round_pack.
  destruct (Z.eqb_spec q 0) as [->|Hq0]; [done|].
  assert (Hqpos : 0 < q) by lia.
  destruct (Z.ltb_spec q (2 ^ prec)).
  - destruct (Z.leb_spec E (emax - prec)); [|done].
    cbn [valid_binary]. unfold bounded, canonical_mantissa.
    apply andb_true_intro. split; [|by apply Z.leb_le].
    apply Z.eqb_eq.
    change (Zpos (digits2_pos (Z.to_pos q))) with (Zdigits2 (Zpos (Z.to_pos q))).
    rewrite Z2Pos.id by lia.
    pose proof (Zdigits2_le_prec q Hqpos ltac:(lia)).
    pose proof (Zdigits2_pos q Hqpos).
    unfold SpecFloat.fexp.
    destruct (Z.eq_dec E emin) as [->|Hne]; [lia|].
    assert (2 ^ (prec - 1) <= q) by (apply Hn; lia).
    assert (prec <= Zdigits2 q).
    { destruct (Z.leb_spec prec (Zdigits2 q)); [done|].
      pose proof (Zdigits2_bounds q Hqpos).
      assert (2 ^ Zdigits2 q <= 2 ^ (prec - 1))
        by (apply Z.pow_le_mono_r; lia). lia. }
    lia.
  - destruct (Z.leb_spec (E + 1) (emax - prec)); [|done].
    cbn [valid_binary]. unfold bounded, canonical_mantissa.
    apply andb_true_intro. split; [|by apply Z.leb_le].
    apply Z.eqb_eq.
    change (Zpos (digits2_pos (Z.to_pos (q / 2))))
      with (Zdigits2 (Zpos (Z.to_pos (q / 2)))).
    assert (q = 2 ^ prec) as -> by lia.
    rewrite pow2_prec_half.
    rewrite Z2Pos.id by (apply Z.pow_pos_nonneg; lia).
    rewrite (Zdigits2_unique (2 ^ (prec - 1)) prec).
    + unfold SpecFloat.fexp. lia.
    + split; [lia|]. apply Z.pow_lt_mono_r; lia.
    + apply Z.pow_pos_nonneg; lia.
Qed.

(** Every rounding is a number of the format. *)
Theorem binary_round_valid (s : bool) (m : positive) (e : Z) :
  valid_binary prec emax (binary_round prec emax s m e) = true.
Proof.
  rewrite binary_round_pack.
  pose proof (round_mant_bounds m e) as [Hq Hn].
  apply pack_valid; [exact Hq|apply round_exp_ge_emin|exact Hn].
Qed.

(** The rounded mantissa is within half a unit of the exact quotient. *)
Lemma round_mant_error (m : positive) (e k : Z) :
  k <= e -> k <= round_exp m e ->
  let E := round_exp m e in
  let q := round_mant m e in
  let X := Zpos m * 2 ^ (e - k) in
  let G := 2 ^ (E - k) in
  2 * Z.abs (q * G - X) <= G
  /\ (q * G = X \/ q = X / G \/ q = X / G + 1).
Proof.
  intros Hke HkE. cbn zeta. unfold round_mantissa.
  set (E := round_exp m e) in *.
  assert (HG : 0 < 2 ^ (E - k)) by (apply Z.pow_pos_nonneg; lia).
  destruct (Z.leb_spec E e) as [Hle|Hlt].
  - assert (Zpos m * 2 ^ (e - E) * 2 ^ (E - k) = Zpos m * 2 ^ (e - k)) as Heq.
    { rewrite <- Z.mul_assoc, <- Z.pow_add_r by lia. do 2 f_equal. lia. }
    rewrite Heq. split; [lia|by left].
  - destruct (rne_spec (Zpos m) (E - e) ltac:(lia) ltac:(lia))
      as (Herr & _ & Hq & _). cbn zeta in *.
    assert (k = e \/ k < e) as [->|Hk] by lia.
    + rewrite Z.sub_diag, Z.mul_1_r. split; [exact Herr|]. right. lia.
    + (* k < e: scale both sides by 2 ^ (e - k) *)
      set (q := rne (Zpos m) (E - e)) in *.
      assert (Hs : 2 ^ (E - k) = 2 ^ (E - e) * 2 ^ (e - k)).
      { rewrite <- Z.pow_add_r by lia. f_equal. lia. }
      assert (Hp : 0 < 2 ^ (e - k)) by (apply Z.pow_pos_nonneg; lia).
      assert (Hp' : 0 < 2 ^ (E - e)) by (apply Z.pow_pos_nonneg; lia).
      rewrite Hs. split.
      * replace (q * (2 ^ (E - e) * 2 ^ (e - k)) - Zpos m * 2 ^ (e - k))
          with ((q * 2 ^ (E - e) - Zpos m) * 2 ^ (e - k)) by ring.
        rewrite Z.abs_mul, (Z.abs_eq (2 ^ (e - k))) by lia. nia.
      * right.
        rewrite Z.div_mul_cancel_r by lia. lia.
Qed.


Lemma round_mant_tie (m : positive) (e : Z) :
  let E := round_exp m e in
  e < E ->
  2 * Z.abs (round_mant m e * 2 ^ (E - e) - Zpos m) = 2 ^ (E - e) ->
  Z.even (round_mant m e) = true.
Proof.
  cbn zeta. intros Hlt. unfold round_mantissa.
  destruct (Z.leb_spec (round_exp m e) e); [lia|].
  destruct (rne_spec (Zpos m) (round_exp m e - e) ltac:(lia) ltac:(lia))
    as (_ & Hev & _). exact Hev.
Qed.

Lemma valid_finite_bounds (s : bool) (m : positive) (e : Z) :
  valid_binary prec emax (S754_finite s m e) = true ->
  emin <= e <= emax - prec
  /\ Zpos m < 2 ^ prec
  /\ e = fexp (Zpos (digits2_pos m) + e).
Proof.
  cbn [valid_binary]. unfold bounded, canonical_mantissa.
  intros H. apply andb_prop in H as [Hc He].
  apply Z.eqb_eq in Hc. apply Z.leb_le in He.
  pose proof (digits2_bounds m) as Hd.
  assert (Zpos (digits2_pos m) <= prec) by (unfold SpecFloat.fexp in Hc; lia).
  assert (2 ^ Zpos (digits2_pos m) <= 2 ^ prec) by (apply Z.pow_le_mono_r; lia).
  split; [|split; [lia|done]].
  split; [|done]. rewrite <- Hc. apply fexp_ge_emin.
Qed.

(** The magnitude of a positive multiple of a power of two. *)
Lemma magnitude (m : positive) (e k : Z) :
  k <= e ->
  2 ^ (Zpos (digits2_pos m) + e - k - 1) <= Zpos m * 2 ^ (e - k)
  < 2 ^ (Zpos (digits2_pos m) + e - k).
Proof.
  intros Hk. pose proof (digits2_bounds m) as Hd.
  set (d := Zpos (digits2_pos m)) in *.
  assert (0 < d) by (unfold d; lia).
  replace (d + e - k - 1) with ((d - 1) + (e - k)) by lia.
  replace (d + e - k) with (d + (e - k)) by lia.
  rewrite !Z.pow_add_r by lia.
  assert (0 < 2 ^ (e - k)) by (apply Z.pow_pos_nonneg; lia). nia.
Qed.

Lemma magnitude_unique (m1 m2 : positive) (e1 e2 k : Z) :
  k <= e1 -> k <= e2 ->
  Zpos m1 * 2 ^ (e1 - k) = Zpos m2 * 2 ^ (e2 - k) ->
  Zpos (digits2_pos m1) + e1 = Zpos (digits2_pos m2) + e2.
Proof.
  intros H1 H2 Heq.
  pose proof (magnitude m1 e1 k H1) as M1.
  pose proof (magnitude m2 e2 k H2) as M2.
  rewrite Heq in M1.
  set (a := Zpos (digits2_pos m1) + e1) in *.
  set (b := Zpos (digits2_pos m2) + e2) in *.
  assert (0 < a - k) by (unfold a; lia).
  assert (0 < b - k) by (unfold b; lia).
  destruct (Z.lt_trichotomy a b) as [Hlt|[Heq'|Hgt]]; [|done|].
  - assert (2 ^ (a - k) <= 2 ^ (b - k - 1)) by (apply Z.pow_le_mono_r; lia).
    lia.
  - assert (2 ^ (b - k) <= 2 ^ (a - k - 1)) by (apply Z.pow_le_mono_r; lia).
    lia.
Qed.

(** A value of the format is rounded to itself. *)
Theorem binary_round_exact (s : bool) (m : positive) (e k : Z)
    (y : spec_float) :
  k <= e -> k <= emin ->
  valid_binary prec emax y = true ->
  Zvalue k y = Zvalue k (S754_finite s m e) ->
  binary_round prec emax s m e = y.
Proof.
  intros Hke Hkm Hv Hval.
  assert (HX : 0 < Zpos m * 2 ^ (e - k)).
  { apply Z.mul_pos_pos; [lia|]. apply Z.pow_pos_nonneg; lia. }
  destruct y as [sy|sy| |sy my ey]; cbn [Zvalue] in Hval;
    try (destruct s; cbn [cond_Zopp] in Hval; lia).
  destruct (valid_finite_bounds _ _ _ Hv) as (Hey & Hmy & Hcan).
  assert (HY : 0 < Zpos my * 2 ^ (ey - k)).
  { apply Z.mul_pos_pos; [lia|]. apply Z.pow_pos_nonneg; lia. }
  assert (sy = s) as ->
    by (destruct s, sy; cbn [cond_Zopp] in Hval; try done; lia).
  assert (Heq : Zpos my * 2 ^ (ey - k) = Zpos m * 2 ^ (e - k))
    by (destruct s; cbn [cond_Zopp] in Hval; lia).
  pose proof (magnitude_unique my m ey e k ltac:(lia) Hke Heq) as Hmag.
  rewrite binary_round_pack.
  assert (HE : round_exp m e = ey).
  { unfold round_exponent. rewrite <- Hmag. by rewrite <- Hcan. }
  assert (Hq : round_mant m e = Zpos my).
  { unfold round_mantissa. rewrite HE.
    destruct (Z.leb_spec ey e) as [Hle|Hlt].
    - replace (e - k) with ((e - ey) + (ey - k)) in Heq by lia.
      rewrite Z.pow_add_r, Z.mul_assoc in Heq by lia.
      apply Z.mul_cancel_r in Heq; [lia|].
      assert (0 < 2 ^ (ey - k)) by (apply Z.pow_pos_nonneg; lia). lia.
    - replace (ey - k) with ((ey - e) + (e - k)) in Heq by lia.
      rewrite Z.pow_add_r, Z.mul_assoc in Heq by lia.
      apply Z.mul_cancel_r in Heq;
        [|assert (0 < 2 ^ (e - k)) by (apply Z.pow_pos_nonneg; lia); lia].
      assert (H2 : 0 < 2 ^ (ey - e)) by (apply Z.pow_pos_nonneg; lia).
      destruct (rne_spec (Zpos m) (ey - e) ltac:(lia) ltac:(lia))
        as (_ & _ & _ & Hex). cbn zeta in Hex. rewrite Hex.
      + rewrite <- Heq. by rewrite Z.div_mul by lia.
      + rewrite <- Heq. by rewrite Z.mod_mul by lia. }
  rewrite HE, Hq. unfold round_pack.
  destruct (Z.eqb_spec (Zpos my) 0); [lia|].
  destruct (Z.ltb_spec (Zpos my) (2 ^ prec)); [|lia].
  destruct (Z.leb_spec ey (emax - prec)); [|lia].
  reflexivity.
Qed.

(** No number of the format is nearer to the exact value than its
    rounding. *)
Theorem binary_round_nearest (s : bool) (m : positive) (e k : Z)
    (y : spec_float) :
  k <= e -> k <= emin ->
  is_finite (binary_round prec emax s m e) = true ->
  valid_binary prec emax y = true -> is_finite y = true ->
  Z.abs (Zvalue k (binary_round prec emax s m e)
         - Zvalue k (S754_finite s m e))
  <= Z.abs (Zvalue k y - Zvalue k (S754_finite s m e)).
Proof.
  intros Hke Hkm Hfin Hv Hfy.
  rewrite binary_round_pack in *.
  pose proof (round_mant_bounds m e) as [Hq Hqn]. cbn zeta in *.
  pose proof (round_exp_ge_emin m e) as HEm.
  rewrite (pack_finite_value s _ _ k Hq) by lia. rewrite Hfin.
  destruct (round_mant_error m e k Hke ltac:(lia)) as [Herr Hcase].
  cbn zeta in *. cbn [Zvalue].
  set (E := round_exp m e) in *. set (q := round_mant m e) in *.
  set (G := 2 ^ (E - k)) in *. set (X := Zpos m * 2 ^ (e - k)) in *.
  assert (HG : 0 < G) by (apply Z.pow_pos_nonneg; lia).
  assert (HX : 0 < X).
  { apply Z.mul_pos_pos; [lia|]. apply Z.pow_pos_nonneg; lia. }
  pose proof (Z.div_mod X G ltac:(lia)) as Hdm.
  pose proof (Z.mod_pos_bound X G HG) as Hr.
  assert (Ha : 0 <= X / G) by (apply Z.div_pos; lia).
  set (a := X / G) in *. set (r := X mod G) in *.
  assert (Hself : Z.abs (q * G - X) <= X) by (clearbody q a r G X; nia).
  assert (Hsame : Z.abs (cond_Zopp s (q * G) - cond_Zopp s X)
                  = Z.abs (q * G - X)) by (destruct s; cbn [cond_Zopp]; lia).
  rewrite Hsame.
  destruct y as [sy|sy| |sy my ey]; try discriminate; cbn [Zvalue].
  { destruct s; cbn [cond_Zopp]; lia. }
  destruct (valid_finite_bounds _ _ _ Hv) as (Hey & Hmy & Hcan).
  set (Y := Zpos my * 2 ^ (ey - k)).
  assert (HY : 0 < Y).
  { apply Z.mul_pos_pos; [lia|]. apply Z.pow_pos_nonneg; lia. }
  destruct (Bool.bool_dec sy s) as [->|Hne].
  2:{ assert (Z.abs (cond_Zopp sy Y - cond_Zopp s X) = Y + X)
        by (destruct s, sy; cbn [cond_Zopp]; try done; lia).
      lia. }
  assert (Hsame' : Z.abs (cond_Zopp s Y - cond_Zopp s X) = Z.abs (Y - X))
    by (destruct s; cbn [cond_Zopp]; lia).
  rewrite Hsame'.
  (* [Y] does not lie strictly between two neighbours on the grid *)
  assert (Hgap : Y <= a * G \/ (a + 1) * G <= Y).
  { destruct (Z.le_gt_cases E ey) as [Hle|Hlt].
    - assert (Y = (Zpos my * 2 ^ (ey - E)) * G) as ->.
      { unfold Y, G. rewrite <- Z.mul_assoc, <- Z.pow_add_r by lia.
        do 2 f_equal. lia. }
      set (c := Zpos my * 2 ^ (ey - E)). clearbody c.
      destruct (Z.le_gt_cases c a); [left; nia|right; nia].
    - left.
      assert (HEn : E = Zpos (digits2_pos m) + e - prec)
        by (unfold E, round_exponent, SpecFloat.fexp in *; lia).
      pose proof (magnitude m e k Hke) as Hmag. fold X in Hmag.
      assert (HXG : 2 ^ (prec - 1) * G <= X).
      { unfold G. rewrite <- Z.pow_add_r by lia.
        replace (prec - 1 + (E - k))
          with (Zpos (digits2_pos m) + e - k - 1) by lia. lia. }
      assert (Ha' : 2 ^ (prec - 1) <= a).
      { unfold a. apply Z.div_le_lower_bound; lia. }
      assert (HYG : Y < 2 ^ (prec - 1) * G).
      { unfold Y, G.
        assert (2 ^ (ey - k) * 2 <= 2 ^ (E - k)).
        { replace (E - k) with ((ey - k) + (E - ey)) by lia.
          rewrite Z.pow_add_r by lia.
          assert (2 ^ 1 <= 2 ^ (E - ey)) by (apply Z.pow_le_mono_r; lia).
          assert (0 < 2 ^ (ey - k)) by (apply Z.pow_pos_nonneg; lia).
          change (2 ^ 1) with 2 in *. nia. }
        assert (2 ^ prec = 2 ^ (prec - 1) * 2).
        { replace prec with ((prec - 1) + 1) at 1 by lia.
          rewrite Z.pow_add_r by lia. reflexivity. }
        assert (0 < 2 ^ (ey - k)) by (apply Z.pow_pos_nonneg; lia).
        assert (0 < 2 ^ (prec - 1)) by (apply Z.pow_pos_nonneg; lia).
        nia. }
      nia. }
  clearbody q a r G X Y. nia.
Qed.

(** The rounding is finite exactly below the overflow threshold. *)
Theorem binary_round_finite_iff (s : bool) (m : positive) (e k : Z) :
  k <= e -> k <= emin ->
  is_finite (binary_round prec emax s m e) = true
  <-> 2 * (Zpos m * 2 ^ (e - k))
      < (2 ^ (prec + 1) - 1) * 2 ^ (emax - prec - k).
Proof.
  intros Hke Hkm. rewrite binary_round_pack.
  pose proof (round_mant_bounds m e) as [Hq Hqn]. cbn zeta in *.
  pose proof (round_exp_ge_emin m e) as HEm.
  destruct (round_mant_error m e k Hke ltac:(lia)) as [Herr _].
  cbn zeta in *.
  pose proof (magnitude m e k Hke) as Hmag.
  assert (Hemin : emin <= emax - prec) by (unfold SpecFloat.emin; lia).
  assert (HEdef : round_exp m e
                  = Z.max (Zpos (digits2_pos m) + e - prec) emin)
    by reflexivity.
  set (E := round_exp m e) in *. set (q := round_mant m e) in *.
  set (X := Zpos m * 2 ^ (e - k)) in *.
  set (d := Zpos (digits2_pos m)) in *.
  set (T := 2 ^ (emax - prec - k)).
  assert (HT : 0 < T) by (apply Z.pow_pos_nonneg; lia).
  assert (HP : 2 ^ (prec + 1) = 2 * 2 ^ prec).
  { rewrite Z.pow_add_r by lia. change (2 ^ 1) with 2. lia. }
  assert (HP1 : 2 <= 2 ^ prec).
  { assert (2 ^ 1 <= 2 ^ prec) by (apply Z.pow_le_mono_r; lia). done. }
  assert (HG : 0 < 2 ^ (E - k)) by (apply Z.pow_pos_nonneg; lia).
  split.
  - (* finite, hence below the threshold *)
    unfold round_pack. intros Hfin.
    destruct (Z.eqb_spec q 0) as [Hq0|Hq0].
    + assert (E = emin).
      { destruct (Z.eq_dec E emin); [done|].
        assert (0 < 2 ^ (prec - 1)) by (apply Z.pow_pos_nonneg; lia).
        specialize (Hqn ltac:(lia)). lia. }
      assert (2 ^ (E - k) <= T) by (apply Z.pow_le_mono_r; lia).
      rewrite Hq0 in Herr. nia.
    + destruct (Z.ltb_spec q (2 ^ prec)) as [Hlt|Hge].
      * destruct (Z.leb_spec E (emax - prec)) as [HE|]; [|done].
        assert (HGT : 2 ^ (E - k) <= T) by (apply Z.pow_le_mono_r; lia).
        destruct (Z.eq_dec (2 * X) ((2 ^ (prec + 1) - 1) * T)) as [Heq|];
          [|nia].
        (* the tie at the threshold would round to an even mantissa *)
        exfalso.
        assert (HqT : q = 2 ^ prec - 1 /\ 2 ^ (E - k) = T) by nia.
        destruct HqT as [Hqv HGv].
        assert (HEv : E = emax - prec).
        { destruct (Z.eq_dec E (emax - prec)); [done|].
          assert (2 ^ (E - k) < 2 ^ (emax - prec - k))
            by (apply Z.pow_lt_mono_r; lia).
          unfold T in HGv. lia. }
        assert (He : e < E).
        { destruct (Z.le_gt_cases E e) as [Hle|]; [|done]. exfalso.
          assert (q * 2 ^ (E - k) = X).
          { unfold q, round_mantissa, X. fold E.
            destruct (Z.leb_spec E e); [|lia].
            rewrite <- Z.mul_assoc, <- Z.pow_add_r by lia.
            do 2 f_equal. lia. }
          nia. }
        pose proof (round_mant_tie m e He) as Htie. fold E q in Htie.
        assert (Hev : Z.even q = true).
        { apply Htie.
          assert (Hs : 2 ^ (E - k) = 2 ^ (E - e) * 2 ^ (e - k)).
          { rewrite <- Z.pow_add_r by lia. f_equal. lia. }
          assert (Hp : 0 < 2 ^ (e - k)) by (apply Z.pow_pos_nonneg; lia).
          assert (Hp' : 0 < 2 ^ (E - e)) by (apply Z.pow_pos_nonneg; lia).
          assert (2 * Z.abs (q * 2 ^ (E - k) - X) = 2 ^ (E - k)) by nia.
          rewrite Hs in H. unfold X in H.
          replace (q * (2 ^ (E - e) * 2 ^ (e - k)) - Zpos m * 2 ^ (e - k))
            with ((q * 2 ^ (E - e) - Zpos m) * 2 ^ (e - k)) in H by ring.
          rewrite Z.abs_mul, (Z.abs_eq (2 ^ (e - k))) in H by lia. nia. }
        rewrite Hqv in Hev.
        replace (2 ^ prec - 1) with (1 + 2 * (2 ^ (prec - 1) - 1)) in Hev.
        -- rewrite Z.even_add_mul_2 in Hev. done.
        -- replace prec with ((prec - 1) + 1) at 2 by lia.
           rewrite Z.pow_add_r by lia. change (2 ^ 1) with 2. lia.
      * destruct (Z.leb_spec (E + 1) (emax - prec)) as [HE|]; [|done].
        assert (HGT : 2 ^ (E - k) * 2 <= T).
        { unfold T. replace (emax - prec - k)
            with ((E - k) + (emax - prec - E)) by lia.
          rewrite Z.pow_add_r by lia.
          assert (2 ^ 1 <= 2 ^ (emax - prec - E))
            by (apply Z.pow_le_mono_r; lia).
          change (2 ^ 1) with 2 in *. nia. }
        assert (q = 2 ^ prec) by lia. nia.
  - (* below the threshold, hence finite *)
    intros Hlt. unfold round_pack.
    assert (Hde : d + e <= emax).
    { destruct (Z.le_gt_cases (d + e) emax); [done|]. exfalso.
      assert (2 ^ (emax - k) <= 2 ^ (d + e - k - 1))
        by (apply Z.pow_le_mono_r; lia).
      assert (2 ^ (emax - k) = 2 ^ prec * T).
      { unfold T. rewrite <- Z.pow_add_r by lia. f_equal. lia. }
      nia. }
    assert (HE : E <= emax - prec) by lia.
    destruct (Z.eqb_spec q 0); [done|].
    destruct (Z.ltb_spec q (2 ^ prec)).
    + destruct (Z.leb_spec E (emax - prec)); [done|lia].
    + destruct (Z.leb_spec (E + 1) (emax - prec)); [done|]. exfalso.
      assert (E = emax - prec) by lia.
      assert (2 ^ (E - k) = T) by (unfold T; f_equal; lia).
      assert (q = 2 ^ prec) by lia. nia.
Qed.

(** The error of a rounding is at most half a unit in the last place. *)
Theorem binary_round_error (s : bool) (m : positive) (e k : Z) :
  k <= e -> k <= emin ->
  is_finite (binary_round prec emax s m e) = true ->
  let W := Zvalue k (binary_round prec emax s m e) in
  let X := Zvalue k (S754_finite s m e) in
  (2 ^ (emin + prec - 1 - k) <= Z.abs X -> Z.abs (W - X) * 2 ^ prec <= Z.abs X)
  /\ (Z.abs X < 2 ^ (emin + prec - 1 - k) ->
      2 * Z.abs (W - X) <= 2 ^ (emin - k)).
Proof.
  intros Hke Hkm Hfin. cbn zeta.
  rewrite binary_round_pack in *.
  pose proof (round_mant_bounds m e) as [Hq Hqn]. cbn zeta in *.
  pose proof (round_exp_ge_emin m e) as HEm.
  rewrite (pack_finite_value s _ _ k Hq) by lia. rewrite Hfin.
  destruct (round_mant_error m e k Hke ltac:(lia)) as [Herr _].
  cbn zeta in *. cbn [Zvalue].
  pose proof (magnitude m e k Hke) as Hmag.
  assert (HEdef : round_exp m e
                  = Z.max (Zpos (digits2_pos m) + e - prec) emin)
    by reflexivity.
  set (E := round_exp m e) in *. set (q := round_mant m e) in *.
  set (G := 2 ^ (E - k)) in *. set (X := Zpos m * 2 ^ (e - k)) in *.
  set (d := Zpos (digits2_pos m)) in *.
  assert (HX : 0 < X).
  { apply Z.mul_pos_pos; [lia|]. apply Z.pow_pos_nonneg; lia. }
  assert (Hsame : Z.abs (cond_Zopp s (q * G) - cond_Zopp s X)
                  = Z.abs (q * G - X)) by (destruct s; cbn [cond_Zopp]; lia).
  assert (HabsX : Z.abs (cond_Zopp s X) = X) by (destruct s; cbn [cond_Zopp]; lia).
  rewrite Hsame, HabsX.
  assert (Hdk : 0 < d) by (unfold d; lia).
  split.
  - intros Hnorm.
    assert (Hd : emin + prec <= d + e).
    { destruct (Z.le_gt_cases (emin + prec) (d + e)); [done|]. exfalso.
      assert (2 ^ (d + e - k) <= 2 ^ (emin + prec - 1 - k))
        by (apply Z.pow_le_mono_r; lia). lia. }
    assert (HEn : E = d + e - prec) by lia.
    assert (HXG : 2 ^ (prec - 1) * G <= X).
    { unfold G. rewrite <- Z.pow_add_r by lia.
      replace (prec - 1 + (E - k)) with (d + e - k - 1) by lia. lia. }
    assert (2 ^ prec = 2 ^ (prec - 1) * 2).
    { replace prec with ((prec - 1) + 1) at 1 by lia.
      rewrite Z.pow_add_r by lia. reflexivity. }
    assert (0 < 2 ^ (prec - 1)) by (apply Z.pow_pos_nonneg; lia).
    clearbody q G X. nia.
  - intros Hsub.
    assert (Hd : d + e < emin + prec).
    { destruct (Z.le_gt_cases (emin + prec) (d + e)); [|done]. exfalso.
      assert (2 ^ (emin + prec - 1 - k) <= 2 ^ (d + e - k - 1))
        by (apply Z.pow_le_mono_r; lia). lia. }
    assert (HEn : E = emin) by lia.
    unfold G in *. rewrite HEn in *. exact Herr.
Qed.

End Round.

Lemma Qpow2_pos (k : Z) : (0 < 2 ^ k)%Q.
Proof. by apply Qpower_0_lt. Qed.

Lemma Qpow2_add (a b : Z) : (2 ^ (a + b) == 2 ^ a * 2 ^ b)%Q.
Proof. by apply Qpower_plus. Qed.

Lemma Qpow2_inject (n : Z) : 0 <= n -> (inject_Z (2 ^ n) == 2 ^ n)%Q.
Proof. intros Hn. by rewrite Zpower_Qpower. Qed.

Lemma cond_Zopp_mul (s : bool) (a b : Z) :
  cond_Zopp s (a * b) = cond_Zopp s a * b.
Proof. destruct s; cbn [cond_Zopp]; lia. Qed.

Lemma to_Q_Zvalue (k : Z) (x : spec_float) :
  exponent_ge k x -> (to_Q x == inject_Z (Zvalue k x) * 2 ^ k)%Q.
Proof.
  destruct x as [s|s| |s m e]; cbn [to_Q Zvalue exponent_ge];
    try (intros _; by rewrite Qmult_0_l).
  intros Hk. rewrite cond_Zopp_mul, inject_Z_mult.
  rewrite Qpow2_inject by lia. rewrite <- Qmult_assoc, <- Qpow2_add.
  by replace (e - k + k) with e by lia.
Qed.

Lemma Qabs_inject_Z (z : Z) : Qabs (inject_Z z) = inject_Z (Z.abs z).
Proof. reflexivity. Qed.

Lemma Qabs_scaled (a : Z) (k : Z) :
  (Qabs (inject_Z a * 2 ^ k) == inject_Z (Z.abs a) * 2 ^ k)%Q.
Proof.
  rewrite Qabs_Qmult, Qabs_inject_Z.
  rewrite (Qabs_pos (2 ^ k)); [reflexivity|].
  apply Qlt_le_weak, Qpow2_pos.
Qed.

Lemma Qabs_diff_scaled (a b : Z) (k : Z) :
  (Qabs (inject_Z a * 2 ^ k - inject_Z b * 2 ^ k)
   == inject_Z (Z.abs (a - b)) * 2 ^ k)%Q.
Proof.
  rewrite <- Qabs_scaled. apply Qabs_wd.
  unfold Z.sub. rewrite inject_Z_plus, inject_Z_opp. ring.
Qed.

Lemma scaled_le (a b : Z) (k : Z) :
  a <= b <-> (inject_Z a * 2 ^ k <= inject_Z b * 2 ^ k)%Q.
Proof. rewrite Qmult_le_r by apply Qpow2_pos. by rewrite Zle_Qle. Qed.

Lemma scaled_lt (a b : Z) (k : Z) :
  a < b <-> (inject_Z a * 2 ^ k < inject_Z b * 2 ^ k)%Q.
Proof. rewrite Qmult_lt_r by apply Qpow2_pos. by rewrite Zlt_Qlt. Qed.

Lemma scaled_eq (a b : Z) (k : Z) :
  a = b <-> (inject_Z a * 2 ^ k == inject_Z b * 2 ^ k)%Q.
Proof.
  split; [by intros ->|]. intros H.
  apply inject_Z_injective.
  apply Qmult_inj_r in H; [done|].
  apply Qnot_eq_sym, Qlt_not_eq, Qpow2_pos.
Qed.

Lemma valid_exponent_ge (prec emax k : Z) (x : spec_float) :
  0 < prec -> prec < emax ->
  k <= emin prec emax -> valid_binary prec emax x = true -> exponent_ge k x.
Proof.
  intros Hp He Hk Hv. destruct x as [| | |s m e]; try exact I.
  destruct (valid_finite_bounds prec emax Hp s m e Hv) as (Hb & _).
  cbn [exponent_ge]. lia.
Qed.

Section CastFacts.
Variables (s : bool) (m : positive) (e : Z).

Let x := S754_finite s m e.
Let w := F32.of_float x.
Let k := Z.min e (-149).

Lemma cast_k : k <= e /\ k <= emin 24 128.
Proof. unfold k, emin. lia. Qed.

Lemma cast_valid : F32.representable w = true.
Proof. apply binary_round_valid; done. Qed.

Lemma cast_w_value : (to_Q w == inject_Z (Zvalue k w) * 2 ^ k)%Q.
Proof.
  apply to_Q_Zvalue. apply (valid_exponent_ge 24 128); [done|done| |].
  - apply cast_k.
  - apply cast_valid.
Qed.

Lemma cast_x_value : (to_Q x == inject_Z (Zvalue k x) * 2 ^ k)%Q.
Proof. apply to_Q_Zvalue. cbn. apply cast_k. Qed.

Lemma cast_sign :
  w = S754_zero s \/ w = S754_infinity s
  \/ exists m' e', w = S754_finite s m' e'.
Proof.
  unfold w, F32.of_float, x. rewrite binary_round_pack by done.
  unfold round_pack. repeat case_match; eauto.
Qed.

Lemma cast_finite_iff :
  is_finite w = true <-> (Qabs (to_Q x) < 2 ^ 128 - 2 ^ 103)%Q.
Proof.
  destruct cast_k as [Hke Hkm].
  unfold w, F32.of_float, x.
  rewrite (binary_round_finite_iff 24 128 ltac:(done) ltac:(done) s m e k Hke Hkm).
  fold x. rewrite cast_x_value, Qabs_scaled.
  assert (HX : Z.abs (Zvalue k x) = Zpos m * 2 ^ (e - k)).
  { unfold x. cbn [Zvalue].
    assert (0 < Zpos m * 2 ^ (e - k)).
    { apply Z.mul_pos_pos; [lia|]. apply Z.pow_pos_nonneg; lia. }
    destruct s; cbn [cond_Zopp]; lia. }
  rewrite HX. set (X := Zpos m * 2 ^ (e - k)). clearbody X.
  rewrite (scaled_lt _ _ k).
  rewrite !inject_Z_mult.
  rewrite (Qpow2_inject (F32.emax - F32.prec - k))
    by (unfold F32.emax, F32.prec, k; lia).
  rewrite <- (Qmult_assoc (inject_Z (2 ^ (F32.prec + 1) - 1))).
  rewrite <- Qpow2_add.
  replace (F32.emax - F32.prec - k + k) with 104
    by (unfold F32.emax, F32.prec; lia).
  assert (HT : (inject_Z (2 ^ (F32.prec + 1) - 1) * 2 ^ 104
                == inject_Z 2 * (2 ^ 128 - 2 ^ 103))%Q) by (vm_compute; reflexivity).
  rewrite HT. rewrite <- Qmult_assoc.
  rewrite Qmult_lt_l by reflexivity. reflexivity.
Qed.

Lemma cast_nearest (y : spec_float) :
  is_finite w = true ->
  F32.representable y = true -> is_finite y = true ->
  (Qabs (to_Q w - to_Q x) <= Qabs (to_Q y - to_Q x))%Q.
Proof.
  intros Hw Hy Hfy. destruct cast_k as [Hke Hkm].
  assert (Hyv : (to_Q y == inject_Z (Zvalue k y) * 2 ^ k)%Q).
  { apply to_Q_Zvalue. by apply (valid_exponent_ge 24 128). }
  rewrite cast_w_value, cast_x_value, Hyv, !Qabs_diff_scaled.
  apply scaled_le.
  apply (binary_round_nearest 24 128); done.
Qed.

Lemma cast_exact (y : spec_float) :
  F32.representable y = true -> (to_Q y == to_Q x)%Q -> w = y.
Proof.
  intros Hy Heq. destruct cast_k as [Hke Hkm].
  apply (binary_round_exact 24 128) with (k := k); try done.
  apply (scaled_eq _ _ k). fold x. rewrite <- cast_x_value.
  rewrite <- Heq. symmetry. apply to_Q_Zvalue.
  by apply (valid_exponent_ge 24 128).
Qed.

Lemma cast_error :
  is_finite w = true ->
  ((2 ^ (-126) <= Qabs (to_Q x))%Q ->
   (Qabs (to_Q w - to_Q x) * 2 ^ 24 <= Qabs (to_Q x))%Q)
  /\ ((Qabs (to_Q x) < 2 ^ (-126))%Q ->
      (Qabs (to_Q w - to_Q x) <= 2 ^ (-150))%Q).
Proof.
  intros Hw. destruct cast_k as [Hke Hkm].
  pose proof (binary_round_error 24 128) as Herr.
  specialize (Herr ltac:(done) s m e k Hke Hkm Hw).
  destruct Herr as [Hn Hs]. cbn zeta in Hn, Hs.
  change (binary_round 24 128 s m e) with w in Hn, Hs.
  change (S754_finite s m e) with x in Hn, Hs.
  rewrite cast_w_value, cast_x_value, Qabs_diff_scaled, Qabs_scaled.
  assert (Hp : (2 ^ (-126) == inject_Z (2 ^ (emin 24 128 + 24 - 1 - k)) * 2 ^ k)%Q).
  { rewrite Qpow2_inject by (unfold emin, k; lia). rewrite <- Qpow2_add.
    by replace (emin 24 128 + 24 - 1 - k + k) with (-126) by (unfold emin; lia). }
  split.
  - rewrite Hp. intros H. apply scaled_le in H.
    specialize (Hn H).
    rewrite <- (Qpow2_inject 24) by lia.
    rewrite <- Qmult_assoc, (Qmult_comm (2 ^ k)), Qmult_assoc.
    rewrite <- inject_Z_mult. by apply scaled_le.
  - rewrite Hp. intros H. apply scaled_lt in H.
    specialize (Hs H).
    assert (Hq : (2 ^ (-150) == inject_Z (2 ^ (emin 24 128 - k)) * 2 ^ k * (1 # 2))%Q).
    { rewrite Qpow2_inject by (unfold emin, k; lia). rewrite <- Qpow2_add.
      replace (emin 24 128 - k + k) with (-149) by (unfold emin; lia).
      vm_compute. reflexivity. }
    rewrite Hq.
    apply (scaled_le _ _ k) in Hs. rewrite inject_Z_mult in Hs.
    set (a := inject_Z (Z.abs (Zvalue k w - Zvalue k x))) in *.
    set (B := (inject_Z (2 ^ (emin 24 128 - k)) * 2 ^ k)%Q) in *.
    clearbody a B.
    apply (Qmult_le_l _ _ 2); [reflexivity|].
    assert (E1 : (2 * (B * (1 # 2)) == B)%Q) by ring.
    assert (E2 : (2 * (a * 2 ^ k) == inject_Z 2 * a * 2 ^ k)%Q)
      by (change (inject_Z 2) with 2%Q; ring).
    rewrite E1, E2. exact Hs.
Qed.

End CastFacts.

(** The cast to float32 is the float32 rounding. *)
Lemma of_float_rounding (x : spec_float) : float32_rounding x (F32.of_float x).
Proof.
  split.
  - destruct x as [| | |s m e]; try reflexivity. apply cast_valid.
  - destruct x as [| | |s m e]; try reflexivity.
    split; [apply cast_sign|]. split; [apply cast_finite_iff|].
    split; [|intros y; apply cast_exact].
    intros Hw. split; [intros y; by apply cast_nearest|].
    by apply cast_error.
Qed.

Example cast_one : F32.of_float F64.one = F32.one.
Proof. reflexivity. Qed.

(** The double nearest to 0.1 is not a float32; the cast rounds it to the
    float32 nearest to it. *)
Example cast_tenth :
  F32.of_float (S754_finite false 7205759403792794 (-56))
  = S754_finite false 13421773 (-27).
Proof. reflexivity. Qed.

(** ** [np.array_split] *)
Section ArraySplit.
Context {A : Type}.
Implicit Types (l : list A) (sizes : list nat).

Lemma slices_split_by sizes : forall acc l,
  map (fun i => py_slice (nth i (acc :: cumsum_from acc sizes) 0%nat)
                         (nth (i + 1)%nat (acc :: cumsum_from acc sizes) 0%nat)
                         l)
      (seq 0 (length sizes))
  = split_by sizes (drop acc l).
Proof.
  induction sizes as [|s ss IH]; intros acc l; [reflexivity|].
  cbn [length seq map split_by cumsum_from].
  f_equal.
  - unfold py_slice. cbn [nth Nat.add]. f_equal. lia.
  - rewrite <- seq_shift, map_map, drop_drop, <- IH.
    apply map_ext. intros i. reflexivity.
Qed.

Lemma take_plus l : forall s n, take (s + n) l = take s l ++ take n (drop s l).
Proof.
  induction l as [|x l IH]; intros [|s] n; simpl; try reflexivity.
  - by destruct n.
  - by rewrite IH.
Qed.

Lemma concat_split_by sizes : forall l,
  concat (split_by sizes l) = take (sum_list sizes) l.
Proof.
  induction sizes as [|s ss IH]; intros l; simpl.
  - by rewrite take_0.
  - by rewrite IH, take_plus.
Qed.

Lemma length_split_by sizes l : length (split_by sizes l) = length sizes.
Proof.
  revert l. induction sizes as [|s ss IH]; intros l; simpl; [done|].
  by rewrite IH.
Qed.

Lemma split_by_lookup sizes : forall l i c,
  (sum_list sizes <= length l)%nat ->
  split_by sizes l !! i = Some c ->
  sizes !! i = Some (length c).
Proof.
  induction sizes as [|s ss IH]; intros l i c Hsum Hc; [done|].
  simpl in Hsum. destruct i as [|i]; simpl in *.
  - injection Hc as <-. rewrite length_take. f_equal. lia.
  - eapply IH; [|exact Hc]. rewrite length_drop. lia.
Qed.

Lemma section_sizes_sum (N n : nat) :
  n <> 0%nat ->
  sum_list (replicate (N mod n) (N / n + 1)%nat
            ++ replicate (n - N mod n) (N / n)%nat) = N.
Proof.
  intros Hn. rewrite sum_list_with_app, !sum_list_replicate.
  pose proof (Nat.div_mod_eq N n) as E.
  pose proof (Nat.mod_upper_bound N n Hn) as Hlt.
  nia.
Qed.

Lemma section_sizes_lookup (N n i : nat) :
  (i < n)%nat ->
  (replicate (N mod n) (N / n + 1)%nat
   ++ replicate (n - N mod n) (N / n)%nat) !! i
  = Some (N / n + (if decide (i < N mod n)%nat then 1 else 0))%nat.
Proof.
  intros Hi. case_decide as Hlt.
  - rewrite lookup_app_l by (rewrite length_replicate; lia).
    by apply lookup_replicate_2.
  - rewrite lookup_app_r by (rewrite length_replicate; lia).
    rewrite length_replicate, Nat.add_0_r.
    apply lookup_replicate_2. pose proof (Nat.mod_upper_bound N n). lia.
Qed.

Lemma array_split_split_by l (n : nat) :
  n <> 0%nat ->
  array_split l n =
  Some (split_by (replicate (length l mod n) (length l / n + 1)%nat
                  ++ replicate (n - length l mod n) (length l / n)%nat) l).
Proof.
  intros Hn. unfold array_split. destruct n as [|n]; [done|].
  f_equal. unfold cumsum, section_sizes.
  set (sizes := replicate _ _ ++ replicate _ _).
  assert (Hlen : length sizes = S n).
  { unfold sizes. rewrite length_app, !length_replicate.
    pose proof (Nat.mod_upper_bound (length l) (S n)). lia. }
  change ([0%nat] ++ sizes) with (0%nat :: sizes).
  change (cumsum_from 0 (0%nat :: sizes)) with (0%nat :: cumsum_from 0 sizes).
  rewrite <- Hlen. rewrite slices_split_by. by rewrite drop_0.
Qed.

(** Joining the sub-arrays gives the array back. *)
Lemma array_split_concat l (n : nat) chunks :
  array_split l n = Some chunks -> concat chunks = l.
Proof.
  destruct (decide (n = 0%nat)) as [->|Hn]; [done|].
  rewrite array_split_split_by by done. intros [= <-].
  rewrite concat_split_by, section_sizes_sum by done. apply firstn_all.
Qed.

Lemma array_split_length l (n : nat) chunks :
  array_split l n = Some chunks -> length chunks = n.
Proof.
  destruct (decide (n = 0%nat)) as [->|Hn]; [done|].
  rewrite array_split_split_by by done. intros [= <-].
  rewrite length_split_by, length_app, !length_replicate.
  pose proof (Nat.mod_upper_bound (length l) n Hn). lia.
Qed.

Lemma array_split_sizes l (n : nat) chunks i c :
  array_split l n = Some chunks -> chunks !! i = Some c ->
  length c = (length l / n
              + if decide (i < length l mod n)%nat then 1 else 0)%nat.
Proof.
  destruct (decide (n = 0%nat)) as [->|Hn]; [done|].
  intros Hsplit Hc.
  pose proof (array_split_length _ _ _ Hsplit) as Hlen.
  rewrite array_split_split_by in Hsplit by done. injection Hsplit as <-.
  apply split_by_lookup in Hc as Hsz; [|by rewrite section_sizes_sum].
  rewrite section_sizes_lookup in Hsz.
  - by injection Hsz as <-.
  - apply lookup_lt_Some in Hc. lia.
Qed.

End ArraySplit.

(** The two examples of numpy's documentation. *)
Example array_split_8_3 :
  array_split [0; 1; 2; 3; 4; 5; 6; 7] 3
  = Some [[0; 1; 2]; [3; 4; 5]; [6; 7]].
Proof. reflexivity. Qed.

Example array_split_9_4 :
  array_split [0; 1; 2; 3; 4; 5; 6; 7; 8] 4
  = Some [[0; 1; 2]; [3; 4]; [5; 6]; [7; 8]].
Proof. reflexivity. Qed.

(** ** [pd.crosstab] *)
Section CrosstabFacts.
Context {A B : Type} `{Countable A} `{Countable B}.
Implicit Types (t : gmap (A * B) nat) (k : A * B).

Lemma total_empty : total (∅ : gmap (A * B) nat) = 0%nat.
Proof. unfold total. by rewrite map_fold_empty. Qed.

Lemma total_insert_fresh t k (n : nat) :
  t !! k = None -> total (<[k := n]> t) = (n + total t)%nat.
Proof.
  intros Hk. unfold total.
  rewrite map_fold_insert_L; [done| |done].
  intros; lia.
Qed.

(** Counting one more pair adds one to the sum of the cells. *)
Lemma total_count_pair t k : total (count_pair t k) = S (total t).
Proof.
  unfold count_pair. destruct (t !! k) as [n|] eqn:Hk; simpl.
  - rewrite <- (insert_delete_id t k n Hk) at 2.
    rewrite <- (insert_delete_eq t k (S n)).
    rewrite !total_insert_fresh by apply lookup_delete_eq. lia.
  - by rewrite total_insert_fresh.
Qed.

(** Counting one more pair touches its own cell only. *)
Lemma cell_count_pair t k a p :
  cell (count_pair t k) a p
  = (cell t a p + if decide (k = (a, p)) then 1 else 0)%nat.
Proof.
  unfold cell, count_pair. case_decide as E.
  - subst k. rewrite lookup_insert_eq. simpl. lia.
  - rewrite lookup_insert_ne by done. lia.
Qed.

Lemma total_foldl (l : list (A * B)) : forall t,
  total (foldl count_pair t l) = (total t + length l)%nat.
Proof.
  induction l as [|k l IH]; intros t; simpl; [lia|].
  rewrite IH, total_count_pair. lia.
Qed.

Lemma cell_foldl (l : list (A * B)) a p : forall t,
  cell (foldl count_pair t l) a p
  = (cell t a p + length (filter (fun k => k = (a, p)) l))%nat.
Proof.
  induction l as [|k l IH]; intros t; simpl; [lia|].
  rewrite IH, cell_count_pair, filter_cons.
  case_decide; simpl; lia.
Qed.

End CrosstabFacts.

Lemma filter_ext_elem {K : Type} (P Q : K -> Prop)
    `{forall x, Decision (P x)} `{forall x, Decision (Q x)} (l : list K) :
  (forall x, x ∈ l -> (P x <-> Q x)) -> filter P l = filter Q l.
Proof.
  induction l as [|x l IH]; intros HPQ; [reflexivity|].
  rewrite !filter_cons.
  rewrite IH by (intros y Hy; apply HPQ; by right).
  pose proof (HPQ x ltac:(by left)) as Hx.
  repeat case_decide; tauto.
Qed.

(** The positions holding [k] are as many as the occurrences of [k]. *)
Lemma count_positions {K : Type} `{EqDecision K} (l : list K) (k : K) :
  length (filter (fun i => l !! i = Some k) (seq 0 (length l)))
  = length (filter (fun x => x = k) l).
Proof.
  induction l as [|x l IH] using rev_ind; [reflexivity|].
  replace (length (l ++ [x])) with (S (length l))
    by (rewrite length_app; simpl; lia).
  rewrite seq_S, !filter_app, !length_app. simpl.
  f_equal.
  - rewrite <- IH. f_equal. apply filter_ext_elem.
    intros i Hi. apply elem_of_seq in Hi.
    rewrite lookup_app_l by lia. done.
  - rewrite !filter_cons, !filter_nil.
    rewrite list_lookup_middle by done.
    repeat case_decide; try done; congruence.
Qed.

Lemma zip_positions {A B : Type} `{EqDecision A} `{EqDecision B}
    (index : list A) (columns : list B) (a : A) (p : B) :
  length index = length columns ->
  length (filter (fun ip => ip = (a, p)) (zip index columns))
  = length (filter (fun i => index !! i = Some a /\ columns !! i = Some p)
                   (seq 0 (length index))).
Proof.
  intros Hlen. rewrite <- (count_positions (zip index columns)).
  rewrite length_zip_with, <- Hlen, Nat.min_id.
  f_equal. apply list_filter_iff. intros i.
  rewrite lookup_zip_with_Some. split.
  - intros (x & y & [= -> ->] & Hx & Hy). done.
  - intros [Hx Hy]. eauto.
Qed.

(** Positions and elements: a property of positions that holds exactly
    where the element has [P] holds at as many positions as elements have
    [P]. *)
Lemma positions_filter {K : Type} (P : K -> Prop) (Q : nat -> Prop)
    `{forall x, Decision (P x)} `{forall i, Decision (Q i)} (l : list K) :
  (forall i x, l !! i = Some x -> (Q i <-> P x)) ->
  length (filter Q (seq 0 (length l))) = length (filter P l).
Proof.
  induction l as [|x l IH] using rev_ind; intros HPQ; [reflexivity|].
  replace (length (l ++ [x])) with (S (length l))
    by (rewrite length_app; simpl; lia).
  rewrite seq_S, !filter_app, !length_app. simpl. f_equal.
  - apply IH. intros i y Hy. apply HPQ.
    rewrite lookup_app_l; [done|]. by apply lookup_lt_Some in Hy.
  - rewrite !filter_cons, !filter_nil.
    pose proof (HPQ (length l) x (list_lookup_middle l [] x _ eq_refl)).
    repeat case_decide; try done; tauto.
Qed.

Lemma filter_True_length {K : Type} (l : list K) :
  length (filter (fun _ => True) l) = length l.
Proof.
  induction l as [|x l IH]; [done|].
  rewrite filter_cons_True by done. simpl. by rewrite IH.
Qed.

Lemma positions_omap {K : Type} (P : K -> Prop) (Q : nat -> Prop)
    `{forall x, Decision (P x)} `{forall i, Decision (Q i)}
    (l : list (option K)) :
  (forall i o, l !! i = Some o -> (Q i <-> exists x, o = Some x /\ P x)) ->
  length (filter Q (seq 0 (length l))) = length (filter P (omap id l)).
Proof.
  induction l as [|o l IH] using rev_ind; intros HPQ; [reflexivity|].
  replace (length (l ++ [o])) with (S (length l))
    by (rewrite length_app; simpl; lia).
  rewrite seq_S, omap_app, !filter_app, !length_app. simpl. f_equal.
  - apply IH. intros i y Hy. apply HPQ.
    rewrite lookup_app_l; [done|]. by apply lookup_lt_Some in Hy.
  - pose proof (HPQ (length l) o (list_lookup_middle l [] o _ eq_refl)) as Ho.
    destruct o as [x|].
    + change (omap id [Some x]) with [x].
      rewrite !filter_cons, !filter_nil.
      assert (Hx : Q (length l) <-> P x).
      { rewrite Ho. split; [by intros (x0 & [= <-] & HP)|eauto]. }
      repeat case_decide; try done; tauto.
    + change (omap id [@None K]) with (@nil K).
      rewrite filter_cons, !filter_nil.
      assert (Hx : ~ Q (length l)) by (rewrite Ho; by intros (x0 & [=] & _)).
      case_decide; done.
Qed.

Section CrosstabKeys.
Context {A B : Type} `{Countable A} `{Countable B} `{Label A} `{Label B}.

Lemma sample_key_Some (a : A) (b : B) (ka : A) (kb : B) :
  sample_key a b = Some (ka, kb)
  <-> label_key a = Some ka /\ label_key b = Some kb.
Proof.
  unfold sample_key.
  destruct (label_key a) as [x|], (label_key b) as [y|]; cbn;
    split; try (intros [= -> ->]; done); try (intros [[=] [=]]; done);
    try (intros [[= ->] [= ->]]; done).
Qed.

(** The samples that enter a table under [P], counted by position. *)
Lemma retained_positions (P : A * B -> Prop) (Q : nat -> Prop)
    `{forall k, Decision (P k)} `{forall i, Decision (Q i)}
    (index : list A) (columns : list B) :
  length index = length columns ->
  (forall i, Q i <-> exists ka kb,
                index !! i ≫= label_key = Some ka
                /\ columns !! i ≫= label_key = Some kb
                /\ P (ka, kb)) ->
  length (filter P (retained index columns))
  = length (filter Q (seq 0 (length index))).
Proof.
  intros Hlen HQ. unfold retained.
  replace (length index)
    with (length (zip_with sample_key index columns))
    by (rewrite length_zip_with; lia).
  symmetry. apply positions_omap. intros i o Ho.
  apply lookup_zip_with_Some in Ho as (a & b & -> & Ha & Hb).
  rewrite HQ, Ha, Hb. cbn. split.
  - intros (ka & kb & Hka & Hkb & HP). exists (ka, kb). split; [|done].
    by apply sample_key_Some.
  - intros ([ka kb] & Hk & HP). apply sample_key_Some in Hk as [? ?].
    by exists ka, kb.
Qed.

(** The table of two arrays: its total and its cells, by position. *)
Lemma crosstab_Some (index : list A) (columns : list B) t :
  crosstab index columns = Some t ->
  length index = length columns
  /\ total t = length (retained index columns)
  /\ (forall a p,
       cell t a p
       = length (filter (fun k => k = (a, p)) (retained index columns)))
  /\ total t
     = length (filter (fun i => is_Some (index !! i ≫= label_key)
                                /\ is_Some (columns !! i ≫= label_key))
                      (seq 0 (length index)))
  /\ forall a p,
       cell t a p
       = length (filter (fun i => index !! i ≫= label_key = Some a
                                  /\ columns !! i ≫= label_key = Some p)
                        (seq 0 (length index))).
Proof.
  unfold crosstab. case_decide as Hl; [|done]. intros [= <-].
  assert (Htot : total (foldl count_pair ∅ (retained index columns))
                 = length (retained index columns))
    by (by rewrite total_foldl, total_empty).
  assert (Hcell : forall a p,
             cell (foldl count_pair ∅ (retained index columns)) a p
             = length (filter (fun k => k = (a, p))
                              (retained index columns))).
  { intros a p. rewrite cell_foldl. unfold cell. by rewrite lookup_empty. }
  split; [done|]. split; [done|]. split; [done|]. split.
  - rewrite Htot.
    rewrite <- (filter_True_length (retained index columns)).
    apply (retained_positions (fun _ => True)); [done|].
    intros i. unfold is_Some. split.
    + intros [[ka Ha] [kb Hb]]. by exists ka, kb.
    + intros (ka & kb & Ha & Hb & _). eauto.
  - intros a p. rewrite Hcell.
    apply (retained_positions (fun k => k = (a, p))); [done|].
    intros i. split.
    + intros [Ha Hb]. by exists a, p.
    + intros (ka & kb & Ha & Hb & [= -> ->]). done.
Qed.

Lemma crosstab_is_Some (index : list A) (columns : list B) :
  length index = length columns -> is_Some (crosstab index columns).
Proof. intros Hl. unfold crosstab. by rewrite decide_True. Qed.

Lemma retained_app (i1 i2 : list A) (c1 c2 : list B) :
  length i1 = length c1 ->
  retained (i1 ++ i2) (c1 ++ c2) = retained i1 c1 ++ retained i2 c2.
Proof.
  intros Hl. unfold retained. by rewrite zip_with_app, omap_app.
Qed.

End CrosstabKeys.

(** ** Floats as labels *)

Lemma odd_part_spec (m : positive) :
  let '(q, k) := odd_part m in
  0 <= k /\ Zpos m = Zpos q * 2 ^ k /\ Z.odd (Zpos q) = true.
Proof.
  induction m as [m _|m IH|]; cbn [odd_part].
  - split; [done|]. split; [lia|done].
  - destruct (odd_part m) as [q k]. destruct IH as (Hk & Hm & Hq).
    split; [lia|]. split; [|done].
    rewrite Z.pow_add_r by lia. rewrite Pos2Z.inj_xO, Hm.
    change (2 ^ 1) with 2. lia.
  - split; [done|]. split; [lia|done].
Qed.

(** A key is a number of the same value. *)
Lemma float_key_value (x k : spec_float) :
  float_key x = Some k ->
  is_finite k = is_finite x /\ (to_Q k == to_Q x)%Q.
Proof.
  destruct x as [s|s| |s m e]; cbn [float_key]; try discriminate.
  - by intros [= <-].
  - by intros [= <-].
  - pose proof (odd_part_spec m) as Hm. destruct (odd_part m) as [q j].
    destruct Hm as (Hj & Hm & _). intros [= <-]. split; [done|].
    cbn [to_Q]. rewrite Qpow2_add.
    rewrite <- (Qpow2_inject j) by done.
    rewrite (Qmult_comm (2 ^ e)), Qmult_assoc, <- inject_Z_mult.
    rewrite <- cond_Zopp_mul, <- Hm. reflexivity.
Qed.

Lemma odd_scaled_unique (q1 q2 : positive) (e1 e2 k : Z) :
  k <= e1 -> k <= e2 ->
  Z.odd (Zpos q1) = true -> Z.odd (Zpos q2) = true ->
  Zpos q1 * 2 ^ (e1 - k) = Zpos q2 * 2 ^ (e2 - k) ->
  q1 = q2 /\ e1 = e2.
Proof.
  intros H1 H2 O1 O2 Heq.
  assert (Haux : forall (a b : positive) (d : Z),
             0 < d -> Z.odd (Zpos a) = true -> Zpos a <> Zpos b * 2 ^ d).
  { intros a b d Hd Oa Hab. rewrite Hab in Oa.
    replace d with (1 + (d - 1)) in Oa by lia.
    rewrite Z.pow_add_r in Oa by lia. change (2 ^ 1) with 2 in Oa.
    replace (Zpos b * (2 * 2 ^ (d - 1))) with (0 + 2 * (Zpos b * 2 ^ (d - 1)))
      in Oa by ring.
    rewrite Z.odd_add_mul_2 in Oa. done. }
  destruct (Z.lt_trichotomy e1 e2) as [Hlt|[->|Hgt]].
  - exfalso. apply (Haux q1 q2 (e2 - e1)); [lia|done|].
    replace (e2 - k) with ((e2 - e1) + (e1 - k)) in Heq by lia.
    rewrite Z.pow_add_r, Z.mul_assoc in Heq by lia.
    apply Z.mul_cancel_r in Heq; [done|].
    assert (0 < 2 ^ (e1 - k)) by (apply Z.pow_pos_nonneg; lia). lia.
  - split; [|done]. apply Z.mul_cancel_r in Heq; [congruence|].
    assert (0 < 2 ^ (e2 - k)) by (apply Z.pow_pos_nonneg; lia). lia.
  - exfalso. apply (Haux q2 q1 (e1 - e2)); [lia|done|].
    replace (e1 - k) with ((e1 - e2) + (e2 - k)) in Heq by lia.
    rewrite Z.pow_add_r, Z.mul_assoc in Heq by lia.
    apply Z.mul_cancel_r in Heq; [done|].
    assert (0 < 2 ^ (e2 - k)) by (apply Z.pow_pos_nonneg; lia). lia.
Qed.

(** Numbers proper of one value have one key: as labels, floats are compared
    by value. *)
Lemma float_key_same (x y : spec_float) :
  is_finite x = true -> is_finite y = true ->
  (to_Q x == to_Q y)%Q -> float_key x = float_key y.
Proof.
  intros Hx Hy Heq.
  destruct x as [sx|sx| |sx mx ex]; try discriminate;
    destruct y as [sy|sy| |sy my ey]; try discriminate; cbn [float_key].
  - reflexivity.
  - exfalso. cbn [to_Q] in Heq. symmetry in Heq.
    apply Qmult_integral in Heq as [Heq|Heq].
    + change 0%Q with (inject_Z 0) in Heq. apply inject_Z_injective in Heq.
      by destruct sy.
    + pose proof (Qpow2_pos ey) as Hp. rewrite Heq in Hp. by apply Qlt_irrefl in Hp.
  - exfalso. cbn [to_Q] in Heq.
    apply Qmult_integral in Heq as [Heq|Heq].
    + change 0%Q with (inject_Z 0) in Heq. apply inject_Z_injective in Heq.
      by destruct sx.
    + pose proof (Qpow2_pos ex) as Hp. rewrite Heq in Hp. by apply Qlt_irrefl in Hp.
  - pose proof (odd_part_spec mx) as Hmx. destruct (odd_part mx) as [qx jx].
    pose proof (odd_part_spec my) as Hmy. destruct (odd_part my) as [qy jy].
    destruct Hmx as (Hjx & Hmx & Ox). destruct Hmy as (Hjy & Hmy & Oy).
    set (k := Z.min ex ey).
    rewrite (to_Q_Zvalue k (S754_finite sx mx ex)) in Heq by (cbn; lia).
    rewrite (to_Q_Zvalue k (S754_finite sy my ey)) in Heq by (cbn; lia).
    apply scaled_eq in Heq. cbn [Zvalue] in Heq.
    assert (HX : 0 < Zpos mx * 2 ^ (ex - k)).
    { apply Z.mul_pos_pos; [lia|]. apply Z.pow_pos_nonneg; lia. }
    assert (HY : 0 < Zpos my * 2 ^ (ey - k)).
    { apply Z.mul_pos_pos; [lia|]. apply Z.pow_pos_nonneg; lia. }
    assert (sx = sy) as ->
      by (destruct sx, sy; cbn [cond_Zopp] in Heq; try done; lia).
    assert (Heq' : Zpos mx * 2 ^ (ex - k) = Zpos my * 2 ^ (ey - k))
      by (destruct sy; cbn [cond_Zopp] in Heq; lia).
    rewrite Hmx, Hmy in Heq'.
    rewrite <- !Z.mul_assoc, <- !Z.pow_add_r in Heq' by lia.
    replace (jx + (ex - k)) with ((ex + jx) - k) in Heq' by lia.
    replace (jy + (ey - k)) with ((ey + jy) - k) in Heq' by lia.
    destruct (odd_scaled_unique qx qy (ex + jx) (ey + jy) k
                ltac:(lia) ltac:(lia) Ox Oy Heq') as [-> ->].
    reflexivity.
Qed.

(** ** [np.array] *)

Lemma np_shape_numbers (l : list pyval) :
  forallb np_is_number l = true -> np_shape (PyList l) = Some [length l].
Proof.
  intros Hl.
  assert (Hs : map np_shape l = replicate (length l) (Some [])).
  { induction l as [|v l IH]; [done|]. cbn [forallb] in Hl.
    apply andb_prop in Hl as [Hv Hl]. cbn [map length replicate].
    f_equal; [by destruct v|by apply IH]. }
  cbn [np_shape]. rewrite Hs. destruct l as [|v l]; [done|].
  cbn [length replicate].
  assert (Hall : forallb (fun s' : option (list nat) =>
                            bool_decide (s' = Some []))
                         (replicate (length l) (Some [])) = true).
  { clear. induction (length l) as [|n IH]; [done|]. cbn [replicate forallb].
    by rewrite bool_decide_eq_true_2, IH. }
  by rewrite Hall.
Qed.

(** A flat list of numbers becomes the array of its elements, each converted
    to the dtype of the list. *)
Lemma np_array_py_numbers rest (l : list pyval) :
  forallb np_is_number l = true ->
  np_array_py rest l = Ok (map (np_common_cast l) l).
Proof.
  intros Hl. unfold np_array_py. by rewrite (np_shape_numbers l Hl), Hl.
Qed.

(** A list of floats is the float64 array of these floats. *)
Lemma np_array_py_floats rest (l : list pyval) :
  Forall (fun v => np_is_float v = true) l -> np_array_py rest l = Ok l.
Proof.
  intros Hl.
  assert (Hn : forallb np_is_number l = true).
  { induction Hl as [|v l Hv _ IH]; [done|]. cbn [forallb].
    rewrite IH, andb_true_r. by destruct v. }
  rewrite (np_array_py_numbers rest l Hn). f_equal.
  unfold np_common_cast.
  destruct (forallb np_is_bool l); [apply map_id|].
  destruct (existsb np_is_float l).
  - rewrite <- (map_id l) at 2. apply map_ext_Forall.
    eapply Forall_impl; [exact Hl|]. by intros [].
  - rewrite <- (map_id l) at 2. apply map_ext_Forall.
    eapply Forall_impl; [exact Hl|]. by intros [].
Qed.

(** Integers next to a float become floats; labels of different shapes are
    refused. *)
Example np_array_mixed rest :
  np_array_py rest [PyInt 1; PyFloat F64.zero; PyInt 1]
  = Ok [PyFloat F64.one; PyFloat F64.zero; PyFloat F64.one].
Proof. reflexivity. Qed.

Example np_array_inhomogeneous rest :
  np_array_py rest [PyList [PyInt 1; PyInt 0]; PyInt 1] = Raise ValueError.
Proof. reflexivity. Qed.

Example np_array_bools rest :
  np_array_py rest [PyBool true; PyInt 2] = Ok [PyInt 1; PyInt 2].
Proof. reflexivity. Qed.

(** ** The serializer and the label extraction *)

Lemma serializer_loop (data : matrix) : forall acc,
  foldl (fun js r => instances_append js (features_item r))
        [("instances"%string, PyList acc)] data
  = [("instances"%string, PyList (acc ++ map features_item data))].
Proof.
  induction data as [|r data IH]; intros acc; simpl.
  - by rewrite app_nil_r.
  - rewrite IH, <- app_assoc. reflexivity.
Qed.

Lemma result_mapM_Forall2 {A B : Type} (f : A -> result B)
    (l : list A) (ys : list B) :
  Forall2 (fun x y => f x = Ok y) l ys -> result_mapM f l = Ok ys.
Proof.
  induction 1 as [|x y l ys Hx _ IH]; simpl; [done|].
  by rewrite Hx, IH.
Qed.

Lemma predicted_labels_per_row (f : row -> pyval) (data : matrix) :
  predicted_labels (per_row_response f data) = Ok (map f data).
Proof.
  unfold predicted_labels, per_row_response. simpl.
  change (result_mapM (fun r => py_getitem r "predicted_label")
            (map (fun r => PyDict [("predicted_label"%string, f r)]) data)
          = Ok (map f data)).
  apply result_mapM_Forall2.
  induction data as [|r data IH]; simpl; constructor; [reflexivity|exact IH].
Qed.

(** ** Strings *)

Lemma append_nil_r (s : string) : String.append s EmptyString = s.
Proof.
  induction s as [|c s IH]; [done|].
  change (String c (String.append s EmptyString) = String c s). by rewrite IH.
Qed.

Lemma append_assoc (a b c : string) :
  String.append (String.append a b) c = String.append a (String.append b c).
Proof.
  induction a as [|x a IH]; [done|].
  change (String x (String.append (String.append a b) c)
          = String x (String.append a (String.append b c))).
  by rewrite IH.
Qed.

Lemma format_train_locator (c : config) :
  py_format "s3://{}/{}/train/{}" [bucket c; prefix c; key c]
  = Some (train_locator c).
Proof. unfold train_locator. cbn. rewrite append_nil_r. reflexivity. Qed.

Lemma endswith_sep_append (a b : string) :
  b <> EmptyString -> endswith_sep (String.append a b) = endswith_sep b.
Proof.
  intros Hb. induction a as [|x a IH]; [done|].
  change (endswith_sep (String x (String.append a b)) = endswith_sep b).
  cbn [endswith_sep]. destruct (String.append a b) eqn:E; [|done].
  destruct a, b; cbv in E; congruence.
Qed.

(** With a prefix that is not empty and does not end in a slash, and a key
    that does not start with one, joining just puts slashes in between. *)
Lemma os_path_join_plain (pre k : string) :
  pre <> EmptyString -> endswith_sep pre = false -> startswith_sep k = false ->
  os_path_join pre ["train"%string; k]
  = String.append pre (String.append "/train/" k).
Proof.
  intros Hne Hend Hk. unfold os_path_join. simpl.
  unfold join_step at 2. simpl.
  apply String.eqb_neq in Hne. rewrite Hne, Hend. simpl.
  unfold join_step. rewrite Hk.
  rewrite endswith_sep_append by done. simpl.
  destruct (String.eqb_spec (String.append pre "/train") EmptyString) as [E|_].
  - destruct pre; [done|]. cbv in E. congruence.
  - simpl. rewrite append_assoc. reflexivity.
Qed.

(** The locator and the object key of the script's own configuration. *)
Example script_locator :
  train_locator script_config
  = "s3://localide/sagemaker/DEMO-1/train/recordio-pb-data"%string.
Proof. reflexivity. Qed.

Example script_object_key :
  os_path_join (prefix script_config) ["train"%string; key script_config]
  = "sagemaker/DEMO-1/train/recordio-pb-data"%string.
Proof. reflexivity. Qed.

(** ** Runs of the script *)
Section Monad.
Context {A B : Type}.

Lemma bind_run (m : M A) (k : A -> M B) en tr :
  (m ≫= k) en tr =
  match m en tr with
  | (tr', Ok a) => k a en tr'
  | (tr', Raise e) => (tr', Raise e)
  end.
Proof. reflexivity. Qed.

Lemma bind_Ok (m : M A) (k : A -> M B) en tr tr' b :
  (m ≫= k) en tr = (tr', Ok b) ->
  exists tr1 a, m en tr = (tr1, Ok a) /\ k a en tr1 = (tr', Ok b).
Proof.
  rewrite bind_run. destruct (m en tr) as [tr1 [a|e]]; [eauto|discriminate].
Qed.

Lemma emits_run P (m : M A) en tr tr' r :
  emits P m -> m en tr = (tr', r) ->
  exists added, tr' = tr ++ added /\ Forall P added.
Proof.
  intros Hm E. destruct (Hm en tr) as (added & E' & HP).
  rewrite E in E'. eauto.
Qed.

Lemma emits_bind_returns P (Q : A -> Prop) (m : M A) (k : A -> M B) :
  returns Q m -> emits P m -> (forall a, Q a -> emits P (k a)) ->
  emits P (m ≫= k).
Proof.
  intros HQ Hm Hk en tr. rewrite bind_run.
  destruct (Hm en tr) as (added & E & HP).
  destruct (m en tr) as [tr1 [a|e]] eqn:Em; simpl in E; subst tr1.
  - destruct (Hk a (HQ _ _ _ _ Em) en (tr ++ added)) as (added' & E' & HP').
    exists (added ++ added'). rewrite E', app_assoc. split; [done|].
    by apply Forall_app.
  - by exists added.
Qed.

Lemma emits_bind P (m : M A) (k : A -> M B) :
  emits P m -> (forall a, emits P (k a)) -> emits P (m ≫= k).
Proof.
  intros Hm Hk. apply (emits_bind_returns P (fun _ => True)); [done|done|auto].
Qed.

Lemma emits_mret P (a : A) : emits P (mret a : M A).
Proof. intros en tr. exists []. by rewrite app_nil_r. Qed.

Lemma emits_lift P (r : result A) : emits P (lift r).
Proof. intros en tr. exists []. by rewrite app_nil_r. Qed.

Lemma emits_lift_opt P e (o : option A) : emits P (lift_opt e o).
Proof. apply emits_lift. Qed.

End Monad.

Lemma call_run e en tr : call e en tr = (tr ++ [e], world en tr e).
Proof. reflexivity. Qed.

Lemma emits_call P e : P e -> emits P (call e).
Proof. intros He en tr. exists [e]. split; [done|]. by constructor. Qed.

Lemma emits_log P e : P e -> emits P (log e).
Proof. intros He en tr. exists [e]. split; [done|]. by constructor. Qed.

Lemma emits_ask_np_array P : emits P ask_np_array.
Proof. intros en tr. exists []. by rewrite app_nil_r. Qed.

Lemma emits_ask_dumps P : emits P ask_dumps.
Proof. intros en tr. exists []. by rewrite app_nil_r. Qed.

Create HintDb emits.
#[local] Hint Resolve emits_mret emits_lift emits_lift_opt emits_call
  emits_log emits_ask_dumps emits_ask_np_array : emits.
#[local] Hint Extern 1 (quiet _) => reflexivity : emits.
#[local] Hint Extern 1 (locator_ok _ _) =>
  first [exact I | reflexivity | split; reflexivity] : emits.

Ltac emits_steps :=
  repeat first
    [ apply emits_bind; [|intros ?]
    | progress (eauto with emits)
    | match goal with |- emits _ (let '(_, _) := ?x in _) => destruct x end ].

(** Inversion of a run that returned. *)
Ltac invert_ok H :=
  repeat match type of H with
  | (_ ≫= _) _ _ = (_, Ok _) =>
    let tr1 := fresh "tr" in let a := fresh "a" in let E := fresh "E" in
    apply bind_Ok in H as (tr1 & a & E & H)
  end.

Lemma upload_returns_locator c train_set :
  returns (fun l => l = train_locator c) (upload_training_data c train_set).
Proof.
  intros en tr tr' l E. unfold upload_training_data in E.
  rewrite format_train_locator in E. invert_ok E.
  unfold lift_opt, lift in E3. injection E3 as _ <-.
  unfold mret, M_ret in E. by injection E as _ <-.
Qed.

Section Plain.
Variable P : event -> Prop.
Hypothesis plain_P : forall e, plain e -> P e.

#[local] Hint Extern 1 (P _) => (apply plain_P; exact I) : emits.

Lemma load_dataset_emits : emits P load_dataset.
Proof. unfold load_dataset. emits_steps. Qed.

Lemma show_sample_emits train_set : emits P (show_sample train_set).
Proof. unfold show_sample. emits_steps. Qed.

Lemma deploy_emits fm : emits P (deploy fm).
Proof. unfold deploy. emits_steps. Qed.

Lemma predict_emits p data : emits P (predict p data).
Proof. unfold predict. emits_steps. Qed.

Lemma predict_chunks_emits p chunks : forall acc,
  emits P (predict_chunks p chunks acc).
Proof.
  induction chunks as [|array rest IH]; intros acc; simpl.
  - apply emits_mret.
  - apply emits_bind; [apply predict_emits|intros res].
    apply emits_bind; [apply emits_lift|intros lbls]. apply IH.
Qed.

Lemma collect_predictions_emits p test :
  emits P (collect_predictions p test).
Proof.
  unfold collect_predictions.
  apply emits_bind; [apply emits_lift_opt|intros chunks].
  apply emits_bind; [apply predict_chunks_emits|intros preds].
  apply emits_bind; [apply emits_ask_np_array|intros np_array].
  apply emits_lift.
Qed.

Lemma evaluate_emits p train_set test_set :
  emits P (evaluate p train_set test_set).
Proof.
  unfold evaluate.
  apply emits_bind; [apply predict_emits|intros res].
  apply emits_bind; [auto with emits|intros _].
  apply emits_bind; [apply collect_predictions_emits|intros preds].
  apply emits_bind; [auto with emits|intros _].
  apply emits_mret.
Qed.

Lemma use_endpoint_emits p train_set test_set :
  emits P (use_endpoint p train_set test_set).
Proof.
  unfold use_endpoint.
  apply emits_bind; [apply evaluate_emits|intros t].
  apply emits_bind; [auto with emits|intros _].
  apply emits_mret.
Qed.

(** The provisioning phase, given what its two remaining steps emit. *)
Lemma provision_emits c :
  (forall train_set, emits P (upload_training_data c train_set)) ->
  emits P (train c (train_locator c)) ->
  emits P (provision c).
Proof.
  intros Hup Htrain. unfold provision.
  apply emits_bind; [apply load_dataset_emits|].
  intros [[train_set valid_set] test_set].
  apply emits_bind; [apply show_sample_emits|intros _].
  apply (emits_bind_returns P (fun l => l = train_locator c));
    [apply upload_returns_locator|apply Hup|intros loc ->].
  apply emits_bind; [apply Htrain|intros fm].
  apply emits_bind; [apply deploy_emits|intros p].
  apply emits_mret.
Qed.

End Plain.

Lemma plain_quiet e : plain e -> quiet e.
Proof. by destruct e. Qed.

Lemma plain_locator_ok c e : plain e -> locator_ok c e.
Proof. by destruct e. Qed.

Lemma upload_quiet c train_set : emits quiet (upload_training_data c train_set).
Proof. unfold upload_training_data. emits_steps. Qed.

Lemma train_quiet c loc : emits quiet (train c loc).
Proof. unfold train. emits_steps. Qed.

Lemma upload_locator_ok c train_set :
  emits (locator_ok c) (upload_training_data c train_set).
Proof. unfold upload_training_data. emits_steps. Qed.

Lemma train_locator_ok c : emits (locator_ok c) (train c (train_locator c)).
Proof. unfold train. emits_steps. Qed.

Lemma provision_quiet c : emits quiet (provision c).
Proof.
  apply provision_emits; [apply plain_quiet| |apply train_quiet].
  intros train_set. apply upload_quiet.
Qed.

Lemma use_endpoint_quiet p train_set test_set :
  emits quiet (use_endpoint p train_set test_set).
Proof. apply use_endpoint_emits, plain_quiet. Qed.

Lemma script_locator_ok c : emits (locator_ok c) (script c).
Proof.
  unfold script.
  apply emits_bind.
  { apply provision_emits; [apply plain_locator_ok| |apply train_locator_ok].
    intros train_set. apply upload_locator_ok. }
  intros [[train_set test_set] p].
  apply emits_bind; [apply use_endpoint_emits, plain_locator_ok|intros _].
  unfold delete_endpoint. emits_steps.
Qed.

Lemma deletions_app tr1 tr2 :
  deletions (tr1 ++ tr2) = (deletions tr1 + deletions tr2)%nat.
Proof. unfold deletions. by rewrite filter_app, length_app. Qed.

Lemma deletions_quiet tr : Forall quiet tr -> deletions tr = 0%nat.
Proof.
  unfold deletions. induction 1 as [|e tr He _ IH]; [done|].
  rewrite filter_cons. unfold quiet in He. rewrite He. exact IH.
Qed.

(** ** More on runs *)

Lemma lookup_map {A B : Type} (f : A -> B) (l : list A) (i : nat) :
  map f l !! i = f <$> l !! i.
Proof. exact (list_lookup_fmap f l i). Qed.

(** A computation that starts with a call records that call first. *)
Lemma call_first {B : Type} P e (k : reply -> M B) en tr :
  (forall r, emits P (k r)) ->
  exists rest, fst ((call e ≫= k) en tr) = tr ++ e :: rest.
Proof.
  intros Hk. rewrite bind_run, call_run.
  destruct (world en tr e) as [r|x]; [|by exists []].
  destruct (Hk r en (tr ++ [e])) as (rest & -> & _).
  exists rest. by rewrite <- app_assoc.
Qed.

(** Inversion of the primitive steps. *)
Lemma call_Ok en e tr tr' r :
  call e en tr = (tr', Ok r) -> tr' = tr ++ [e] /\ world en tr e = Ok r.
Proof. unfold call. by intros [= <- ->]. Qed.

Lemma log_Ok en e tr tr' u : log e en tr = (tr', Ok u) -> tr' = tr ++ [e].
Proof. unfold log. by intros [= <-]. Qed.

Lemma lift_Ok {A : Type} en (r : result A) tr tr' a :
  lift r en tr = (tr', Ok a) -> tr' = tr /\ r = Ok a.
Proof. unfold lift. by intros [= <- ->]. Qed.

Lemma mret_Ok {A : Type} en (a b : A) tr tr' :
  (mret a : M A) en tr = (tr', Ok b) -> tr' = tr /\ a = b.
Proof. unfold mret, M_ret. by intros [= <- ->]. Qed.

Lemma ask_dumps_Ok en tr tr' d :
  ask_dumps en tr = (tr', Ok d) -> tr' = tr /\ d = json_dumps en.
Proof. unfold ask_dumps. by intros [= <- <-]. Qed.

(** Inversion of the primitive steps left by [invert_ok]. *)
Lemma ask_np_array_Ok en tr tr' f :
  ask_np_array en tr = (tr', Ok f) ->
  tr' = tr /\ f = np_array_py (np_array_rest en).
Proof. unfold ask_np_array. by intros [= <- <-]. Qed.

Ltac invert_steps :=
  repeat match goal with
  | H : call _ ?en _ = (_, Ok _) |- _ =>
    apply (call_Ok en) in H; destruct H as [-> H]
  | H : log _ ?en _ = (_, Ok _) |- _ => apply (log_Ok en) in H; subst
  | H : lift_opt _ _ ?en _ = (_, Ok _) |- _ =>
    apply (lift_Ok en) in H; destruct H as [-> H]
  | H : lift _ ?en _ = (_, Ok _) |- _ =>
    apply (lift_Ok en) in H; destruct H as [-> H]
  | H : ask_dumps ?en _ = (_, Ok _) |- _ =>
    apply (ask_dumps_Ok en) in H; destruct H as [-> ->]
  | H : ask_np_array ?en _ = (_, Ok _) |- _ =>
    apply (ask_np_array_Ok en) in H; destruct H as [-> ->]
  | H : mret _ ?en _ = (_, Ok _) |- _ =>
    apply (mret_Ok en) in H; destruct H as [-> H]; subst
  end.

(** A run never forgets an event. *)
Lemma run_extends {A : Type} P (m : M A) en tr tr' r e :
  emits P m -> m en tr = (tr', r) -> e ∈ tr -> e ∈ tr'.
Proof.
  intros Hm E He. destruct (emits_run P m en tr tr' r Hm E) as (added & -> & _).
  set_solver.
Qed.

(** A computation that emits no teardown leaves the count of teardowns as it
    was. *)
Lemma quiet_run {A : Type} (m : M A) en tr tr' r :
  emits quiet m -> m en tr = (tr', r) -> deletions tr' = deletions tr.
Proof.
  intros Hm E. destruct (emits_run quiet m en tr tr' r Hm E) as (added & -> & Hq).
  rewrite deletions_app, (deletions_quiet added Hq). lia.
Qed.

Lemma bind_Raise {A B : Type} (m : M A) (k : A -> M B) en tr tr' e :
  (m ≫= k) en tr = (tr', Raise e) ->
  m en tr = (tr', Raise e)
  \/ exists tr1 a, m en tr = (tr1, Ok a) /\ k a en tr1 = (tr', Raise e).
Proof.
  rewrite bind_run. destruct (m en tr) as [tr1 [a|e']]; [eauto|].
  intros [= -> ->]. by left.
Qed.

(** What a phase that returned has put on the trace. *)
Lemma upload_Ok_event c train_set en tr tr' loc :
  upload_training_data c train_set en tr = (tr', Ok loc) ->
  exists buf,
    EvUpload (bucket c) (os_path_join (prefix c) ["train"%string; key c]) buf
      ∈ tr'.
Proof.
  intros E. unfold upload_training_data in E. invert_ok E. invert_steps.
  eexists. apply elem_of_app. left. apply elem_of_app. right. constructor.
Qed.

Lemma train_Ok_event c loc en tr tr' fm :
  train c loc en tr = (tr', Ok fm) ->
  EvFit fm {["train"%string := loc]} ∈ tr'.
Proof.
  intros E. unfold train in E. invert_ok E. invert_steps.
  apply elem_of_app. right. constructor.
Qed.

Lemma deploy_Ok_event fm en tr tr' p :
  deploy fm en tr = (tr', Ok p) -> EvDeploy fm 1 "ml.m4.xlarge" ∈ tr'.
Proof.
  intros E. unfold deploy in E. invert_ok E. invert_steps.
  apply elem_of_app. right. constructor.
Qed.

Lemma provision_Ok_events c en tr x :
  provision c en [] = (tr, Ok x) ->
  exists buf fm,
    EvUpload (bucket c) (os_path_join (prefix c) ["train"%string; key c]) buf
      ∈ tr
    /\ EvFit fm {["train"%string := train_locator c]} ∈ tr.
Proof.
  intros Hp. unfold provision in Hp.
  apply bind_Ok in Hp as (tr1 & [[train_set valid_set] test_set] & _ & Hp).
  apply bind_Ok in Hp as (tr2 & [] & _ & Hp).
  apply bind_Ok in Hp as (tr3 & loc & Hup & Hp).
  apply bind_Ok in Hp as (tr4 & fm & Htrain & Hp).
  apply bind_Ok in Hp as (tr5 & p & Hdep & Hp).
  apply (mret_Ok en) in Hp as [-> _].
  pose proof (upload_returns_locator _ _ _ _ _ _ Hup) as ->.
  destruct (upload_Ok_event _ _ _ _ _ _ Hup) as [buf Hbuf].
  exists buf, fm. split.
  - eapply (run_extends quiet); [apply deploy_emits, plain_quiet|exact Hdep|].
    eapply (run_extends quiet); [apply train_quiet|exact Htrain|exact Hbuf].
  - eapply (run_extends quiet); [apply deploy_emits, plain_quiet|exact Hdep|].
    exact (train_Ok_event _ _ _ _ _ _ Htrain).
Qed.

Lemma provision_Ok_deployed c en tr x :
  provision c en [] = (tr, Ok x) ->
  exists fm, EvDeploy fm 1 "ml.m4.xlarge" ∈ tr.
Proof.
  intros Hp. unfold provision in Hp.
  apply bind_Ok in Hp as (tr1 & [[train_set valid_set] test_set] & _ & Hp).
  apply bind_Ok in Hp as (tr2 & [] & _ & Hp).
  apply bind_Ok in Hp as (tr3 & loc & _ & Hp).
  apply bind_Ok in Hp as (tr4 & fm & _ & Hp).
  apply bind_Ok in Hp as (tr5 & p & Hdep & Hp).
  apply (mret_Ok en) in Hp as [-> _].
  exists fm. exact (deploy_Ok_event _ _ _ _ _ Hdep).
Qed.

(** An evaluation that returned ended with the cross-tabulation. *)
Lemma evaluate_Ok_crosstab p train_set test_set en tr tr' u :
  evaluate p train_set test_set en tr = (tr', Ok u) ->
  exists pre columns,
    tr' = pre ++ [EvCrosstab (actuals test_set) columns]
    /\ deletions pre = deletions tr.
Proof.
  intros E. unfold evaluate in E.
  apply bind_Ok in E as (tr1 & res & Hpred & E).
  apply bind_Ok in E as (tr2 & [] & Hlog & E).
  apply bind_Ok in E as (tr3 & preds & Hcol & E).
  invert_ok E. invert_steps.
  exists tr3, preds. split; [reflexivity|].
  rewrite (quiet_run _ _ _ _ _
             (collect_predictions_emits quiet plain_quiet _ _) Hcol).
  rewrite deletions_app.
  rewrite (quiet_run _ _ _ _ _ (predict_emits quiet plain_quiet _ _) Hpred).
  unfold deletions at 2. simpl. lia.
Qed.

(** With an endpoint that labels row by row, the loop collects the labels of
    all the rows of all the chunks, in order. *)
Lemma predict_chunks_per_row (f : row -> pyval) (en : env) (p : predictor)
    (chunks : list matrix) :
  Forall (answers_per_row f en p) chunks ->
  forall acc tr, exists tr',
    predict_chunks p chunks acc en tr
    = (tr', Ok (acc ++ map f (concat chunks))).
Proof.
  induction 1 as [|chunk chunks Hc _ IH]; intros acc tr; simpl.
  - exists tr. by rewrite app_nil_r.
  - destruct (Hc tr) as (v & Hv & Hl).
    rewrite bind_run. unfold predict. rewrite bind_run, call_run, Hv.
    change (lift (as_val (RVal v)) en ?t) with (t, Ok v).
    cbv beta iota. rewrite bind_run.
    change (lift (predicted_labels v) en ?t) with (t, predicted_labels v).
    rewrite Hl. cbv beta iota.
    destruct (IH (acc ++ map f chunk)
                 (tr ++ [EvInvoke (endpoint p) (content_type p)
                                  (serializer p chunk)])) as (tr' & ->).
    exists tr'. by rewrite map_app, app_assoc.
Qed.

(** The calls of that loop: one request per chunk, in the order of the
    chunks. *)
Lemma predict_chunks_per_row_calls (f : row -> pyval) (en : env)
    (p : predictor) (chunks : list matrix) :
  Forall (answers_per_row f en p) chunks ->
  forall acc tr,
    predict_chunks p chunks acc en tr
    = (tr ++ map (request p) chunks, Ok (acc ++ map f (concat chunks))).
Proof.
  induction 1 as [|chunk chunks Hc _ IH]; intros acc tr; simpl.
  - by rewrite !app_nil_r.
  - destruct (Hc tr) as (v & Hv & Hl).
    rewrite bind_run. unfold predict. rewrite bind_run, call_run, Hv.
    change (lift (as_val (RVal v)) en ?t) with (t, Ok v).
    cbv beta iota. rewrite bind_run.
    change (lift (predicted_labels v) en ?t) with (t, predicted_labels v).
    rewrite Hl. cbv beta iota.
    rewrite (IH (acc ++ map f chunk)
                (tr ++ [EvInvoke (endpoint p) (content_type p)
                                 (serializer p chunk)])).
    unfold request. by rewrite map_app, !app_assoc, <- !app_assoc.
Qed.

(** An endpoint that answers every request with [per_row_response] labels
    row by row. *)
Lemma per_row_endpoint_answers (f : row -> pyval) (en : env) (p : predictor)
    (chunk : matrix) :
  (forall h,
     world en h (EvInvoke (endpoint p) (content_type p) (serializer p chunk))
     = Ok (RVal (per_row_response f chunk))) ->
  answers_per_row f en p chunk.
Proof.
  intros Hw h. exists (per_row_response f chunk).
  split; [apply Hw|apply predicted_labels_per_row].
Qed.

(** A failing run has called [delete_endpoint] only if that very call is
    what failed. *)
Lemma failing_run_deletions (c : config) (en : env) (tr : list event)
    (e : exn) :
  run c en = (tr, Raise e) ->
  deletions tr = 0%nat
  \/ exists pre name,
       tr = pre ++ [EvDeleteEndpoint name] /\ deletions pre = 0%nat
       /\ world en pre (EvDeleteEndpoint name) = Raise e.
Proof.
  unfold run, script. intros Hrun.
  apply bind_Raise in Hrun as [Hp|(tr1 & [[train_set test_set] p] & Hp & Hrun)].
  { left. by rewrite (quiet_run _ _ _ _ _ (provision_quiet c) Hp). }
  pose proof (quiet_run _ _ _ _ _ (provision_quiet c) Hp) as H1.
  apply bind_Raise in Hrun as [Hu|(tr2 & [] & Hu & Hdel)].
  { left. by rewrite (quiet_run _ _ _ _ _ (use_endpoint_quiet _ _ _) Hu). }
  pose proof (quiet_run _ _ _ _ _ (use_endpoint_quiet _ _ _) Hu) as H2.
  right. exists tr2, (endpoint p).
  unfold delete_endpoint in Hdel. rewrite bind_run, call_run in Hdel.
  destruct (world en tr2 _) as [r|x] eqn:Hw; [discriminate|].
  injection Hdel as <- <-. split; [done|]. split; [|done].
  rewrite H2, H1. reflexivity.
Qed.

(** * The claims *)

(** C1.  Binarization marks exactly the label 0 as positive: the training
    labels of line 37 are the float32 1.0 where the label is 0 and the float32
    0.0 elsewhere, and the ground truth of line 110 is the integer 1 where the
    label is 0 and 0 elsewhere. *)
Theorem binarize_zero_positive (train_set test_set : split) :
  labels train_set
  = map (fun L => if decide (L = 0) then F32.one else F32.zero)
        (split_labels train_set)
  /\ actuals test_set
     = map (fun L => if decide (L = 0) then 1 else 0) (split_labels test_set).
Proof.
  unfold labels, actuals, astype_float32, np_where, np_eq, np_array, tolist.
  rewrite map_id, !map_map. split; apply map_ext; intros L.
  - destruct (Z.eqb_spec L 0); case_decide; done.
  - destruct (Z.eqb_spec L 0); case_decide; done.
Qed.

(** C2.  When the endpoint labels each row it is sent with [f], the loop of
    lines 100-105 splits the test features into 100 consecutive parts, sends
    one request per part in the order of the parts and nothing else, and
    hands to [np.array] the labels [f] of the samples in their original
    order.  For labels that are numbers the array holds, at position [i], the
    label of test sample [i] in the dtype of the array; for float labels it
    holds the labels themselves. *)
Theorem predictions_in_sample_order (f : row -> pyval) (en : env)
    (p : predictor) (test_features : matrix) (chunks : list matrix)
    (tr : list event) :
  array_split test_features 100 = Some chunks ->
  Forall (answers_per_row f en p) chunks ->
  exists tr',
    tr' = tr ++ map (request p) chunks
    /\ length chunks = 100%nat
    /\ concat chunks = test_features
    /\ collect_predictions p test_features en tr
       = (tr', np_array_py (np_array_rest en) (map f test_features))
    /\ (forall i, map f test_features !! i = f <$> test_features !! i)
    /\ (forallb np_is_number (map f test_features) = true ->
        exists predictions,
          collect_predictions p test_features en tr = (tr', Ok predictions)
          /\ length predictions = length test_features
          /\ forall i x,
               test_features !! i = Some x ->
               predictions !! i
               = Some (np_common_cast (map f test_features) (f x)))
    /\ (Forall (fun x => np_is_float (f x) = true) test_features ->
        collect_predictions p test_features en tr
        = (tr', Ok (map f test_features))).
Proof.
  intros Hsplit Hrows.
  pose proof (predict_chunks_per_row_calls f en p chunks Hrows [] tr) as E.
  exists (tr ++ map (request p) chunks).
  assert (Hrun : collect_predictions p test_features en tr
                 = (tr ++ map (request p) chunks,
                    np_array_py (np_array_rest en) (map f test_features))).
  { unfold collect_predictions. rewrite Hsplit.
    change (lift_opt ValueError (Some chunks)) with (lift (Ok chunks)).
    rewrite bind_run. change (lift (Ok chunks) en tr) with (tr, Ok chunks).
    cbv beta iota. rewrite bind_run, E. cbv beta iota.
    rewrite (array_split_concat _ _ _ Hsplit). reflexivity. }
  split; [reflexivity|]. split; [by eapply array_split_length|].
  split; [by eapply array_split_concat|].
  split; [exact Hrun|]. split; [intros i; apply lookup_map|]. split.
  - intros Hnum. rewrite Hrun, (np_array_py_numbers _ _ Hnum).
    eexists. split; [reflexivity|]. split; [by rewrite !length_map|].
    intros i x Hx. by rewrite !lookup_map, Hx.
  - intros Hfl. rewrite Hrun, np_array_py_floats; [done|].
    by apply Forall_map.
Qed.

Lemma predictions_in_sample_order_witness :
  exists tr',
    collect_predictions
      {| endpoint := "factorization-machines-endpoint";
         content_type := "application/json";
         serializer := fm_serializer Fixture.dumps |}
      (split_features Fixture.test_set) Fixture.healthy []
    = (tr', Ok (map Fixture.classify (split_features Fixture.test_set))).
Proof.
  edestruct (predictions_in_sample_order Fixture.classify Fixture.healthy
               {| endpoint := "factorization-machines-endpoint";
                  content_type := "application/json";
                  serializer := fm_serializer Fixture.dumps |}
               (split_features Fixture.test_set) _ [] eq_refl)
    as (tr' & _ & _ & _ & _ & _ & _ & E).
  - repeat (constructor; [intros h; eexists; split; reflexivity|]).
    constructor.
  - exists tr'. apply E. by repeat constructor.
Defined.




Example crosstab_example :
  total <$> crosstab (actuals {| split_features := [];
                                 split_labels := [0; 1; 0; 2] |})
                     [1; 0; 1; 0]
  = Some 4%nat.
Proof. reflexivity. Qed.

(** The two zeros are one label of a float64 array. *)
Example crosstab_zero_signs :
  (fun t => cell t 0 F64.zero)
    <$> crosstab [0; 0] [S754_zero false; S754_zero true]
  = Some 2%nat.
Proof.
  unfold crosstab. rewrite decide_True by reflexivity.
  cbn [fmap option_fmap option_map]. rewrite cell_foldl. reflexivity.
Qed.

(** C4.  The locator built by the upload step is
    [s3://{bucket}/{prefix}/train/{key}] for every bucket, prefix and key;
    every upload of the run goes to the object key
    [os.path.join(prefix, 'train', key)] of the bucket and every training job
    reads its [train] channel from that same locator; a run that completes
    has made both calls.  On a POSIX host the object key is
    [{prefix}/train/{key}] for every prefix that is not empty and does not end
    in a slash and every key that does not start with one, and the prefix and
    the key of lines 2 and 47 are of that kind. *)
Theorem training_reads_uploaded_locator (c : config) (en : env)
    (tr : list event) (r : result unit) :
  run c en = (tr, r) ->
  (forall train_set h h' loc,
     upload_training_data c train_set en h = (h', Ok loc) ->
     loc = String.append "s3://"
             (String.append (bucket c)
                (String.append "/"
                   (String.append (prefix c)
                      (String.append "/train/" (key c))))))
  /\ Forall (locator_ok c) tr
  /\ (r = Ok tt ->
      exists buf fm,
        EvUpload (bucket c)
                 (os_path_join (prefix c) ["train"%string; key c]) buf ∈ tr
        /\ EvFit fm {["train"%string := train_locator c]} ∈ tr)
  /\ (prefix c <> EmptyString -> endswith_sep (prefix c) = false ->
      startswith_sep (key c) = false ->
      os_path_join (prefix c) ["train"%string; key c]
      = String.append (prefix c) (String.append "/train/" (key c)))
  /\ (prefix script_config <> EmptyString
      /\ endswith_sep (prefix script_config) = false
      /\ startswith_sep (key script_config) = false).
Proof.
  intros Hrun. split; [|split; [|split; [|split]]].
  - intros train_set h h' loc Hup.
    exact (upload_returns_locator _ _ _ _ _ _ Hup).
  - destruct (emits_run _ _ _ _ _ _ (script_locator_ok c) Hrun)
      as (added & -> & Hall).
    exact Hall.
  - intros ->. unfold run, script in Hrun.
    apply bind_Ok in Hrun as (tr1 & [[train_set test_set] p] & Hp & Hrest).
    destruct (provision_Ok_events _ _ _ _ Hp) as (buf & fm & Hu & Hf).
    exists buf, fm.
    assert (Hext : forall e, e ∈ tr1 -> e ∈ tr).
    { intros e He. apply bind_Ok in Hrest as (tr2 & [] & Huse & Hdel).
      unfold delete_endpoint in Hdel. invert_ok Hdel. invert_steps.
      apply elem_of_app. left.
      eapply (run_extends quiet);
        [apply use_endpoint_quiet|exact Huse|exact He]. }
    split; apply Hext; assumption.
  - apply os_path_join_plain.
  - by vm_compute.
Qed.

Lemma training_reads_uploaded_locator_witness :
  exists tr buf fm,
    run script_config Fixture.healthy = (tr, Ok tt)
    /\ EvUpload "localide" "sagemaker/DEMO-1/train/recordio-pb-data" buf ∈ tr
    /\ EvFit fm {["train"%string :=
                   "s3://localide/sagemaker/DEMO-1/train/recordio-pb-data"%string]}
         ∈ tr.
Proof.
  destruct (training_reads_uploaded_locator script_config Fixture.healthy
              (fst (run script_config Fixture.healthy)) (Ok tt))
    as (_ & _ & Hev & Hkey & Hne & Hend & Hstart).
  - vm_compute. reflexivity.
  - destruct (Hev eq_refl) as (buf & fm & Hu & Hf).
    rewrite (Hkey Hne Hend Hstart) in Hu.
    exists (fst (run script_config Fixture.healthy)), buf, fm.
    split; [vm_compute; reflexivity|]. split; [exact Hu|exact Hf].
Defined.

(** C5.  The serializer returns the JSON text of the object
    [{"instances": [{"features": row_0}, {"features": row_1}, ...]}], one
    instance per row and in the order of the rows; the deployed predictor
    sends its requests with content type [application/json] and that
    serializer; and the labels are read from the field [predicted_label] of
    each item of the list under [predictions], in order. *)
Theorem inference_protocol (fm : estimator) (en : env) (tr : list event)
    (data : matrix) :
  fm_serializer (json_dumps en) data
  = json_dumps en
      (PyDict [("instances"%string,
                PyList (map (fun r =>
                               PyDict [("features"%string,
                                        PyList (map PyFloat r))])
                            data))])
  /\ (forall tr' p,
        deploy fm en tr = (tr', Ok p) ->
        content_type p = "application/json"%string
        /\ forall h,
             fst (predict p data en h)
             = h ++ [EvInvoke (endpoint p) "application/json"
                              (fm_serializer (json_dumps en) data)])
  /\ (forall d items vs,
        dict_get d "predictions" = Some (PyList items) ->
        Forall2 (fun item v =>
                   exists fields,
                     item = PyDict fields
                     /\ dict_get fields "predicted_label" = Some v)
                items vs ->
        predicted_labels (PyDict d) = Ok vs).
Proof.
  split; [|split].
  - unfold fm_serializer, fm_serializer_js. rewrite serializer_loop.
    reflexivity.
  - intros tr' p Hdep. unfold deploy in Hdep. invert_ok Hdep.
    unfold ask_dumps in E1. injection E1 as _ <-.
    unfold mret, M_ret in Hdep. injection Hdep as _ <-. simpl.
    split; [reflexivity|]. intros h. unfold predict.
    rewrite bind_run, call_run. simpl.
    by destruct (world en h _) as [[]|].
  - intros d items vs Hd Hitems. unfold predicted_labels. simpl.
    rewrite Hd. simpl. apply result_mapM_Forall2.
    eapply Forall2_impl; [exact Hitems|].
    intros item v (fields & -> & Hv). simpl. by rewrite Hv.
Qed.

(** C6, as the code has it.  The test features are split into exactly 100
    chunks; chunk [i] has one row more than [N / 100] when [i < N mod 100],
    and [N / 100] rows otherwise, so the chunks are all of the same size when
    100 divides the number of rows [N]. *)
Theorem array_split_hundred_chunks (test_features : matrix) :
  exists chunks,
    array_split test_features 100 = Some chunks
    /\ length chunks = 100%nat
    /\ (forall i chunk, chunks !! i = Some chunk ->
        length chunk
        = (length test_features / 100
           + if decide (i < length test_features mod 100)%nat
             then 1 else 0)%nat)
    /\ ((length test_features mod 100 = 0)%nat ->
        Forall (fun chunk =>
                  length chunk = (length test_features / 100)%nat) chunks).
Proof.
  destruct (array_split test_features 100) as [chunks|] eqn:Hsplit;
    [|by rewrite array_split_split_by in Hsplit].
  exists chunks. split; [done|]. split; [|split].
  - by apply array_split_length in Hsplit.
  - intros i chunk Hc. exact (array_split_sizes _ _ _ _ _ Hsplit Hc).
  - intros Hmod. apply Forall_lookup. intros i chunk Hc.
    rewrite (array_split_sizes _ _ _ _ _ Hsplit Hc), Hmod.
    case_decide; lia.
Qed.

(** C6 as stated fails for 150 test rows: the first 50 chunks have two rows
    and the other 50 have one. *)
Lemma array_split_unequal_chunks :
  ~ (exists chunks n,
       array_split (replicate 150 Fixture.blank) 100 = Some chunks
       /\ length chunks = 100%nat
       /\ Forall (fun chunk => length chunk = n) chunks).
Proof.
  intros (chunks & n & Hsplit & Hlen & Hall).
  destruct (lookup_lt_is_Some_2 chunks 0) as [c0 H0]; [lia|].
  destruct (lookup_lt_is_Some_2 chunks 99) as [c99 H99]; [lia|].
  pose proof (array_split_sizes _ _ _ _ _ Hsplit H0) as E0.
  pose proof (array_split_sizes _ _ _ _ _ Hsplit H99) as E99.
  rewrite length_replicate in E0, E99.
  rewrite Forall_lookup in Hall.
  rewrite (Hall _ _ H0) in E0. rewrite (Hall _ _ H99) in E99.
  vm_compute in E0, E99. congruence.
Qed.

(** C7.  A run that ends without an exception has called [delete_endpoint]
    exactly once, as its last call, after the cross-tabulation and the
    construction of the session; and the call is unconditional: once the
    evaluation has returned, whatever it returned, the next call is the
    deletion of the deployed endpoint. *)
Theorem teardown_exactly_once (c : config) (en : env) (tr : list event) :
  run c en = (tr, Ok tt) ->
  deletions tr = 1%nat
  /\ (exists pre columns test_set p,
        tr = pre ++ [EvCrosstab (actuals test_set) columns; EvSession;
                     EvDeleteEndpoint (endpoint p)]
        /\ deletions pre = 0%nat)
  /\ (forall h train_set test_set p h' u,
        provision c en [] = (h, Ok (train_set, test_set, p)) ->
        use_endpoint p train_set test_set en h = (h', Ok u) ->
        fst (run c en) = h' ++ [EvDeleteEndpoint (endpoint p)]).
Proof.
  intros Hrun.
  assert (Hshape : exists pre columns test_set p,
             tr = pre ++ [EvCrosstab (actuals test_set) columns; EvSession;
                          EvDeleteEndpoint (endpoint p)]
             /\ deletions pre = 0%nat).
  { unfold run, script in Hrun.
    apply bind_Ok in Hrun as (tr1 & [[train_set test_set] p] & Hp & Hrun).
    apply bind_Ok in Hrun as (tr2 & [] & Huse & Hdel).
    unfold delete_endpoint in Hdel. invert_ok Hdel. invert_steps.
    unfold use_endpoint in Huse.
    apply bind_Ok in Huse as (tr3 & t & Hev & Huse).
    invert_ok Huse. invert_steps.
    apply evaluate_Ok_crosstab in Hev as (pre & columns & -> & Hpre).
    exists pre, columns, test_set, p. split.
    - by rewrite <- !app_assoc.
    - rewrite Hpre.
      by rewrite (quiet_run _ _ _ _ _ (provision_quiet c) Hp). }
  split; [|split; [exact Hshape|]].
  - destruct Hshape as (pre & columns & test_set & p & -> & Hpre).
    rewrite deletions_app, Hpre. reflexivity.
  - intros h train_set test_set p h' u Hp Huse.
    unfold run, script. rewrite bind_run, Hp. cbv beta iota.
    rewrite bind_run, Huse. cbv beta iota.
    unfold delete_endpoint. rewrite bind_run, call_run.
    by destruct (world en h' _).
Qed.

Lemma teardown_exactly_once_witness :
  exists tr,
    run script_config Fixture.healthy = (tr, Ok tt)
    /\ deletions tr = 1%nat
    /\ last tr = Some (EvDeleteEndpoint "factorization-machines-endpoint").
Proof.
  exists (fst (run script_config Fixture.healthy)).
  assert (Hrun : run script_config Fixture.healthy
                 = (fst (run script_config Fixture.healthy), Ok tt))
    by (vm_compute; reflexivity).
  destruct (teardown_exactly_once script_config Fixture.healthy _ Hrun)
    as (Hone & _ & _).
  split; [exact Hrun|]. split; [exact Hone|]. vm_compute. reflexivity.
Defined.

(** C8.  If anything between the deployment and the teardown call raises,
    the run ends with that exception and has never called [delete_endpoint],
    although the endpoint was deployed. *)
Theorem endpoint_leaks_on_failure (c : config) (en : env)
    (tr0 tr : list event) (train_set test_set : split) (p : predictor)
    (e : exn) :
  provision c en [] = (tr0, Ok (train_set, test_set, p)) ->
  use_endpoint p train_set test_set en tr0 = (tr, Raise e) ->
  run c en = (tr, Raise e)
  /\ deletions tr = 0%nat
  /\ exists fm, EvDeploy fm 1 "ml.m4.xlarge" ∈ tr.
Proof.
  intros Hp Huse. split; [|split].
  - unfold run, script. rewrite bind_run, Hp. cbv beta iota.
    by rewrite bind_run, Huse.
  - rewrite (quiet_run _ _ _ _ _ (use_endpoint_quiet _ _ _) Huse).
    by rewrite (quiet_run _ _ _ _ _ (provision_quiet c) Hp).
  - destruct (provision_Ok_deployed _ _ _ _ Hp) as [fm Hfm].
    exists fm.
    eapply (run_extends quiet); [apply use_endpoint_quiet|exact Huse|exact Hfm].
Qed.

Lemma endpoint_leaks_on_failure_witness :
  exists tr e,
    run script_config Fixture.refusing = (tr, Raise e)
    /\ deletions tr = 0%nat.
Proof.
  pose (x := provision script_config Fixture.refusing []).
  assert (Hp : provision script_config Fixture.refusing []
               = (fst x, Ok (Fixture.train_set, Fixture.test_set,
                             {| endpoint := "factorization-machines-endpoint";
                                content_type := "application/json";
                                serializer := fm_serializer Fixture.dumps |})))
    by (vm_compute; reflexivity).
  pose (y := use_endpoint
               {| endpoint := "factorization-machines-endpoint";
                  content_type := "application/json";
                  serializer := fm_serializer Fixture.dumps |}
               Fixture.train_set Fixture.test_set Fixture.refusing (fst x)).
  assert (Hu : y = (fst y, Raise (ServiceError "ModelError")))
    by (vm_compute; reflexivity).
  destruct (endpoint_leaks_on_failure _ _ _ _ _ _ _ _ Hp Hu)
    as (Hrun & Hdel & _).
  exists (fst y), (ServiceError "ModelError"). split; [exact Hrun|exact Hdel].
Defined.

(** C9.  A training feature vector of length 784 is encoded as a vector of
    length 784, and every element of the encoding is the float32 rounding of
    the element it comes from: a float32 value, the nearest one to the
    original, within a relative error of [2^-24], equal to the original when
    that is a float32 value, and an infinity only for a magnitude beyond the
    float32 range.  The hyperparameter [feature_dim] is 784, the length of the
    encoded vector. *)
Theorem encode_keeps_feature_vector (train_set : split) (i : nat) (V : row) :
  split_features train_set !! i = Some V ->
  length V = 784%nat ->
  exists W,
    vectors train_set !! i = Some W
    /\ length W = 784%nat
    /\ (forall j x, V !! j = Some x ->
        exists w, W !! j = Some w /\ float32_rounding x w)
    /\ set_hyperparameters !! "feature_dim"%string
       = Some (HInt (Z.of_nat (length W))).
Proof.
  intros HV Hlen. exists (astype_float32 V).
  assert (HW : length (astype_float32 V) = 784%nat)
    by (unfold astype_float32; by rewrite length_map).
  split; [|split; [exact HW|split]].
  - unfold vectors, astype_float32_2d, np_array, tolist.
    rewrite map_id, lookup_map, HV. reflexivity.
  - intros j x Hx. exists (F32.of_float x). split.
    + unfold astype_float32. by rewrite lookup_map, Hx.
    + apply of_float_rounding.
  - rewrite HW. reflexivity.
Qed.

(** The double nearest to 0.1 is cast to the float32 [13421773 * 2^-27], which
    is not the double itself but as near to it as a float32 can be. *)
Lemma encode_keeps_feature_vector_witness :
  exists W w,
    vectors Scenario.one_sample !! 0%nat = Some W
    /\ length W = 784%nat
    /\ W !! 0%nat = Some w
    /\ w = S754_finite false 13421773 (-27)
    /\ float32_rounding Scenario.tenth w.
Proof.
  destruct (encode_keeps_feature_vector Scenario.one_sample 0
              (Scenario.tenth :: replicate 783 F64.zero)
              eq_refl eq_refl) as (W & HW & Hlen & Hround & _).
  destruct (Hround 0%nat Scenario.tenth eq_refl) as (w & Hw & Hr).
  exists W, w. split; [exact HW|]. split; [exact Hlen|].
  split; [exact Hw|]. split; [|exact Hr].
  assert (HW' : vectors Scenario.one_sample !! 0%nat
                = Some (astype_float32
                          (Scenario.tenth :: replicate 783 F64.zero)))
    by reflexivity.
  rewrite HW in HW'. injection HW' as ->.
  cbn in Hw. injection Hw as <-. reflexivity.
Defined.

(** C10.  For a training split with one label per feature row, the encoded
    labels have one entry per encoded feature row, entry [i] is the
    binarization of the label of sample [i] next to the encoding of the
    features of sample [i], and these two arrays are what the upload step
    hands to the record serializer. *)
Theorem labels_aligned_with_vectors (c : config) (train_set : split) :
  length (split_features train_set) = length (split_labels train_set) ->
  length (labels train_set) = length (vectors train_set)
  /\ (forall i V L,
        split_features train_set !! i = Some V ->
        split_labels train_set !! i = Some L ->
        vectors train_set !! i = Some (astype_float32 V)
        /\ labels train_set !! i
           = Some (if decide (L = 0) then F32.one else F32.zero))
  /\ (forall en tr, exists rest,
        fst (upload_training_data c train_set en tr)
        = tr ++ EvWriteTensor (vectors train_set) (labels train_set) :: rest).
Proof.
  intros Hlen. split; [|split].
  - unfold labels, vectors, astype_float32, astype_float32_2d, np_where,
      np_eq, np_array, tolist.
    by rewrite !length_map.
  - intros i V L HV HL. split.
    + unfold vectors, astype_float32_2d, np_array, tolist.
      by rewrite map_id, lookup_map, HV.
    + unfold labels, astype_float32, np_where, np_eq, np_array, tolist.
      rewrite map_id, !lookup_map, HL. simpl.
      destruct (Z.eqb_spec L 0); case_decide; done.
  - intros en tr. unfold upload_training_data.
    apply (call_first quiet). intros r. emits_steps.
Qed.

Lemma labels_aligned_with_vectors_witness :
  length (labels Fixture.train_set) = length (vectors Fixture.train_set)
  /\ vectors Fixture.train_set !! 30%nat = Some Fixture.blank
  /\ labels Fixture.train_set !! 30%nat = Some F32.one.
Proof.
  destruct (labels_aligned_with_vectors script_config Fixture.train_set
              eq_refl) as (Hlen & Hi & _).
  destruct (Hi 30%nat Fixture.blank 0 eq_refl eq_refl) as [Hv Hl].
  split; [exact Hlen|]. split; [exact Hv|exact Hl].
Defined.

(** * Further properties

    What the rest of the script does: the display of the sample, the phases
    before the deployment, the requests of the evaluation, the teardown, and
    the library calls the script relies on. *)

#[local] Hint Extern 1 (before_deploy _) => exact I : emits.
#[local] Hint Extern 1 (addressed_to _ _) =>
  first [exact I | split; reflexivity] : emits.

(** ** Helper lemmas *)

(** Cutting [r * c] elements into [r] rows of [c] loses nothing. *)
Lemma rows_of_shape (r c : nat) : forall (l : row),
  length l = (r * c)%nat ->
  length (rows_of r c l) = r
  /\ Forall (fun x => length x = c) (rows_of r c l)
  /\ concat (rows_of r c l) = l.
Proof.
  induction r as [|r IH]; intros l Hl; simpl in *.
  - split; [done|]. split; [constructor|]. by destruct l.
  - destruct (IH (drop c l)) as (H1 & H2 & H3).
    { rewrite length_drop. lia. }
    split; [by rewrite H1|]. split.
    + constructor; [|done]. rewrite length_take. lia.
    + rewrite H3. apply take_drop.
Qed.

Lemma reshape_Some (r c : nat) (img : row) (imgr : matrix) :
  reshape r c img = Some imgr ->
  length img = (r * c)%nat
  /\ length imgr = r
  /\ Forall (fun x => length x = c) imgr
  /\ concat imgr = img.
Proof.
  unfold reshape. case_decide as Hl; [|done]. intros [= <-].
  split; [done|]. by apply rows_of_shape.
Qed.

Lemma show_digit_Ok (img : row) (caption : string)
    (en : env) (tr tr' : list event) (u : unit) :
  show_digit img caption en tr = (tr', Ok u) ->
  exists imgr,
    reshape 28 28 img = Some imgr
    /\ tr' = tr ++ [EvSubplots; EvAxis "off"; EvImshow imgr "gray";
                    EvTitle caption].
Proof.
  intros E. unfold show_digit in E.
  apply bind_Ok in E as (t1 & r1 & E1 & E).
  apply bind_Ok in E as (t2 & imgr & E2 & E).
  apply bind_Ok in E as (t3 & r3 & E3 & E).
  apply bind_Ok in E as (t4 & r4 & E4 & E).
  apply bind_Ok in E as (t5 & r5 & E5 & E).
  invert_steps.
  destruct (reshape 28 28 img) as [m|] eqn:Hm; [|discriminate].
  injection E2 as <-. exists m. split; [done|]. by rewrite <- !app_assoc.
Qed.

Lemma format_caption (s : string) :
  py_format "This is a {}" [s] = Some (String.append "This is a " s).
Proof. cbn. rewrite append_nil_r. reflexivity. Qed.

Lemma format_upload_message (loc : string) :
  py_format "uploaded training data location: {}" [loc]
  = Some (String.append "uploaded training data location: " loc).
Proof. cbn. rewrite append_nil_r. reflexivity. Qed.

Lemma format_output_location (c : config) :
  py_format "s3://{}/{}/output" [bucket c; prefix c]
  = Some (String.append "s3://"
            (String.append (bucket c)
               (String.append "/" (String.append (prefix c) "/output")))).
Proof. cbn. reflexivity. Qed.

Lemma format_output_message (loc : string) :
  py_format "training artifacts will be uploaded to: {}" [loc]
  = Some (String.append "training artifacts will be uploaded to: " loc).
Proof. cbn. rewrite append_nil_r. reflexivity. Qed.

(** A training phase that returned ended with the fit of the script's
    estimator, and the world accepted that fit. *)
Lemma train_Ok_trace c loc en tr tr' fm :
  train c loc en tr = (tr', Ok fm) ->
  exists pre container,
    fm = script_estimator c container
    /\ tr' = pre ++ [EvFit fm {["train"%string := loc]}]
    /\ (exists r, world en pre (EvFit fm {["train"%string := loc]}) = Ok r).
Proof.
  intros E. unfold train in E.
  rewrite format_output_location in E.
  apply bind_Ok in E as (t1 & out & E1 & E). invert_steps.
  injection E1 as <-. rewrite format_output_message in E.
  apply bind_Ok in E as (t2 & msg & E2 & E).
  apply bind_Ok in E as (t3 & u3 & E3 & E).
  apply bind_Ok in E as (t4 & r4 & E4 & E).
  apply bind_Ok in E as (t5 & region & E5 & E).
  apply bind_Ok in E as (t6 & r6 & E6 & E).
  apply bind_Ok in E as (t7 & container & E7 & E).
  apply bind_Ok in E as (t8 & r8 & E8 & E).
  apply bind_Ok in E as (t9 & r9 & E9 & E).
  invert_steps.
  eexists _, container. split; [reflexivity|]. split; [reflexivity|].
  by exists r9.
Qed.

Lemma deploy_Ok_trace fm en tr tr' p :
  deploy fm en tr = (tr', Ok p) ->
  tr' = tr ++ [EvDeploy fm 1 "ml.m4.xlarge"]
  /\ world en tr (EvDeploy fm 1 "ml.m4.xlarge") = Ok (RStr (endpoint p))
  /\ content_type p = "application/json"%string
  /\ serializer p = fm_serializer (json_dumps en).
Proof.
  intros E. unfold deploy in E. invert_ok E. invert_steps.
  destruct a; try discriminate. injection E1 as ->. done.
Qed.

Lemma load_dataset_before_deploy : emits before_deploy load_dataset.
Proof. unfold load_dataset. emits_steps. Qed.

Lemma show_sample_before_deploy train_set :
  emits before_deploy (show_sample train_set).
Proof. unfold show_sample. emits_steps. Qed.

Lemma upload_before_deploy c train_set :
  emits before_deploy (upload_training_data c train_set).
Proof. unfold upload_training_data. emits_steps. Qed.

Lemma train_before_deploy c loc : emits before_deploy (train c loc).
Proof. unfold train. emits_steps. Qed.

(** The three ways a run can go: the provisioning fails, the use of the
    endpoint fails, or the run reaches the teardown call. *)
Lemma run_cases (c : config) (en : env) (tr : list event) (r : result unit) :
  run c en = (tr, r) ->
  (exists e, provision c en [] = (tr, Raise e) /\ r = Raise e)
  \/ (exists tr1 train_set test_set p,
        provision c en [] = (tr1, Ok (train_set, test_set, p))
        /\ ((exists e, use_endpoint p train_set test_set en tr1 = (tr, Raise e)
                       /\ r = Raise e)
            \/ (exists tr2 u,
                  use_endpoint p train_set test_set en tr1 = (tr2, Ok u)
                  /\ tr = tr2 ++ [EvDeleteEndpoint (endpoint p)]
                  /\ r = match world en tr2 (EvDeleteEndpoint (endpoint p)) with
                         | Ok _ => Ok tt
                         | Raise e => Raise e
                         end))).
Proof.
  unfold run, script. rewrite bind_run.
  destruct (provision c en []) as [tr1 [[[train_set test_set] p]|e]] eqn:Hp.
  2:{ intros [= <- <-]. left. by exists e. }
  intros H. right. exists tr1, train_set, test_set, p. split; [done|].
  rewrite bind_run in H.
  destruct (use_endpoint p train_set test_set en tr1) as [tr2 [u|e]] eqn:Hu.
  2:{ injection H as <- <-. left. by exists e. }
  right. exists tr2, u. split; [done|].
  unfold delete_endpoint in H. rewrite bind_run, call_run in H.
  destruct (world en tr2 _) as [r'|e]; by injection H as <- <-.
Qed.

Lemma predict_addressed p data : emits (addressed_to p) (predict p data).
Proof. unfold predict. emits_steps. Qed.

Lemma predict_chunks_addressed p chunks : forall acc,
  emits (addressed_to p) (predict_chunks p chunks acc).
Proof.
  induction chunks as [|array rest IH]; intros acc; simpl.
  - apply emits_mret.
  - apply emits_bind; [apply predict_addressed|intros res].
    apply emits_bind; [apply emits_lift|intros lbls]. apply IH.
Qed.

Lemma use_endpoint_addressed p train_set test_set :
  emits (addressed_to p) (use_endpoint p train_set test_set).
Proof.
  unfold use_endpoint, evaluate, collect_predictions.
  apply emits_bind; [|intros; emits_steps].
  apply emits_bind; [apply predict_addressed|intros res].
  apply emits_bind; [auto with emits|intros _].
  apply emits_bind.
  { apply emits_bind; [apply emits_lift_opt|intros chunks].
    apply emits_bind; [apply predict_chunks_addressed|intros].
    apply emits_bind; [apply emits_ask_np_array|intros].
    apply emits_lift. }
  intros preds. emits_steps.
Qed.

(** Whatever [provision] does, only its last call can be the deployment. *)
Lemma provision_trace c en tr r :
  provision c en [] = (tr, r) ->
  Forall before_deploy tr
  \/ exists pre fm, tr = pre ++ [EvDeploy fm 1 "ml.m4.xlarge"]
                    /\ Forall before_deploy pre.
Proof.
  unfold provision. rewrite !bind_run. intros Hrun.
  destruct (load_dataset en []) as [t1 [[[train_set valid_set] test_set]|e1]]
    eqn:E1;
    destruct (emits_run _ _ _ _ _ _ load_dataset_before_deploy E1)
      as (a1 & -> & F1).
  2:{ injection Hrun as <- <-. by left. }
  cbv beta iota in Hrun. rewrite !bind_run in Hrun.
  destruct (show_sample train_set en ([] ++ a1)) as [t2 [[]|e2]] eqn:E2;
    destruct (emits_run _ _ _ _ _ _ (show_sample_before_deploy _) E2)
      as (a2 & -> & F2).
  2:{ injection Hrun as <- <-. left. rewrite !Forall_app. by repeat split. }
  cbv beta iota in Hrun. rewrite !bind_run in Hrun.
  destruct (upload_training_data c train_set en (([] ++ a1) ++ a2))
    as [t3 [loc|e3]] eqn:E3;
    destruct (emits_run _ _ _ _ _ _ (upload_before_deploy _ _) E3)
      as (a3 & -> & F3).
  2:{ injection Hrun as <- <-. left. rewrite !Forall_app. by repeat split. }
  cbv beta iota in Hrun. rewrite !bind_run in Hrun.
  destruct (train c loc en ((([] ++ a1) ++ a2) ++ a3)) as [t4 [fm|e4]] eqn:E4;
    destruct (emits_run _ _ _ _ _ _ (train_before_deploy _ _) E4)
      as (a4 & -> & F4).
  2:{ injection Hrun as <- <-. left. rewrite !Forall_app. by repeat split. }
  cbv beta iota in Hrun. rewrite !bind_run in Hrun.
  right. exists (((([] ++ a1) ++ a2) ++ a3) ++ a4), fm.
  split; [|rewrite !Forall_app; by repeat split].
  unfold deploy in Hrun. rewrite !bind_run, call_run in Hrun.
  destruct (world en _ (EvDeploy fm 1 "ml.m4.xlarge")) as [r'|e].
  - cbv beta iota in Hrun. rewrite bind_run in Hrun.
    destruct r'; simpl in Hrun; by injection Hrun as <- _.
  - by injection Hrun as <- _.
Qed.

Lemma invocations_app tr1 tr2 :
  invocations (tr1 ++ tr2) = (invocations tr1 + invocations tr2)%nat.
Proof. unfold invocations. by rewrite filter_app, length_app. Qed.

Lemma invocations_before_deploy tr :
  Forall before_deploy tr -> invocations tr = 0%nat.
Proof.
  unfold invocations. induction 1 as [|e tr He _ IH]; [done|].
  rewrite filter_cons. destruct e; try done.
Qed.

Lemma predict_Ok_trace p data en tr tr' v :
  predict p data en tr = (tr', Ok v) ->
  tr' = tr ++ [EvInvoke (endpoint p) (content_type p) (serializer p data)].
Proof. intros E. unfold predict in E. invert_ok E. by invert_steps. Qed.

Lemma predict_chunks_Ok_invocations p chunks : forall acc en tr tr' preds,
  predict_chunks p chunks acc en tr = (tr', Ok preds) ->
  tr' = tr ++ map (fun chunk => EvInvoke (endpoint p) (content_type p)
                                         (serializer p chunk)) chunks.
Proof.
  induction chunks as [|chunk rest IH]; intros acc en tr tr' preds E; simpl in E.
  - apply (mret_Ok en) in E as [-> _]. by rewrite app_nil_r.
  - apply bind_Ok in E as (t1 & res & E1 & E).
    apply bind_Ok in E as (t2 & lbls & E2 & E).
    apply predict_Ok_trace in E1 as ->. apply (lift_Ok en) in E2 as [-> _].
    apply IH in E as ->. by rewrite <- app_assoc.
Qed.

Lemma filter_requests p (datas : list matrix) :
  filter is_invoke
         (map (fun data => EvInvoke (endpoint p) (content_type p)
                                    (serializer p data)) datas)
  = map (fun data => EvInvoke (endpoint p) (content_type p)
                              (serializer p data)) datas.
Proof.
  induction datas as [|data rest IH]; [done|].
  cbn [map]. rewrite filter_cons_True by done. by rewrite IH.
Qed.

Lemma provision_no_invocations c en tr r :
  provision c en [] = (tr, r) -> filter is_invoke tr = [].
Proof.
  intros Hp. apply nil_length_inv. change (invocations tr = 0%nat).
  apply provision_trace in Hp as [Hall|(pre & fm & -> & Hall)].
  - by apply invocations_before_deploy.
  - rewrite invocations_app, (invocations_before_deploy pre Hall). done.
Qed.

Lemma py_slice_one {A : Type} (l : list A) (i : nat) (x : A) :
  l !! i = Some x -> py_slice i (S i) l = [x].
Proof.
  intros Hx. unfold py_slice. rewrite (drop_S l x i Hx).
  replace (S i - i)%nat with 1%nat by lia. reflexivity.
Qed.

Lemma result_mapM_first_failure {A B : Type} (f : A -> result B)
    (good : list A) (bad : A) (rest : list A) (ys : list B) (e : exn) :
  Forall2 (fun x y => f x = Ok y) good ys ->
  f bad = Raise e ->
  result_mapM f (good ++ bad :: rest) = Raise e.
Proof.
  intros Hgood Hbad. induction Hgood as [|x y l ys Hx _ IH]; simpl.
  - by rewrite Hbad.
  - by rewrite Hx, IH.
Qed.

Lemma features_item_inj : Inj (=) (=) features_item.
Proof.
  intros r1 r2 H. unfold features_item, tolist in H.
  injection H as H. revert r2 H.
  induction r1 as [|x r1 IH]; intros [|y r2] H; try done.
  simpl in H. injection H as -> H. f_equal. by apply IH.
Qed.

Lemma array_split_nil {A : Type} (n : nat) :
  n <> 0%nat -> array_split ([] : list A) n = Some (replicate n []).
Proof.
  intros Hn. destruct (array_split ([] : list A) n) as [chunks|] eqn:Hs;
    [|by rewrite array_split_split_by in Hs].
  f_equal. apply list_eq. intros i.
  pose proof (array_split_length _ _ _ Hs) as Hlen.
  destruct (chunks !! i) as [c|] eqn:Hc.
  - pose proof (array_split_sizes _ _ _ _ _ Hs Hc) as Hsz.
    simpl in Hsz. rewrite Nat.Div0.div_0_l, Nat.Div0.mod_0_l in Hsz.
    rewrite decide_False in Hsz by lia.
    apply nil_length_inv in Hsz as ->.
    symmetry. apply lookup_replicate_2. apply lookup_lt_Some in Hc. lia.
  - symmetry. apply lookup_replicate_None.
    apply lookup_ge_None in Hc. lia.
Qed.

(** ** Runs that do not depend on the validation split, and the calls of
    each phase *)

Lemma indifferent_bind {A B : Type} v en (m : M A) (k : A -> M B) :
  indifferent v en m -> (forall a, indifferent v en (k a)) ->
  indifferent v en (m ≫= k).
Proof.
  intros Hm Hk tr. rewrite !bind_run, Hm.
  destruct (m en tr) as [t [a|e]]; [apply Hk|done].
Qed.

Lemma indifferent_call v en e : not_load e -> indifferent v en (call e).
Proof. intros He tr. rewrite !call_run. by destruct e. Qed.

Lemma indifferent_const {A : Type} v en (m : M A) :
  (forall en1 en2 tr, m en1 tr = m en2 tr) -> indifferent v en m.
Proof. intros Hm tr. apply Hm. Qed.

Lemma indifferent_ask_np_array v en : indifferent v en ask_np_array.
Proof. intros tr. reflexivity. Qed.

Lemma indifferent_ask_dumps v en : indifferent v en ask_dumps.
Proof. intros tr. reflexivity. Qed.

Ltac indifferent_steps :=
  repeat first
    [ apply indifferent_bind; [|intros ?]
    | apply indifferent_call; exact I
    | apply indifferent_ask_dumps
    | apply indifferent_ask_np_array
    | apply indifferent_const; reflexivity ].

Lemma predict_chunks_indifferent v en p chunks : forall acc,
  indifferent v en (predict_chunks p chunks acc).
Proof.
  induction chunks as [|array rest IH]; intros acc; simpl.
  - by apply indifferent_const.
  - unfold predict. indifferent_steps. apply IH.
Qed.

Lemma after_load_indifferent v en c train_set test_set :
  indifferent v en
    (_ ← show_sample train_set;
     s3_train_data ← upload_training_data c train_set;
     fm ← train c s3_train_data;
     fm_predictor ← deploy fm;
     _ ← use_endpoint fm_predictor train_set test_set;
     delete_endpoint fm_predictor).
Proof.
  unfold show_sample, show_digit, upload_training_data, train, deploy,
    use_endpoint, evaluate, collect_predictions, predict, delete_endpoint.
  indifferent_steps. apply predict_chunks_indifferent.
Qed.

Lemma load_dataset_with_validation_split v en tr :
  load_dataset (with_validation_split v en) tr
  = match load_dataset en tr with
    | (t, Ok (train_set, _, test_set)) => (t, Ok (train_set, v, test_set))
    | other => other
    end.
Proof.
  unfold load_dataset. rewrite !bind_run, !call_run. simpl.
  destruct (world en tr _) as [r0|e0]; [|done]. cbv beta iota.
  rewrite !bind_run, !call_run. simpl.
  destruct (world en _ _) as [[]|e1]; done.
Qed.

Lemma script_after_load c en tr :
  script c en tr
  = ('(train_set, valid_set, test_set) ← load_dataset;
     _ ← show_sample train_set;
     s3_train_data ← upload_training_data c train_set;
     fm ← train c s3_train_data;
     fm_predictor ← deploy fm;
     _ ← use_endpoint fm_predictor train_set test_set;
     delete_endpoint fm_predictor) en tr.
Proof.
  unfold script, provision. rewrite !bind_run.
  destruct (load_dataset en tr) as [t1 [[[a b] d]|e]]; [|done].
  cbv beta iota. rewrite !bind_run.
  destruct (show_sample a en t1) as [t2 [[]|e]]; [|done].
  cbv beta iota. rewrite !bind_run.
  destruct (upload_training_data c a en t2) as [t3 [loc|e]]; [|done].
  cbv beta iota. rewrite !bind_run.
  destruct (train c loc en t3) as [t4 [fm|e]]; [|done].
  cbv beta iota. rewrite !bind_run.
  destruct (deploy fm en t4) as [t5 [p|e]]; [|done].
  reflexivity.
Qed.

Lemma answered_app en tr rest i e r :
  answered en tr i e r -> answered en (tr ++ rest) i e r.
Proof.
  intros [He Hw]. pose proof (lookup_lt_Some _ _ _ He) as Hi. split.
  - by rewrite lookup_app_l.
  - by rewrite take_app_le by lia.
Qed.

Lemma answered_at_length en pre post i e r :
  length pre = i -> world en pre e = Ok r ->
  answered en (pre ++ e :: post) i e r.
Proof.
  intros <- Hw. split.
  - by rewrite list_lookup_middle.
  - by rewrite take_app_length.
Qed.

Lemma load_dataset_Ok_calls en tr tr' train_set valid_set test_set :
  load_dataset en tr = (tr', Ok (train_set, valid_set, test_set)) ->
  tr' = tr ++ [EvUrlRetrieve "http://deeplearning.net/data/mnist/mnist.pkl.gz"
                             "mnist.pkl.gz";
               EvPickleLoad "mnist.pkl.gz"]
  /\ world en (tr ++ [EvUrlRetrieve
                        "http://deeplearning.net/data/mnist/mnist.pkl.gz"
                        "mnist.pkl.gz"])
           (EvPickleLoad "mnist.pkl.gz")
     = Ok (RDataset train_set valid_set test_set).
Proof.
  intros E. unfold load_dataset in E.
  apply bind_Ok in E as (t1 & r1 & E1 & E).
  apply bind_Ok in E as (t2 & r2 & E2 & E).
  invert_steps. split; [by rewrite <- app_assoc|].
  destruct r2; try discriminate. by injection E as -> -> ->.
Qed.

Lemma show_sample_Ok_calls train_set en tr tr' u :
  show_sample train_set en tr = (tr', Ok u) ->
  exists img lbl imgr,
    split_features train_set !! 30%nat = Some img
    /\ split_labels train_set !! 30%nat = Some lbl
    /\ reshape 28 28 img = Some imgr
    /\ tr' = tr ++ [EvSubplots; EvAxis "off"; EvImshow imgr "gray";
                    EvTitle (String.append "This is a " (py_str_int lbl))].
Proof.
  intros E. unfold show_sample in E.
  apply bind_Ok in E as (t1 & img & E1 & E).
  apply bind_Ok in E as (t2 & lbl & E2 & E).
  rewrite format_caption in E.
  apply bind_Ok in E as (t3 & cap & E3 & E).
  invert_steps. injection E3 as <-.
  unfold py_index in E1, E2.
  destruct (split_features train_set !! 30%nat) as [x|]; [|done].
  destruct (split_labels train_set !! 30%nat) as [l|]; [|done].
  injection E1 as ->. injection E2 as ->.
  apply show_digit_Ok in E as (imgr & Hm & ->).
  by exists img, lbl, imgr.
Qed.

Lemma upload_Ok_calls c train_set en tr tr' loc :
  upload_training_data c train_set en tr = (tr', Ok loc) ->
  exists buf,
    loc = train_locator c
    /\ world en tr (EvWriteTensor (vectors train_set) (labels train_set))
       = Ok (RBytes buf)
    /\ tr' = tr ++ [EvWriteTensor (vectors train_set) (labels train_set);
                    EvUpload (bucket c)
                             (os_path_join (prefix c) ["train"%string; key c])
                             buf;
                    EvPrint (PyStr (String.append
                                      "uploaded training data location: "
                                      (train_locator c)))].
Proof.
  intros E. unfold upload_training_data in E.
  rewrite format_train_locator in E.
  apply bind_Ok in E as (t1 & r1 & E1 & E).
  apply bind_Ok in E as (t2 & buf & E2 & E).
  apply bind_Ok in E as (t3 & r3 & E3 & E).
  apply bind_Ok in E as (t4 & s3 & E4 & E).
  invert_steps. injection E4 as <-.
  rewrite format_upload_message in E.
  apply bind_Ok in E as (t5 & msg & E5 & E).
  apply bind_Ok in E as (t6 & u & E6 & E).
  invert_steps. injection E5 as <-.
  destruct r1; try discriminate. injection E2 as ->.
  exists buf. split; [done|]. split; [done|]. by rewrite <- !app_assoc.
Qed.

Lemma train_Ok_calls c loc en tr tr' fm :
  train c loc en tr = (tr', Ok fm) ->
  exists region container,
    fm = script_estimator c container
    /\ world en (tr ++ [EvPrint (PyStr (String.append
                               "training artifacts will be uploaded to: "
                               (output_path (script_estimator c container))))])
             EvRegionName
       = Ok (RStr region)
    /\ world en (tr ++ [EvPrint (PyStr (String.append
                               "training artifacts will be uploaded to: "
                               (output_path (script_estimator c container))));
                        EvRegionName])
             (EvGetImageUri region "factorization-machines")
       = Ok (RStr container)
    /\ tr' = tr ++ [EvPrint (PyStr (String.append
                               "training artifacts will be uploaded to: "
                               (output_path (script_estimator c container))));
                    EvRegionName;
                    EvGetImageUri region "factorization-machines";
                    EvSession;
                    EvFit fm {["train"%string := loc]}].
Proof.
  intros E. unfold train in E.
  rewrite format_output_location in E.
  apply bind_Ok in E as (t1 & out & E1 & E). invert_steps.
  injection E1 as <-. rewrite format_output_message in E.
  apply bind_Ok in E as (t2 & msg & E2 & E).
  apply bind_Ok in E as (t3 & u3 & E3 & E).
  apply bind_Ok in E as (t4 & r4 & E4 & E).
  apply bind_Ok in E as (t5 & region & E5 & E).
  apply bind_Ok in E as (t6 & r6 & E6 & E).
  apply bind_Ok in E as (t7 & container & E7 & E).
  apply bind_Ok in E as (t8 & r8 & E8 & E).
  apply bind_Ok in E as (t9 & r9 & E9 & E).
  invert_steps. injection E2 as <-.
  destruct r4; try discriminate. injection E5 as ->.
  destruct r6; try discriminate. injection E7 as ->.
  exists region, container. split; [reflexivity|].
  split; [done|]. split; [by rewrite <- !app_assoc in E6|].
  by rewrite <- !app_assoc.
Qed.

(** The answers from which the loop of lines 101-103 reads its labels. *)
Lemma predict_chunks_Ok_answers p chunks : forall acc en tr tr' preds,
  predict_chunks p chunks acc en tr = (tr', Ok preds) ->
  exists answers lbls,
    Forall2 (fun a l => predicted_labels a = Ok l) answers lbls
    /\ length answers = length chunks
    /\ (forall i chunk a,
          chunks !! i = Some chunk -> answers !! i = Some a ->
          world en (tr ++ map (request p) (take i chunks)) (request p chunk)
          = Ok (RVal a))
    /\ preds = acc ++ concat lbls
    /\ tr' = tr ++ map (request p) chunks.
Proof.
  induction chunks as [|chunk rest IH]; intros acc en tr tr' preds E; simpl in E.
  - apply (mret_Ok en) in E as [-> <-]. exists [], [].
    split; [constructor|]. split; [done|]. split; [by intros i ? ? [=]|].
    by rewrite !app_nil_r.
  - apply bind_Ok in E as (t1 & res & E1 & E).
    apply bind_Ok in E as (t2 & lbls & E2 & E).
    unfold predict in E1. apply bind_Ok in E1 as (t0 & r0 & E0 & E1).
    invert_steps. destruct r0; try discriminate. injection E1 as ->.
    apply IH in E as (answers & ls & HF & Hlen & Hw & -> & ->).
    exists (res :: answers), (lbls :: ls).
    split; [by constructor|]. split; [simpl; lia|]. split; [|split].
    + intros [|i] ch a Hch Ha; simpl in *.
      * injection Hch as <-. injection Ha as <-. by rewrite app_nil_r.
      * specialize (Hw i ch a Hch Ha). by rewrite <- app_assoc in Hw.
    + simpl. by rewrite app_assoc.
    + simpl. by rewrite <- app_assoc.
Qed.

Lemma provision_Ok_calls c en tr train_set test_set p :
  provision c en [] = (tr, Ok (train_set, test_set, p)) ->
  exists valid_set img imgr lbl buf region container,
    tr = provision_calls c train_set imgr lbl buf region container
    /\ split_features train_set !! 30%nat = Some img
    /\ split_labels train_set !! 30%nat = Some lbl
    /\ reshape 28 28 img = Some imgr
    /\ answered en tr 1 (EvPickleLoad "mnist.pkl.gz")
                (RDataset train_set valid_set test_set)
    /\ answered en tr 6
                (EvWriteTensor (vectors train_set) (labels train_set))
                (RBytes buf)
    /\ answered en tr 10 EvRegionName (RStr region)
    /\ answered en tr 11 (EvGetImageUri region "factorization-machines")
                (RStr container)
    /\ answered en tr 14
                (EvDeploy (script_estimator c container) 1 "ml.m4.xlarge")
                (RStr (endpoint p))
    /\ content_type p = "application/json"%string
    /\ serializer p = fm_serializer (json_dumps en).
Proof.
  intros Hp. unfold provision in Hp.
  apply bind_Ok in Hp as (t1 & [[s1 s2] s3] & Hload & Hp).
  apply bind_Ok in Hp as (t2 & [] & Hshow & Hp).
  apply bind_Ok in Hp as (t4 & loc & Hup & Hp).
  apply bind_Ok in Hp as (t5 & fm & Htrain & Hp).
  apply bind_Ok in Hp as (t6 & q & Hdep & Hp).
  apply (mret_Ok en) in Hp as [-> [= -> -> ->]].
  apply load_dataset_Ok_calls in Hload as [-> Hw1].
  apply show_sample_Ok_calls in Hshow as (img & lbl & imgr & Himg & Hlbl & Hr & ->).
  apply upload_Ok_calls in Hup as (buf & -> & Hw6 & ->).
  apply train_Ok_calls in Htrain as (region & container & -> & Hw10 & Hw11 & ->).
  apply deploy_Ok_trace in Hdep as (-> & Hw14 & Hct & Hser).
  exists s2, img, imgr, lbl, buf, region, container.
  cbn [app] in *.
  split; [reflexivity|]. split; [done|]. split; [done|]. split; [done|].
  repeat (split; [split; [reflexivity|assumption]|]).
  done.
Qed.

Lemma evaluate_Ok_calls p train_set test_set en tr tr' u :
  evaluate p train_set test_set en tr = (tr', Ok u) ->
  exists res chunks answers lbls preds,
    array_split (split_features test_set) 100 = Some chunks
    /\ world en tr (request p (py_slice 30 31 (split_features train_set)))
       = Ok (RVal res)
    /\ Forall2 (fun a l => predicted_labels a = Ok l) answers lbls
    /\ length answers = length chunks
    /\ (forall i chunk a,
          chunks !! i = Some chunk -> answers !! i = Some a ->
          world en (tr ++ [request p (py_slice 30 31
                                        (split_features train_set));
                           EvPrint res]
                       ++ map (request p) (take i chunks))
                (request p chunk)
          = Ok (RVal a))
    /\ np_array_py (np_array_rest en) (concat lbls) = Ok preds
    /\ tr' = tr
         ++ [request p (py_slice 30 31 (split_features train_set));
             EvPrint res]
         ++ map (request p) chunks
         ++ [EvCrosstab (actuals test_set) preds].
Proof.
  intros E. unfold evaluate in E.
  apply bind_Ok in E as (t1 & res & E1 & E).
  apply bind_Ok in E as (t2 & [] & E2 & E).
  apply bind_Ok in E as (t3 & preds & E3 & E).
  apply bind_Ok in E as (t4 & r4 & E4 & E).
  unfold predict in E1. apply bind_Ok in E1 as (t0 & r0 & E0 & E1).
  unfold collect_predictions in E3.
  apply bind_Ok in E3 as (t5 & chunks & E5 & E3).
  apply bind_Ok in E3 as (t6 & ps & E6 & E3).
  apply bind_Ok in E3 as (t7 & np_array & E7 & E3).
  invert_steps. destruct r0; try discriminate. injection E1 as ->.
  apply predict_chunks_Ok_answers in E6
    as (answers & lbls & HF & Hlen & Hw & -> & ->).
  destruct (array_split (split_features test_set) 100) as [cs|] eqn:Hs;
    [|discriminate].
  injection E5 as ->.
  exists res, chunks, answers, lbls, preds.
  split; [done|]. split; [exact E0|]. split; [done|]. split; [done|].
  split; [|split; [exact E3|]].
  - intros i chunk a Hc Ha. specialize (Hw i chunk a Hc Ha).
    by rewrite <- !app_assoc in Hw.
  - unfold request. by rewrite <- !app_assoc.
Qed.

(** ** The display of the sample (lines 21-29) *)

(** X1.  An image that does not have 784 pixels is rejected by the reshape:
    [show_digit] has asked for the subplot and nothing else, and it raises. *)
Theorem show_digit_rejects_wrong_size (img : row) (caption : string)
    (en : env) (tr : list event) :
  length img <> 784%nat ->
  fst (show_digit img caption en tr) = tr ++ [EvSubplots]
  /\ exists e, snd (show_digit img caption en tr) = Raise e.
Proof.
  intros Hl. unfold show_digit. rewrite bind_run, call_run.
  destruct (world en tr EvSubplots) as [r|e]; [|split; [done|by exists e]].
  cbv beta iota. rewrite bind_run. unfold reshape.
  rewrite decide_False by (simpl; lia).
  split; [reflexivity|]. by exists ValueError.
Qed.

Lemma show_digit_rejects_wrong_size_witness :
  fst (show_digit [F32.one] "This is a 5" Fixture.healthy [])
  = [EvSubplots].
Proof.
  destruct (show_digit_rejects_wrong_size [F32.one] "This is a 5"
              Fixture.healthy []) as [H _]; [simpl; lia|].
  exact H.
Defined.

(** X2.  When [show_digit] returns, it has created the subplot, switched the
    axes off, shown the image as 28 rows that, put end to end, are the pixels
    it was given, and set the caption, in that order and nothing else. *)
Theorem show_digit_draws_image (img : row) (caption : string)
    (en : env) (tr tr' : list event) (u : unit) :
  show_digit img caption en tr = (tr', Ok u) ->
  exists imgr,
    reshape 28 28 img = Some imgr
    /\ concat imgr = img
    /\ tr' = tr ++ [EvSubplots; EvAxis "off"; EvImshow imgr "gray";
                    EvTitle caption].
Proof.
  intros E. apply show_digit_Ok in E as (imgr & Hm & ->).
  exists imgr. split; [done|]. split; [|done].
  by apply reshape_Some in Hm as (_ & _ & _ & ?).
Qed.

Lemma show_digit_draws_image_witness :
  exists tr' imgr,
    show_digit Fixture.blank "This is a 0" Fixture.healthy [] = (tr', Ok tt)
    /\ concat imgr = Fixture.blank
    /\ tr' = [EvSubplots; EvAxis "off"; EvImshow imgr "gray";
              EvTitle "This is a 0"].
Proof.
  assert (E : show_digit Fixture.blank "This is a 0" Fixture.healthy []
              = (fst (show_digit Fixture.blank "This is a 0"
                        Fixture.healthy []), Ok tt))
    by (vm_compute; reflexivity).
  destruct (show_digit_draws_image _ _ _ _ _ _ E) as (imgr & _ & Hc & Htr).
  exists (fst (show_digit Fixture.blank "This is a 0" Fixture.healthy [])),
         imgr.
  split; [exact E|]. split; [exact Hc|exact Htr].
Defined.

(** X3.  A reshape to [r] rows of [c] columns succeeds exactly for [r * c]
    elements; the result then has [r] rows of [c] elements each, whose
    concatenation is the original vector. *)
Theorem reshape_keeps_pixels (r c : nat) (img : row) :
  (forall imgr, reshape r c img = Some imgr ->
     length img = (r * c)%nat
     /\ length imgr = r
     /\ Forall (fun x => length x = c) imgr
     /\ concat imgr = img)
  /\ (reshape r c img = None <-> length img <> (r * c)%nat).
Proof.
  split.
  - intros imgr. apply reshape_Some.
  - unfold reshape. case_decide; split; intros; congruence.
Qed.

(** X4.  When line 29 returns, the image shown is training sample 30 and the
    caption is "This is a " followed by the decimal label of that same
    sample. *)
Theorem sample_shown_with_its_label (train_set : split) (en : env)
    (tr tr' : list event) (u : unit) :
  show_sample train_set en tr = (tr', Ok u) ->
  exists img lbl imgr,
    split_features train_set !! 30%nat = Some img
    /\ split_labels train_set !! 30%nat = Some lbl
    /\ reshape 28 28 img = Some imgr
    /\ tr' = tr ++ [EvSubplots; EvAxis "off"; EvImshow imgr "gray";
                    EvTitle (String.append "This is a " (py_str_int lbl))].
Proof.
  intros E. unfold show_sample in E.
  apply bind_Ok in E as (t1 & img & E1 & E).
  apply bind_Ok in E as (t2 & lbl & E2 & E).
  rewrite format_caption in E.
  apply bind_Ok in E as (t3 & cap & E3 & E).
  invert_steps. injection E3 as <-.
  unfold py_index in E1, E2.
  destruct (split_features train_set !! 30%nat) as [x|]; [|done].
  destruct (split_labels train_set !! 30%nat) as [l|]; [|done].
  injection E1 as ->. injection E2 as ->.
  apply show_digit_Ok in E as (imgr & Hm & ->).
  by exists img, lbl, imgr.
Qed.

Lemma sample_shown_with_its_label_witness :
  exists tr' imgr,
    show_sample Fixture.train_set Fixture.healthy [] = (tr', Ok tt)
    /\ last tr' = Some (EvTitle "This is a 0")
    /\ tr' !! 2%nat = Some (EvImshow imgr "gray").
Proof.
  assert (E : show_sample Fixture.train_set Fixture.healthy []
              = (fst (show_sample Fixture.train_set Fixture.healthy []),
                 Ok tt)) by (vm_compute; reflexivity).
  destruct (sample_shown_with_its_label _ _ _ _ _ E)
    as (img & lbl & imgr & Hi & Hl & Hm & Htr).
  exists (fst (show_sample Fixture.train_set Fixture.healthy [])), imgr.
  split; [exact E|]. rewrite Htr.
  injection Hl as <-. split; reflexivity.
Defined.

(** ** The phases before the deployment (lines 13-78) *)

(** X5.  With a training split of at most 30 images (or at most 30 labels),
    the script stops at line 29 with an [IndexError]: it has downloaded and
    loaded the archive and done nothing else, so nothing is plotted, uploaded,
    trained or deployed. *)
Theorem short_training_set_stops_at_sample (c : config) (en : env)
    (r0 : reply) (train_set valid_set test_set : split) :
  world en [] (EvUrlRetrieve "http://deeplearning.net/data/mnist/mnist.pkl.gz"
                            "mnist.pkl.gz") = Ok r0 ->
  world en [EvUrlRetrieve "http://deeplearning.net/data/mnist/mnist.pkl.gz"
                          "mnist.pkl.gz"]
        (EvPickleLoad "mnist.pkl.gz")
  = Ok (RDataset train_set valid_set test_set) ->
  (length (split_features train_set) <= 30
   \/ length (split_labels train_set) <= 30)%nat ->
  run c en
  = ([EvUrlRetrieve "http://deeplearning.net/data/mnist/mnist.pkl.gz"
                    "mnist.pkl.gz";
      EvPickleLoad "mnist.pkl.gz"],
     Raise IndexError).
Proof.
  intros H0 H1 Hshort.
  unfold run, script, provision, load_dataset.
  rewrite !bind_run, call_run. simpl app.
  rewrite H0. cbv beta iota. rewrite bind_run, call_run. simpl app.
  rewrite H1. cbv beta iota.
  change (lift (as_dataset (RDataset train_set valid_set test_set)) en ?t)
    with (t, Ok (train_set, valid_set, test_set)).
  cbv beta iota. unfold show_sample. rewrite !bind_run.
  unfold py_index.
  destruct (split_features train_set !! 30%nat) as [img|] eqn:Himg;
    [|reflexivity].
  destruct Hshort as [Hs|Hs].
  { apply lookup_lt_Some in Himg. lia. }
  rewrite (lookup_ge_None_2 (split_labels train_set) 30) by lia.
  reflexivity.
Qed.

Lemma short_training_set_stops_at_sample_witness :
  run script_config Scenario.ten_samples
  = ([EvUrlRetrieve "http://deeplearning.net/data/mnist/mnist.pkl.gz"
                    "mnist.pkl.gz";
      EvPickleLoad "mnist.pkl.gz"],
     Raise IndexError).
Proof.
  apply (short_training_set_stops_at_sample script_config
           Scenario.ten_samples RUnit
           {| split_features := replicate 10 Fixture.blank;
              split_labels := replicate 10 3 |}
           Fixture.test_set Fixture.test_set).
  - reflexivity.
  - reflexivity.
  - left. simpl. lia.
Defined.

(** X6.  When the upload step returns, it has made exactly three calls: the
    tensor serializer on the encoded training split, the upload of the very
    bytes the serializer returned, and the print of the locator; and it
    returns that locator. *)
Theorem upload_step_trace (c : config) (train_set : split) (en : env)
    (tr tr' : list event) (loc : string) :
  upload_training_data c train_set en tr = (tr', Ok loc) ->
  exists buf,
    world en tr (EvWriteTensor (vectors train_set) (labels train_set))
    = Ok (RBytes buf)
    /\ loc = train_locator c
    /\ tr' = tr ++ [EvWriteTensor (vectors train_set) (labels train_set);
                    EvUpload (bucket c)
                             (os_path_join (prefix c) ["train"%string; key c])
                             buf;
                    EvPrint (PyStr (String.append
                                      "uploaded training data location: "
                                      (train_locator c)))].
Proof.
  intros E. unfold upload_training_data in E.
  rewrite format_train_locator in E.
  apply bind_Ok in E as (t1 & r1 & E1 & E).
  apply bind_Ok in E as (t2 & buf & E2 & E).
  apply bind_Ok in E as (t3 & r3 & E3 & E).
  apply bind_Ok in E as (t4 & s3 & E4 & E).
  invert_steps. injection E4 as <-.
  rewrite format_upload_message in E.
  apply bind_Ok in E as (t5 & msg & E5 & E).
  apply bind_Ok in E as (t6 & u & E6 & E).
  invert_steps. injection E5 as <-.
  destruct r1; try discriminate. injection E2 as ->.
  exists buf. split; [done|]. split; [done|]. by rewrite <- !app_assoc.
Qed.

Lemma upload_step_trace_witness :
  exists tr',
    upload_training_data script_config Fixture.train_set Fixture.healthy []
    = (tr', Ok "s3://localide/sagemaker/DEMO-1/train/recordio-pb-data"%string)
    /\ length tr' = 3%nat.
Proof.
  assert (E : upload_training_data script_config Fixture.train_set
                Fixture.healthy []
              = (fst (upload_training_data script_config Fixture.train_set
                        Fixture.healthy []),
                 Ok "s3://localide/sagemaker/DEMO-1/train/recordio-pb-data"%string))
    by (vm_compute; reflexivity).
  destruct (upload_step_trace _ _ _ _ _ _ E) as (buf & _ & _ & Htr).
  eexists. split; [exact E|]. rewrite Htr. reflexivity.
Defined.

(** X7.  The object key in closed form: a key that starts with a slash
    replaces the prefix altogether; otherwise the key follows the prefix and
    [train], with a slash after the prefix only if the prefix is not empty and
    does not already end with one. *)
Theorem object_key_closed_form (pre k : string) :
  os_path_join pre ["train"%string; k]
  = if startswith_sep k then k
    else if orb (String.eqb pre EmptyString) (endswith_sep pre)
         then String.append pre (String.append "train/" k)
         else String.append pre (String.append "/train/" k).
Proof.
  unfold os_path_join. simpl. unfold join_step at 2. simpl.
  unfold join_step. destruct (startswith_sep k); [done|].
  destruct (String.eqb pre EmptyString || endswith_sep pre) eqn:Hp.
  - rewrite endswith_sep_append by done. simpl.
    rewrite orb_false_r.
    destruct (String.eqb_spec (String.append pre "train") EmptyString) as [E|_].
    + destruct pre; cbv in E; congruence.
    + by rewrite append_assoc.
  - rewrite endswith_sep_append by done. simpl.
    rewrite orb_false_r.
    destruct (String.eqb_spec (String.append pre "/train") EmptyString) as [E|_].
    + destruct pre; cbv in E; congruence.
    + by rewrite append_assoc.
Qed.

(** X8.  When the provisioning returns, its last five calls are the region
    of the session, the image of the [factorization-machines] algorithm for
    the region that was answered, the session, the fit of the script's
    estimator on the uploaded locator [s3://{bucket}/{prefix}/train/{key}]
    and, right after it, the deployment of that same estimator on one
    [ml.m4.xlarge] instance.  The image of the estimator is the one that was
    answered for call 11, and the endpoint of the predictor is the answer to
    the deployment; the estimator has the fixed role and one [ml.c4.xlarge]
    training instance, writes to [s3://{bucket}/{prefix}/output] and is a
    binary classifier over 784 features. *)
Theorem trained_model_is_deployed (c : config) (en : env) (tr : list event)
    (train_set test_set : split) (p : predictor) :
  provision c en [] = (tr, Ok (train_set, test_set, p)) ->
  exists pre region container,
    tr = pre ++ [EvRegionName;
                 EvGetImageUri region "factorization-machines";
                 EvSession;
                 EvFit (script_estimator c container)
                       {["train"%string := train_locator c]};
                 EvDeploy (script_estimator c container) 1 "ml.m4.xlarge"]
    /\ length pre = 10%nat
    /\ answered en tr 10 EvRegionName (RStr region)
    /\ answered en tr 11 (EvGetImageUri region "factorization-machines")
                (RStr container)
    /\ answered en tr 14
                (EvDeploy (script_estimator c container) 1 "ml.m4.xlarge")
                (RStr (endpoint p))
    /\ train_locator c
       = String.append "s3://"
           (String.append (bucket c)
              (String.append "/"
                 (String.append (prefix c)
                    (String.append "/train/" (key c)))))
    /\ image (script_estimator c container) = container
    /\ est_role (script_estimator c container) = role
    /\ train_instance_count (script_estimator c container) = 1
    /\ train_instance_type (script_estimator c container)
       = "ml.c4.xlarge"%string
    /\ output_path (script_estimator c container)
       = String.append "s3://"
           (String.append (bucket c)
              (String.append "/" (String.append (prefix c) "/output")))
    /\ hyperparameters (script_estimator c container) !! "feature_dim"%string
       = Some (HInt 784)
    /\ hyperparameters (script_estimator c container)
         !! "predictor_type"%string
       = Some (HStr "binary_classifier").
Proof.
  intros Hp.
  apply provision_Ok_calls in Hp
    as (valid_set & img & imgr & lbl & buf & region & container & -> & _
        & _ & _ & _ & _ & A10 & A11 & A14 & _).
  exists (take 10 (provision_calls c train_set imgr lbl buf region container)),
    region, container.
  repeat split; try reflexivity; try apply A10; try apply A11; try apply A14.
Qed.

Lemma trained_model_is_deployed_witness :
  exists tr region container,
    provision script_config Fixture.healthy []
    = (tr, Ok (Fixture.train_set, Fixture.test_set, Scenario.fm_predictor))
    /\ answered Fixture.healthy tr 11
                (EvGetImageUri region "factorization-machines")
                (RStr container)
    /\ tr !! 14%nat
       = Some (EvDeploy (script_estimator script_config container) 1
                        "ml.m4.xlarge").
Proof.
  assert (E : provision script_config Fixture.healthy []
              = (fst (provision script_config Fixture.healthy []),
                 Ok (Fixture.train_set, Fixture.test_set,
                     Scenario.fm_predictor)))
    by (vm_compute; reflexivity).
  destruct (trained_model_is_deployed _ _ _ _ _ _ E)
    as (pre & region & container & _ & _ & _ & A11 & A14 & _).
  exists (fst (provision script_config Fixture.healthy [])), region, container.
  split; [exact E|]. split; [exact A11|exact (proj1 A14)].
Defined.

(** X9.  If the training job fails, the run fails, and it has neither
    deployed an endpoint nor sent a request nor called the teardown. *)
Theorem failed_training_is_not_deployed (c : config) (en : env)
    (tr : list event) (r : result unit) :
  (forall h fm inputs, exists e, world en h (EvFit fm inputs) = Raise e) ->
  run c en = (tr, r) ->
  (exists e, r = Raise e) /\ Forall before_deploy tr.
Proof.
  intros Hfit Hrun. unfold run, script, provision in Hrun.
  rewrite !bind_run in Hrun.
  destruct (load_dataset en []) as [t1 [[[train_set valid_set] test_set]|e1]]
    eqn:E1.
  2:{ injection Hrun as <- <-. split; [by eexists|].
      by destruct (emits_run _ _ _ _ _ _ load_dataset_before_deploy E1)
        as (added & -> & ?). }
  destruct (emits_run _ _ _ _ _ _ load_dataset_before_deploy E1)
    as (a1 & -> & F1).
  cbv beta iota in Hrun. rewrite !bind_run in Hrun.
  destruct (show_sample train_set en ([] ++ a1)) as [t2 [[]|e2]] eqn:E2.
  2:{ injection Hrun as <- <-. split; [by eexists|].
      destruct (emits_run _ _ _ _ _ _ (show_sample_before_deploy _) E2)
        as (added & -> & ?). rewrite !Forall_app. by repeat split. }
  destruct (emits_run _ _ _ _ _ _ (show_sample_before_deploy _) E2)
    as (a2 & -> & F2).
  cbv beta iota in Hrun. rewrite !bind_run in Hrun.
  destruct (upload_training_data c train_set en (([] ++ a1) ++ a2))
    as [t3 [loc|e3]] eqn:E3.
  2:{ injection Hrun as <- <-. split; [by eexists|].
      destruct (emits_run _ _ _ _ _ _ (upload_before_deploy _ _) E3)
        as (added & -> & ?). rewrite !Forall_app. by repeat split. }
  destruct (emits_run _ _ _ _ _ _ (upload_before_deploy _ _) E3)
    as (a3 & -> & F3).
  cbv beta iota in Hrun. rewrite !bind_run in Hrun.
  destruct (train c loc en ((([] ++ a1) ++ a2) ++ a3)) as [t4 [fm|e4]] eqn:E4.
  { apply train_Ok_trace in E4 as (pre & container & _ & _ & [r' Hw]).
    destruct (Hfit pre fm {["train"%string := loc]}) as [e He].
    congruence. }
  injection Hrun as <- <-. split; [by eexists|].
  destruct (emits_run _ _ _ _ _ _ (train_before_deploy _ _) E4)
    as (added & -> & ?). rewrite !Forall_app. by repeat split.
Qed.

Lemma failed_training_is_not_deployed_witness :
  exists tr e,
    run script_config Scenario.training_fails = (tr, Raise e)
    /\ Forall before_deploy tr.
Proof.
  destruct (failed_training_is_not_deployed script_config
              Scenario.training_fails
              (fst (run script_config Scenario.training_fails))
              (snd (run script_config Scenario.training_fails)))
    as [[e He] Hall].
  - intros h fm inputs. eexists. reflexivity.
  - by destruct (run script_config Scenario.training_fails).
  - exists (fst (run script_config Scenario.training_fails)), e.
    split; [|exact Hall]. rewrite <- He.
    by destruct (run script_config Scenario.training_fails).
Defined.

(** ** The use of the endpoint (lines 77-113) *)

(** X10.  In every run, whatever its outcome, each inference request and
    each teardown call names an endpoint that a deployment returned, and each
    request is sent with content type [application/json]. *)
Theorem requests_go_to_deployed_endpoint (c : config) (en : env)
    (tr : list event) (r : result unit) :
  run c en = (tr, r) -> Forall (handle_ok en) tr.
Proof.
  intros Hrun.
  assert (Hbd : forall l, Forall before_deploy l -> Forall (handle_ok en) l).
  { intros l Hl. eapply Forall_impl; [exact Hl|]. by intros []. }
  apply run_cases in Hrun
    as [(e & Hp & ->)
       |(tr1 & train_set & test_set & p & Hp & Hrest)].
  - apply provision_trace in Hp as [Hall|(pre & fm & -> & Hall)].
    + by apply Hbd.
    + rewrite Forall_app. split; [by apply Hbd|]. by repeat constructor.
  - assert (Hdep : deployed en (endpoint p)
                   /\ content_type p = "application/json"%string).
    { unfold provision in Hp.
      apply bind_Ok in Hp as (t1 & [[a b] d] & _ & Hp).
      apply bind_Ok in Hp as (t2 & [] & _ & Hp).
      apply bind_Ok in Hp as (t3 & loc & _ & Hp).
      apply bind_Ok in Hp as (t4 & fm & _ & Hp).
      apply bind_Ok in Hp as (t5 & q & Hd & Hp).
      apply (mret_Ok en) in Hp as [-> [= _ _ ->]].
      apply deploy_Ok_trace in Hd as (_ & Hw & Hct & _).
      split; [by exists t4, fm|done]. }
    destruct Hdep as [Hdep Hct].
    assert (H1 : Forall (handle_ok en) tr1).
    { apply provision_trace in Hp as [Hall|(pre & fm & -> & Hall)].
      - by apply Hbd.
      - rewrite Forall_app. split; [by apply Hbd|]. by repeat constructor. }
    assert (Haddr : forall l, Forall (addressed_to p) l ->
                              Forall (handle_ok en) l).
    { intros l Hl. eapply Forall_impl; [exact Hl|]. intros [] He; try done.
      simpl in *. destruct He as [-> ->]. by rewrite Hct. }
    destruct Hrest as [(e & Hu & ->)|(tr2 & u & Hu & -> & ->)].
    + destruct (emits_run _ _ _ _ _ _ (use_endpoint_addressed _ _ _) Hu)
        as (added & -> & Hadd).
      rewrite Forall_app. split; [done|by apply Haddr].
    + destruct (emits_run _ _ _ _ _ _ (use_endpoint_addressed _ _ _) Hu)
        as (added & -> & Hadd).
      rewrite !Forall_app. split; [split; [done|by apply Haddr]|].
      by repeat constructor.
Qed.

Lemma requests_go_to_deployed_endpoint_witness :
  exists tr,
    run script_config Fixture.healthy = (tr, Ok tt)
    /\ Forall (handle_ok Fixture.healthy) tr.
Proof.
  assert (E : run script_config Fixture.healthy
              = (fst (run script_config Fixture.healthy), Ok tt))
    by (vm_compute; reflexivity).
  eexists. split; [exact E|].
  exact (requests_go_to_deployed_endpoint _ _ _ _ E).
Defined.

(** X11.  A run that completes has sent exactly 101 inference requests:
    first sample 30 of the training split that call 1 loaded, alone, then the
    100 chunks of the test features of that same archive, in order; each one
    goes to the endpoint that the deployment, call 14, answered, as
    [application/json], with the body [fm_serializer] makes of the batch. *)
Theorem requests_of_completed_run (c : config) (en : env)
    (tr : list event) :
  run c en = (tr, Ok tt) ->
  invocations tr = 101%nat
  /\ exists train_set valid_set test_set x chunks fm name,
       answered en tr 1 (EvPickleLoad "mnist.pkl.gz")
                (RDataset train_set valid_set test_set)
       /\ split_features train_set !! 30%nat = Some x
       /\ array_split (split_features test_set) 100 = Some chunks
       /\ answered en tr 14 (EvDeploy fm 1 "ml.m4.xlarge") (RStr name)
       /\ filter is_invoke tr
          = map (fun data => EvInvoke name "application/json"
                                      (fm_serializer (json_dumps en) data))
                ([x] :: chunks).
Proof.
  intros Hrun.
  apply run_cases in Hrun
    as [(e & _ & [=])
       |(tr1 & train_set & test_set & p & Hp
         & [(e & _ & [=])|(tr2 & u & Hu & -> & _)])].
  unfold use_endpoint in Hu.
  apply bind_Ok in Hu as (t3 & u3 & Hev & Hu).
  invert_ok Hu. invert_steps.
  apply evaluate_Ok_calls in Hev
    as (res & chunks & answers & lbls & preds & Hs & _ & _ & _ & _ & _ & ->).
  pose proof (provision_no_invocations _ _ _ _ Hp) as Hno.
  apply provision_Ok_calls in Hp
    as (valid_set & x & imgr & lbl & buf & region & container & Htr1 & Hx
        & _ & _ & A1 & _ & _ & _ & A14 & Hct & Hser).
  assert (Hreq : filter is_invoke
            (((tr1
               ++ [request p (py_slice 30 31 (split_features train_set));
                   EvPrint res]
               ++ map (request p) chunks
               ++ [EvCrosstab (actuals test_set) preds])
              ++ [EvSession]) ++ [EvDeleteEndpoint (endpoint p)])
          = map (fun data => EvInvoke (endpoint p) "application/json"
                               (fm_serializer (json_dumps en) data))
                ([x] :: chunks)).
  { rewrite !filter_app, Hno.
    unfold request. rewrite filter_requests, (py_slice_one _ _ _ Hx).
    cbn [map]. rewrite filter_cons_True by done.
    rewrite !filter_cons_False, !filter_nil by (by intros []).
    by rewrite !app_nil_r, Hct, Hser. }
  split.
  - unfold invocations. rewrite Hreq. cbn [map length].
    rewrite length_map. by rewrite (array_split_length _ _ _ Hs).
  - exists train_set, valid_set, test_set, x, chunks,
      (script_estimator c container), (endpoint p).
    split; [by rewrite <- !app_assoc; apply answered_app|].
    split; [done|]. split; [done|].
    split; [by rewrite <- !app_assoc; apply answered_app|].
    exact Hreq.
Qed.

Lemma requests_of_completed_run_witness :
  exists tr,
    run script_config Fixture.healthy = (tr, Ok tt)
    /\ invocations tr = 101%nat.
Proof.
  assert (E : run script_config Fixture.healthy
              = (fst (run script_config Fixture.healthy), Ok tt))
    by (vm_compute; reflexivity).
  destruct (requests_of_completed_run _ _ _ E) as [Hn _].
  eexists. split; [exact E|exact Hn].
Defined.

(** X12.  An empty test set is still split into 100 chunks, all empty; when
    the endpoint answers an empty request with no prediction, the evaluator
    sends 100 requests without instances and collects no prediction. *)
Theorem empty_test_set_still_queried (f : row -> pyval) (p : predictor)
    (en : env) (tr : list event) :
  array_split ([] : matrix) 100 = Some (replicate 100 [])
  /\ (answers_per_row f en p [] ->
      collect_predictions p [] en tr
      = (tr ++ replicate 100 (EvInvoke (endpoint p) (content_type p)
                                       (serializer p [])),
         Ok [])).
Proof.
  split; [by apply array_split_nil|].
  intros Hw. unfold collect_predictions.
  rewrite (array_split_nil 100) by done.
  rewrite bind_run.
  change (lift_opt ValueError (Some (replicate 100 ([] : matrix))) en tr)
    with (tr, Ok (A:=list matrix) (replicate 100 [])).
  cbv beta iota. rewrite bind_run.
  destruct (predict_chunks_per_row f en p (replicate 100 [])
              ltac:(by apply Forall_replicate) [] tr) as (tr' & E).
  rewrite E. cbv beta iota.
  apply predict_chunks_Ok_invocations in E as ->. reflexivity.
Qed.

(** X13.  For any number of sections, the sub-arrays of [np.array_split] are
    as many as asked for, their concatenation is the array, and two of them
    differ in length by at most one, an earlier one never being the
    shorter. *)
Theorem array_split_balanced {A : Type} (ary : list A) (n : nat)
    (chunks : list (list A)) :
  array_split ary n = Some chunks ->
  length chunks = n
  /\ concat chunks = ary
  /\ (forall i j ci cj,
        (i <= j)%nat -> chunks !! i = Some ci -> chunks !! j = Some cj ->
        (length cj <= length ci <= length cj + 1)%nat).
Proof.
  intros Hs. split; [by eapply array_split_length|].
  split; [by eapply array_split_concat|].
  intros i j ci cj Hij Hi Hj.
  rewrite (array_split_sizes _ _ _ _ _ Hs Hi).
  rewrite (array_split_sizes _ _ _ _ _ Hs Hj).
  repeat case_decide; lia.
Qed.

Lemma array_split_balanced_witness :
  exists chunks,
    array_split [1; 2; 3; 4; 5; 6; 7] 3 = Some chunks
    /\ concat chunks = [1; 2; 3; 4; 5; 6; 7].
Proof.
  exists [[1; 2; 3]; [4; 5]; [6; 7]]. split; [reflexivity|].
  by destruct (array_split_balanced [1; 2; 3; 4; 5; 6; 7] 3
                 [[1; 2; 3]; [4; 5]; [6; 7]] eq_refl) as (_ & H & _).
Defined.

(** X14.  How line 103 fails: a response without the key [predictions]
    raises [KeyError]; the first item from which [predicted_label] cannot be
    read decides the exception, a dict without that key giving [KeyError];
    and a non-empty dict under [predictions] raises [TypeError], since its
    keys are what is iterated. *)
Theorem label_extraction_failures (d : list (string * pyval)) :
  (dict_get d "predictions" = None ->
   predicted_labels (PyDict d) = Raise (KeyError "predictions"))
  /\ (forall good bad rest vs e,
        dict_get d "predictions" = Some (PyList (good ++ bad :: rest)) ->
        Forall2 (fun item v => py_getitem item "predicted_label" = Ok v)
                good vs ->
        py_getitem bad "predicted_label" = Raise e ->
        predicted_labels (PyDict d) = Raise e)
  /\ (forall fields,
        dict_get fields "predicted_label" = None ->
        py_getitem (PyDict fields) "predicted_label"
        = Raise (KeyError "predicted_label"))
  /\ (forall k v rest,
        dict_get d "predictions" = Some (PyDict ((k, v) :: rest)) ->
        predicted_labels (PyDict d) = Raise TypeError).
Proof.
  split; [|split; [|split]].
  - intros Hd. unfold predicted_labels. simpl. by rewrite Hd.
  - intros good bad rest vs e Hd Hgood Hbad.
    unfold predicted_labels. simpl. rewrite Hd. simpl.
    by apply (result_mapM_first_failure _ good bad rest vs).
  - intros fields Hf. simpl. by rewrite Hf.
  - intros k v rest Hd. unfold predicted_labels. simpl. rewrite Hd. reflexivity.
Qed.

(** X15.  The object the serializer builds determines the batch: two batches
    with the same request object are the same batch. *)
Theorem request_object_determines_batch (data1 data2 : matrix) :
  fm_serializer_js data1 = fm_serializer_js data2 -> data1 = data2.
Proof.
  unfold fm_serializer_js. rewrite !serializer_loop. simpl.
  intros [= H]. revert data2 H.
  induction data1 as [|r1 d1 IH]; intros [|r2 d2] H; try done.
  cbn [map] in H. apply (inj2 cons) in H as [Hr H].
  f_equal; [by apply features_item_inj|by apply IH].
Qed.

Lemma request_object_determines_batch_witness :
  [[F32.one; F32.zero]] = [[F32.one; F32.zero]].
Proof.
  exact (request_object_determines_batch [[F32.one; F32.zero]]
           [[F32.one; F32.zero]] eq_refl).
Defined.

(** ** The cross-tabulation (line 110) *)
Section CrosstabMore.
Context {A B : Type} `{Countable A} `{Countable B} `{Label A} `{Label B}.

(** X16.  Tables add up over batches: the table of two batches of samples
    put together has, in every cell and in total, the sum of the counts of the
    tables of the two batches. *)
Theorem crosstab_of_batches (i1 i2 : list A) (c1 c2 : list B) t1 t2 :
  crosstab i1 c1 = Some t1 ->
  crosstab i2 c2 = Some t2 ->
  exists t,
    crosstab (i1 ++ i2) (c1 ++ c2) = Some t
    /\ total t = (total t1 + total t2)%nat
    /\ forall a p, cell t a p = (cell t1 a p + cell t2 a p)%nat.
Proof.
  intros E1 E2.
  apply crosstab_Some in E1 as (L1 & T1 & C1 & _).
  apply crosstab_Some in E2 as (L2 & T2 & C2 & _).
  destruct (crosstab_is_Some (i1 ++ i2) (c1 ++ c2)) as [t Ht].
  { rewrite !length_app. lia. }
  exists t. split; [done|].
  apply crosstab_Some in Ht as (_ & T & C & _).
  rewrite retained_app in T by done. split.
  - rewrite T, T1, T2, length_app. done.
  - intros a p. rewrite C, C1, C2, retained_app by done.
    by rewrite filter_app, length_app.
Qed.

End CrosstabMore.

Lemma crosstab_of_batches_witness :
  exists t,
    crosstab ([1; 0] ++ [0; 0]) ([1; 1] ++ [0; 1]) = Some t
    /\ total t = 4%nat.
Proof.
  destruct (crosstab_is_Some [1; 0] [1; 1] eq_refl) as [t1 E1].
  destruct (crosstab_is_Some [0; 0] [0; 1] eq_refl) as [t2 E2].
  destruct (crosstab_of_batches _ _ _ _ _ _ E1 E2) as (t & Ht & Htot & _).
  exists t. split; [exact Ht|].
  rewrite Htot.
  apply crosstab_Some in E1 as (_ & -> & _).
  apply crosstab_Some in E2 as (_ & -> & _). reflexivity.
Defined.

(** X17.  The table is diagonal exactly when every prediction that counts is
    right: all cells off the diagonal are 0 if and only if, at every sample
    in which neither label is missing, the two labels are the same. *)
Theorem crosstab_diagonal_iff_all_correct {A : Type} `{Countable A}
    `{Label A} (index columns : list A) t :
  crosstab index columns = Some t ->
  (forall a p, a <> p -> cell t a p = 0%nat)
  <-> (forall i a p,
         index !! i ≫= label_key = Some a ->
         columns !! i ≫= label_key = Some p ->
         a = p).
Proof.
  intros Ht. apply crosstab_Some in Ht as (Hlen & _ & _ & _ & Hcell). split.
  - intros Hoff i a p Ha Hp.
    destruct (decide (a = p)) as [|Hne]; [done|]. exfalso.
    specialize (Hoff a p Hne). rewrite Hcell in Hoff.
    apply nil_length_inv in Hoff.
    assert (Hin : i ∈ filter (fun i => index !! i ≫= label_key = Some a
                                       /\ columns !! i ≫= label_key = Some p)
                             (seq 0 (length index))).
    { apply list_elem_of_filter. split; [done|]. apply elem_of_seq.
      destruct (index !! i) as [x|] eqn:Hx; [|done].
      apply lookup_lt_Some in Hx. lia. }
    rewrite Hoff in Hin. by apply not_elem_of_nil in Hin.
  - intros Hsame a p Hne. rewrite Hcell.
    destruct (filter _ (seq 0 (length index))) as [|i l] eqn:Hf; [done|].
    exfalso.
    assert (Hi : i ∈ filter (fun i => index !! i ≫= label_key = Some a
                                      /\ columns !! i ≫= label_key = Some p)
                            (seq 0 (length index)))
      by (rewrite Hf; left).
    apply list_elem_of_filter in Hi as [[Ha Hp] _].
    by apply Hne, (Hsame i).
Qed.

(** One wrong prediction is a sample off the diagonal; a NaN is not. *)
Lemma crosstab_diagonal_iff_all_correct_witness :
  exists t,
    crosstab [F64.one; F64.zero; F64.zero] [F64.one; S754_nan; F64.zero]
    = Some t
    /\ forall a p, a <> p -> cell t a p = 0%nat.
Proof.
  destruct (crosstab_is_Some [F64.one; F64.zero; F64.zero]
              [F64.one; S754_nan; F64.zero] eq_refl) as [t Ht].
  exists t. split; [exact Ht|].
  apply (crosstab_diagonal_iff_all_correct _ _ t Ht).
  intros [|[|[|i]]] a p Ha Hp; cbn in Ha, Hp; try discriminate; congruence.
Defined.

(** ** The teardown (line 113) *)

(** X18.  No run calls [delete_endpoint] twice; when it is called, it is the
    last call of the run, and its outcome is the outcome of the run: an
    exception of the teardown is not caught. *)
Theorem teardown_at_most_once (c : config) (en : env) (tr : list event)
    (r : result unit) :
  run c en = (tr, r) ->
  (deletions tr <= 1)%nat
  /\ (deletions tr = 1%nat ->
      exists pre name,
        tr = pre ++ [EvDeleteEndpoint name]
        /\ r = match world en pre (EvDeleteEndpoint name) with
               | Ok _ => Ok tt
               | Raise e => Raise e
               end).
Proof.
  intros Hrun.
  apply run_cases in Hrun
    as [(e & Hp & ->)
       |(tr1 & train_set & test_set & p & Hp
         & [(e & Hu & ->)|(tr2 & u & Hu & -> & ->)])].
  - rewrite (quiet_run _ _ _ _ _ (provision_quiet c) Hp).
    unfold deletions. simpl. split; [lia|discriminate].
  - rewrite (quiet_run _ _ _ _ _ (use_endpoint_quiet _ _ _) Hu).
    rewrite (quiet_run _ _ _ _ _ (provision_quiet c) Hp).
    unfold deletions. simpl. split; [lia|discriminate].
  - rewrite deletions_app.
    rewrite (quiet_run _ _ _ _ _ (use_endpoint_quiet _ _ _) Hu).
    rewrite (quiet_run _ _ _ _ _ (provision_quiet c) Hp).
    split; [unfold deletions; simpl; lia|]. intros _.
    by exists tr2, (endpoint p).
Qed.

Lemma teardown_at_most_once_witness :
  exists tr,
    run script_config Scenario.stuck_endpoint
    = (tr, Raise (ServiceError "ValidationException"))
    /\ (deletions tr <= 1)%nat.
Proof.
  assert (E : run script_config Scenario.stuck_endpoint
              = (fst (run script_config Scenario.stuck_endpoint),
                 Raise (ServiceError "ValidationException")))
    by (vm_compute; reflexivity).
  destruct (teardown_at_most_once _ _ _ _ E) as [Hle _].
  eexists. split; [exact E|exact Hle].
Defined.

(** ** More on the use of the endpoint (lines 94-110) *)

(** X19.  When the loop of lines 101-103 fails, the requests it has sent are
    those of an initial run of the chunks, in order, ending with the chunk at
    which it failed: either the endpoint raised on that chunk, and that is the
    exception of the loop, or the labels could not be read from its answer.
    No later chunk is sent. *)
Theorem failed_chunk_ends_requests (p : predictor) (chunks : list matrix) :
  forall (acc : list pyval) (en : env) (tr tr' : list event) (e : exn),
  predict_chunks p chunks acc en tr = (tr', Raise e) ->
  exists sent unsent data,
    chunks = sent ++ data :: unsent
    /\ tr' = tr ++ map (request p) (sent ++ [data])
    /\ (world en (tr ++ map (request p) sent) (request p data) = Raise e
        \/ exists r,
             world en (tr ++ map (request p) sent) (request p data) = Ok r
             /\ (res ← as_val r; predicted_labels res) = Raise e).
Proof.
  induction chunks as [|chunk rest IH]; intros acc en tr tr' e E; simpl in E.
  - discriminate.
  - unfold predict in E. rewrite !bind_run, call_run in E.
    fold (request p chunk) in E.
    destruct (world en tr (request p chunk)) as [r|e1] eqn:Hw.
    2:{ injection E as <- <-. exists [], rest, chunk.
        split; [done|]. split; [done|]. left. by rewrite app_nil_r. }
    cbv beta iota in E.
    destruct (as_val r) as [res|e2] eqn:Hv.
    2:{ injection E as <- <-. exists [], rest, chunk.
        split; [done|]. split; [done|]. right. exists r.
        rewrite app_nil_r. split; [done|]. by rewrite Hv. }
    change (lift (Ok res) en ?t) with (t, Ok res) in E. cbv beta iota in E.
    rewrite bind_run in E.
    destruct (predicted_labels res) as [lbls|e3] eqn:Hl.
    2:{ injection E as <- <-. exists [], rest, chunk.
        split; [done|]. split; [done|]. right. exists r.
        rewrite app_nil_r. split; [done|]. rewrite Hv. exact Hl. }
    change (lift (Ok lbls) en ?t) with (t, Ok lbls) in E. cbv beta iota in E.
    apply IH in E as (sent & unsent & data & -> & -> & Hcause).
    exists (chunk :: sent), unsent, data.
    split; [done|]. split; [by rewrite <- app_assoc|].
    cbn [map]. rewrite <- app_assoc in Hcause. exact Hcause.
Qed.

Lemma failed_chunk_ends_requests_witness :
  exists sent unsent data,
    [[Fixture.lit]; [Fixture.blank]] = sent ++ data :: unsent
    /\ fst (predict_chunks Scenario.fm_predictor
              [[Fixture.lit]; [Fixture.blank]] [] Fixture.refusing [])
       = map (request Scenario.fm_predictor) (sent ++ [data]).
Proof.
  destruct (failed_chunk_ends_requests Scenario.fm_predictor
              [[Fixture.lit]; [Fixture.blank]] [] Fixture.refusing []
              (fst (predict_chunks Scenario.fm_predictor
                      [[Fixture.lit]; [Fixture.blank]] [] Fixture.refusing []))
              (ServiceError "ModelError"))
    as (sent & unsent & data & Hc & Ht & _).
  - vm_compute. reflexivity.
  - exists sent, unsent, data. split; [exact Hc|exact Ht].
Defined.

(** X20.  Lines 94-95: the evaluation first sends training sample 30 alone.
    If the endpoint answers, that answer is what is printed, right after the
    request and before anything else; if the endpoint raises, the evaluation
    ends with that exception, the request being its only call. *)
Theorem sample_response_is_printed (p : predictor) (train_set test_set : split)
    (en : env) (tr tr' : list event) (r : result unit) :
  evaluate p train_set test_set en tr = (tr', r) ->
  match world en tr
          (request p (py_slice 30 31 (split_features train_set))) with
  | Ok (RVal res) =>
    exists rest,
      tr' = tr ++ [request p (py_slice 30 31 (split_features train_set));
                   EvPrint res] ++ rest
  | Ok _ =>
    tr' = tr ++ [request p (py_slice 30 31 (split_features train_set))]
    /\ r = Raise TypeError
  | Raise e =>
    tr' = tr ++ [request p (py_slice 30 31 (split_features train_set))]
    /\ r = Raise e
  end.
Proof.
  intros E. unfold evaluate, predict in E.
  rewrite !bind_run, call_run in E.
  fold (request p (py_slice 30 31 (split_features train_set))) in E |- *.
  destruct (world en tr
              (request p (py_slice 30 31 (split_features train_set))))
    as [rep|e].
  2:{ by injection E as <- <-. }
  cbv beta iota in E.
  destruct rep as [| | | |res];
    try (change (lift (as_val _) en ?t) with (t, @Raise pyval TypeError) in E;
         cbv beta iota in E; by injection E as <- <-).
  change (lift (as_val (RVal res)) en ?t) with (t, Ok res) in E.
  cbv beta iota in E.
  change (log (EvPrint res) en ?t) with (t ++ [EvPrint res], Ok tt) in E.
  cbv beta iota in E.
  assert (Hk : emits (fun _ => True)
            (predictions ← collect_predictions p (split_features test_set);
             _ ← call (EvCrosstab (actuals test_set) predictions);
             mret tt)).
  { apply emits_bind; [by apply collect_predictions_emits|intros preds].
    apply emits_bind; [by apply emits_call|intros ?]. apply emits_mret. }
  destruct (emits_run _ _ _ _ _ _ Hk E) as (rest & -> & _).
  exists rest. rewrite <- !app_assoc. reflexivity.
Qed.

Lemma sample_response_is_printed_witness :
  exists res rest,
    fst (evaluate Scenario.fm_predictor Fixture.train_set Fixture.test_set
           Fixture.healthy [])
    = [EvInvoke "factorization-machines-endpoint" "application/json" "0";
       EvPrint res] ++ rest.
Proof.
  pose proof (sample_response_is_printed Scenario.fm_predictor
                Fixture.train_set Fixture.test_set Fixture.healthy []
                (fst (evaluate Scenario.fm_predictor Fixture.train_set
                        Fixture.test_set Fixture.healthy []))
                (snd (evaluate Scenario.fm_predictor Fixture.train_set
                        Fixture.test_set Fixture.healthy []))) as H.
  specialize (H ltac:(by destruct (evaluate Scenario.fm_predictor
                                     Fixture.train_set Fixture.test_set
                                     Fixture.healthy []))).
  change (world Fixture.healthy []
            (request Scenario.fm_predictor
               (py_slice 30 31 (split_features Fixture.train_set))))
    with (Ok (A:=reply) (RVal (Fixture.answer "0"))) in H.
  cbv beta iota in H. destruct H as [rest H].
  exists (Fixture.answer "0"), rest. exact H.
Defined.

(** X21.  The validation split that line 15 unpacks is never used: a run
    is the same, trace and outcome, whatever validation split the archive
    holds. *)
Theorem validation_split_is_unused (c : config) (v : split) (en : env) :
  run c (with_validation_split v en) = run c en.
Proof.
  unfold run. rewrite !script_after_load, !bind_run.
  rewrite load_dataset_with_validation_split.
  destruct (load_dataset en []) as [t [[[train_set valid_set] test_set]|e]];
    [|done].
  cbv beta iota. apply after_load_indifferent.
Qed.

(** X22.  The calls of a run that completes, in full and in order: the
    download and the load of the archive, the four plotting calls, the tensor
    writer, the upload, the two prints of the locators, the region, the image,
    the session, the fit, the deployment, the request for sample 30 and the
    print of its answer, one request per chunk of the test features, the
    cross-tabulation, the session of line 113 and the teardown.  Every value
    in these calls is the one the world answered: the splits are those of the
    archive (call 1), the image shown is sample 30 reshaped and the caption
    its label, the uploaded bytes are the tensor writer's (call 6), the region
    and the image are the answers to calls 10 and 11, the endpoint is the
    answer to the deployment (call 14), the printed result is the answer to
    call 15, and the cross-tabulated predictions are [np.array] of the labels
    read off the answers to the 100 chunk requests (calls 17 to 116). *)
Theorem completed_run_calls (c : config) (en : env) (tr : list event) :
  run c en = (tr, Ok tt) ->
  exists train_set valid_set test_set img imgr lbl buf region container p res
         chunks answers lbls preds,
    tr = provision_calls c train_set imgr lbl buf region container
         ++ [request p (py_slice 30 31 (split_features train_set));
             EvPrint res]
         ++ map (request p) chunks
         ++ [EvCrosstab (actuals test_set) preds;
             EvSession;
             EvDeleteEndpoint (endpoint p)]
    /\ answered en tr 1 (EvPickleLoad "mnist.pkl.gz")
                (RDataset train_set valid_set test_set)
    /\ split_features train_set !! 30%nat = Some img
    /\ split_labels train_set !! 30%nat = Some lbl
    /\ reshape 28 28 img = Some imgr
    /\ answered en tr 6
                (EvWriteTensor (vectors train_set) (labels train_set))
                (RBytes buf)
    /\ answered en tr 10 EvRegionName (RStr region)
    /\ answered en tr 11 (EvGetImageUri region "factorization-machines")
                (RStr container)
    /\ answered en tr 14
                (EvDeploy (script_estimator c container) 1 "ml.m4.xlarge")
                (RStr (endpoint p))
    /\ content_type p = "application/json"%string
    /\ serializer p = fm_serializer (json_dumps en)
    /\ answered en tr 15
                (request p (py_slice 30 31 (split_features train_set)))
                (RVal res)
    /\ array_split (split_features test_set) 100 = Some chunks
    /\ length answers = 100%nat
    /\ (forall i chunk a,
          chunks !! i = Some chunk -> answers !! i = Some a ->
          answered en tr (17 + i) (request p chunk) (RVal a))
    /\ Forall2 (fun a l => predicted_labels a = Ok l) answers lbls
    /\ np_array_py (np_array_rest en) (concat lbls) = Ok preds.
Proof.
  intros Hrun.
  apply run_cases in Hrun
    as [(e & _ & [=])
       |(tr1 & train_set & test_set & p & Hp
         & [(e & _ & [=])|(tr2 & u & Hu & -> & _)])].
  unfold use_endpoint in Hu.
  apply bind_Ok in Hu as (t3 & u3 & Hev & Hu).
  invert_ok Hu. invert_steps.
  apply evaluate_Ok_calls in Hev
    as (res & chunks & answers & lbls & preds & Hs & Hres & HF & Hlen & Hans
        & Hnp & ->).
  apply provision_Ok_calls in Hp
    as (valid_set & img & imgr & lbl & buf & region & container & -> & Himg
        & Hlbl & Hr & A1 & A6 & A10 & A11 & A14 & Hct & Hser).
  set (P := provision_calls c train_set imgr lbl buf region container) in *.
  set (sample := request p (py_slice 30 31 (split_features train_set))) in *.
  assert (Htr : ((P ++ [sample; EvPrint res] ++ map (request p) chunks
                    ++ [EvCrosstab (actuals test_set) preds])
                 ++ [EvSession]) ++ [EvDeleteEndpoint (endpoint p)]
                = P ++ [sample; EvPrint res] ++ map (request p) chunks
                    ++ [EvCrosstab (actuals test_set) preds; EvSession;
                        EvDeleteEndpoint (endpoint p)]).
  { rewrite <- !app_assoc. reflexivity. }
  rewrite Htr. clear Htr.
  exists train_set, valid_set, test_set, img, imgr, lbl, buf, region,
    container, p, res, chunks, answers, lbls, preds.
  split; [reflexivity|].
  split; [by apply answered_app|]. split; [done|]. split; [done|].
  split; [done|].
  split; [by apply answered_app|]. split; [by apply answered_app|].
  split; [by apply answered_app|]. split; [by apply answered_app|].
  split; [done|]. split; [done|].
  split; [by apply answered_at_length|]. split; [done|].
  split; [by rewrite Hlen, (array_split_length _ _ _ Hs)|].
  split; [|by split].
  intros i chunk ans Hc Ha.
  specialize (Hans i chunk ans Hc Ha).
  pose proof (lookup_lt_Some _ _ _ Hc) as Hi.
  rewrite <- (take_drop_middle chunks i chunk Hc) at 1.
  rewrite map_app. cbn [map].
  rewrite !app_assoc. rewrite <- !app_assoc.
  rewrite (app_assoc P), (app_assoc (P ++ _)).
  apply answered_at_length.
  - rewrite !length_app, length_map, length_take. cbn [length].
    change (length P) with 15%nat. lia.
  - rewrite <- !app_assoc. exact Hans.
Qed.

Lemma completed_run_calls_witness :
  exists tr, run script_config Fixture.healthy = (tr, Ok tt)
             /\ length tr = 120%nat.
Proof.
  assert (E : run script_config Fixture.healthy
              = (fst (run script_config Fixture.healthy), Ok tt))
    by (vm_compute; reflexivity).
  destruct (completed_run_calls _ _ _ E)
    as (train_set & valid_set & test_set & img & imgr & lbl & buf & region
        & container & p & res & chunks & answers & lbls & preds & Htr & _ & _
        & _ & _ & _ & _ & _ & _ & _ & _ & _ & Hs & _).
  eexists. split; [exact E|]. rewrite Htr.
  rewrite !length_app, length_map, (array_split_length _ _ _ Hs). reflexivity.
Defined.
